(** * The Last Pilgrim: timeline synchronisation model

    A shallow embedding of the timing code of the player:
    - [constants.ts]: the duration resolver ([getTrackDuration],
      [getVideoDuration]), chapter durations, the boundary table;
    - [timing.ts]: the frame domain ([toFrames], [toSeconds], frame ranges,
      [getCurrentTrackAtFrame], [getGlobalTrackAtFrame]);
    - [App.tsx]: [getCurrentAudioTrack] and [handleSeek], and the other
      handlers of the driver ([handleStartAudio], [handleTrackEnd],
      [handleKeyDown], the polling tick, the progress-sync effect);
    - [ElegantProgressBar.tsx]: the positions the bar draws and the target of
      a click;
    - [calculateAudioDurations.js]: the table and the totals the script
      writes to the audio artifact.

    JavaScript numbers that hold seconds are modelled as exact rationals
    ([Q], compared with [==]); frame numbers and indices, which the code keeps
    integral, are modelled as [Z].  A JSON object used as a string-keyed
    table is a [gmap string Q] of its own entries.  The two duration
    resolvers are embedded twice: [getTrackDuration] and [getVideoDuration]
    read a table as a map from keys to numbers, which is what the timeline
    arithmetic relies on; [getTrackDuration_js] and [getVideoDuration_js]
    read it as JavaScript does, where a missing key may still find a member
    inherited from [Object.prototype] and a missing table raises a
    [TypeError].  Wherever the latter return a number, it is the number the
    former return ([getTrackDuration_js_number],
    [getVideoDuration_js_number]).  The module-level constants [CHAPTERS],
    [audioDurations] and [videoDurationsData] are the variables of a
    section, so every function takes the ones it reads as leading
    arguments. *)

From Stdlib Require Import ZArith QArith Qround Qabs Qminmax Lqa Lia.
From Stdlib Require Import String Ascii List Bool.
From stdpp Require Import gmap strings list.

Local Open Scope string_scope.
Local Open Scope Z_scope.

(** ** JavaScript primitives used by the code *)

(** Truthiness of a value read from a number table: [undefined] (a missing
    key, [None]) and [0] are falsy, every other number is truthy. *)
Definition truthy (v : option Q) : bool :=
  match v with
  | Some q => negb (Qeq_bool q 0)
  | None => false
  end.

(** The number held by a value that was found truthy. *)
Definition number (v : option Q) : Q :=
  match v with
  | Some q => q
  | None => 0%Q
  end.

(** [v || 0] on a number or [undefined]. *)
Definition or_zero (v : option Q) : Q :=
  if truthy v then number v else 0%Q.

(** [arr[i]] for an array and an integral number [i]: [undefined] outside
    the array, in particular for a negative index. *)
Definition js_index {A : Type} (arr : list A) (i : Z) : option A :=
  if i <? 0 then None else nth_error arr (Z.to_nat i).

(** [s.startsWith(p)]. *)
Definition startsWith (s p : string) : bool := String.prefix p s.

(** The characters of [s] after the first [n]. *)
Fixpoint string_drop (n : nat) (s : string) : string :=
  match n, s with
  | O, _ => s
  | S n', String _ s' => string_drop n' s'
  | S _, EmptyString => EmptyString
  end.

(** [s.replace(pat, rep)] with a string pattern: only the first occurrence
    of [pat] is replaced. *)
Fixpoint js_replace (s pat rep : string) : string :=
  if String.prefix pat s then String.append rep (string_drop (String.length pat) s)
  else match s with
       | EmptyString => s
       | String c s' => String c (js_replace s' pat rep)
       end.

(** [Math.round]: the nearest integer, a tie going up. *)
Definition Math_round (x : Q) : Z := Qfloor (x + (1 # 2))%Q.

(** *** Property reads on a parsed JSON object

    A table of an artifact is a plain object: [table[key]] gives the own
    entry under [key] when there is one, and otherwise what the object
    inherits from [Object.prototype] under that name, if anything. *)

(** The names a plain object inherits from [Object.prototype]. *)
Definition Object_prototype_names : list string :=
  [ "constructor"; "hasOwnProperty"; "isPrototypeOf"; "propertyIsEnumerable";
    "toLocaleString"; "toString"; "valueOf"; "__proto__";
    "__defineGetter__"; "__defineSetter__"; "__lookupGetter__";
    "__lookupSetter__" ].

Definition inherited (key : string) : bool :=
  existsb (String.eqb key) Object_prototype_names.

(** What reading a key of a number table evaluates to: a number of the
    table, a member of [Object.prototype] (a function, or under
    ["__proto__"] the prototype object itself), or [undefined]. *)
Inductive JsValue :=
| JsNumber (q : Q)
| JsInherited (name : string)
| JsUndefined.

(** [table[key]]. *)
Definition js_get (table : gmap string Q) (key : string) : JsValue :=
  match table !! key with
  | Some q => JsNumber q
  | None => if inherited key then JsInherited key else JsUndefined
  end.

(** Truthiness: [undefined] and [0] are falsy; functions and objects are
    truthy, as is every other number. *)
Definition js_truthy (v : JsValue) : bool :=
  match v with
  | JsNumber q => negb (Qeq_bool q 0)
  | JsInherited _ => true
  | JsUndefined => false
  end.

(** [table[key] = value] for a number [value]: an own entry, except under
    ["__proto__"], where the assignment goes to the inherited setter, which
    ignores a value that is not an object. *)
Definition js_set (table : gmap string Q) (key : string) (value : Q)
    : gmap string Q :=
  if String.eqb key "__proto__" then table else <[key := value]> table.

(** ** Data model ([types.ts] and the two duration artifacts) *)

(** Only the fields the timing code reads are kept; the descriptive strings
    of a track or chapter (artist, reason, prompt, colours, quote) play no
    part in it. *)
Record Track := { audioFile : string }.

Record Chapter := {
  id : Z;
  title : string;
  video : string;
  tracks : list Track
}.

(** [AudioDurationsData].  [trackDurations] and [totalDuration] are read
    behind a presence test in the code, so they may be missing. *)
Record AudioDurationsData := {
  trackDurations : option (gmap string Q);
  chapterDurations : list Q;
  totalDuration : option Q
}.

(** [VideoDurationsData], as the interface declares it: the table is
    there.  The artifact as it is parsed, where the table may be missing,
    is [VideoDurationsJson] below. *)
Record VideoDurationsData := {
  videoDurations : gmap string Q
}.

Definition FALLBACK_TRACK_DURATION_SECONDS : Q := 180.
Definition FALLBACK_VIDEO_DURATION_SECONDS : Q := 30.
Definition FPS : Q := 30.

(** ** constants.ts *)

Section Constants.

Variable CHAPTERS : list Chapter.
Variable audioDurations : option AudioDurationsData.
(* [videoDurationsData] is the imported artifact the code names
   [videoDurations]; the shorter name is kept for its one field. *)
Variable videoDurationsData : option VideoDurationsData.

Definition getTrackDuration (audioFile : string) : Q :=
  match audioDurations with
  | None => FALLBACK_TRACK_DURATION_SECONDS
  | Some ad =>
    match trackDurations ad with
    | None => FALLBACK_TRACK_DURATION_SECONDS
    | Some td =>
      (* direct lookup *)
      if truthy (td !! audioFile) then number (td !! audioFile)
      else
        let withAssetsPrefix :=
          if startsWith audioFile "/assets/" then audioFile
          else String.append "/assets/" audioFile in
        if truthy (td !! withAssetsPrefix) then number (td !! withAssetsPrefix)
        else
          let withoutAssetsPrefix :=
            if startsWith audioFile "/assets/"
            then js_replace audioFile "/assets/" ""
            else audioFile in
          if truthy (td !! withoutAssetsPrefix)
          then number (td !! withoutAssetsPrefix)
          else FALLBACK_TRACK_DURATION_SECONDS
    end
  end.

Definition getVideoDuration (videoFile : string) : Q :=
  match videoDurationsData with
  | Some vd =>
    if truthy (videoDurations vd !! videoFile)
    then number (videoDurations vd !! videoFile)
    else FALLBACK_VIDEO_DURATION_SECONDS
  | None => FALLBACK_VIDEO_DURATION_SECONDS
  end.

(** [chapter.tracks.reduce((sum, track) => sum + getTrackDuration(track.audioFile), 0)] *)
Definition sumTrackDurations (ts : list Track) : Q :=
  fold_left (fun sum track => (sum + getTrackDuration (audioFile track))%Q) ts 0%Q.

Definition getChapterDuration (chapterIndex : Z) : Q :=
  if (chapterIndex <? 0) || (chapterIndex >=? Z.of_nat (List.length CHAPTERS))
  then 0%Q
  else
    let precalculated :=
      match audioDurations with
      | Some ad => js_index (chapterDurations ad) chapterIndex
      | None => None
      end in
    match precalculated with
    | Some d => d
    | None =>
      match js_index CHAPTERS chapterIndex with
      | Some chapter => sumTrackDurations (tracks chapter)
      | None => 0%Q
      end
    end.

(** [CHAPTERS.reduce((total, _, chapterIndex) => total + getChapterDuration(chapterIndex), 0)]:
    the callback ignores the element, so the fold runs over the indices. *)
Fixpoint sumChapterDurations (remaining : nat) (chapterIndex : Z) (total : Q) : Q :=
  match remaining with
  | O => total
  | S r =>
    sumChapterDurations r (chapterIndex + 1)
      (total + getChapterDuration chapterIndex)%Q
  end.

Definition getTotalDuration : Q :=
  match audioDurations with
  | Some ad =>
    if truthy (totalDuration ad) then number (totalDuration ad)
    else sumChapterDurations (List.length CHAPTERS) 0 0%Q
  | None => sumChapterDurations (List.length CHAPTERS) 0 0%Q
  end.

(** The [for] loop of [getChapterBoundaries]; [remaining] counts the
    iterations left, [CHAPTERS.length - chapterIndex]. *)
Fixpoint getChapterBoundaries_loop (remaining : nat) (chapterIndex : Z)
    (currentTime : Q) (boundaries : list Q) : list Q :=
  match remaining with
  | O => boundaries
  | S r =>
    let currentTime' := (currentTime + getChapterDuration chapterIndex)%Q in
    getChapterBoundaries_loop r (chapterIndex + 1) currentTime'
      (boundaries ++ [currentTime'])
  end.

Definition getChapterBoundaries : list Q :=
  getChapterBoundaries_loop (List.length CHAPTERS) 0 0%Q [0%Q].

Definition getChapterStartTime (chapterIndex : Z) : Q :=
  let boundaries := getChapterBoundaries in
  or_zero (js_index boundaries chapterIndex).

(** The [for] loop of [getTrackStartTime], over the tracks from index [i]. *)
Fixpoint getTrackStartTime_loop (ts : list Track) (i trackIndex : Z)
    (startTime : Q) : Q :=
  match ts with
  | [] => startTime
  | t :: rest =>
    if i <? trackIndex
    then getTrackStartTime_loop rest (i + 1) trackIndex
           (startTime + getTrackDuration (audioFile t))%Q
    else startTime
  end.

Definition getTrackStartTime (chapterIndex trackIndex : Z) : Q :=
  if (chapterIndex <? 0) || (chapterIndex >=? Z.of_nat (List.length CHAPTERS))
  then 0%Q
  else
    match js_index CHAPTERS chapterIndex with
    | Some chapter => getTrackStartTime_loop (tracks chapter) 0 trackIndex 0%Q
    | None => 0%Q
    end.

End Constants.

(** ** constants.ts: the resolvers on the artifacts as JavaScript reads them

    [getTrackDuration] and [getVideoDuration] above take a table as a map
    from its own keys to numbers, the reading their signature declares and
    the one the timeline arithmetic relies on.  The tables are parsed JSON
    objects, though: a lookup also finds the members every object inherits,
    and the video artifact, which the code tests only as a whole, may lack
    its table.  The two definitions below embed the same source lines on
    that reading and return the value the code returns, number or not. *)

(** The local constants [withAssetsPrefix] and [withoutAssetsPrefix] of
    [getTrackDuration]. *)
Definition withAssetsPrefix (audioFile : string) : string :=
  if startsWith audioFile "/assets/" then audioFile
  else String.append "/assets/" audioFile.

Definition withoutAssetsPrefix (audioFile : string) : string :=
  if startsWith audioFile "/assets/"
  then js_replace audioFile "/assets/" ""
  else audioFile.

Definition getTrackDuration_js (audioDurations : option AudioDurationsData)
    (audioFile : string) : JsValue :=
  match audioDurations with
  | None => JsNumber FALLBACK_TRACK_DURATION_SECONDS
  | Some ad =>
    match trackDurations ad with
    | None => JsNumber FALLBACK_TRACK_DURATION_SECONDS
    | Some td =>
      (* direct lookup *)
      if js_truthy (js_get td audioFile) then js_get td audioFile
      else if js_truthy (js_get td (withAssetsPrefix audioFile))
      then js_get td (withAssetsPrefix audioFile)
      else if js_truthy (js_get td (withoutAssetsPrefix audioFile))
      then js_get td (withoutAssetsPrefix audioFile)
      else JsNumber FALLBACK_TRACK_DURATION_SECONDS
    end
  end.

(** The parsed [videoDurations.json]: the file may lack its
    [videoDurations] table. *)
Record VideoDurationsJson := {
  videoDurationsTable : option (gmap string Q)
}.

(** A call returns a value, or raises a [TypeError] (a property read on
    [undefined]). *)
Inductive JsResult :=
| JsReturn (v : JsValue)
| JsTypeError.

Definition getVideoDuration_js (videoDurationsJson : option VideoDurationsJson)
    (videoFile : string) : JsResult :=
  match videoDurationsJson with
  | None => JsReturn (JsNumber FALLBACK_VIDEO_DURATION_SECONDS)
  | Some vd =>
    match videoDurationsTable vd with
    | None => JsTypeError
    | Some table =>
      if js_truthy (js_get table videoFile)
      then JsReturn (js_get table videoFile)
      else JsReturn (JsNumber FALLBACK_VIDEO_DURATION_SECONDS)
    end
  end.

(** ** timing.ts *)

Definition toFrames (seconds fps : Q) : Z := Math_round (seconds * fps).

Definition toSeconds (frames : Z) (fps : Q) : Q := (inject_Z frames / fps)%Q.

Record FrameRange := { from : Z; durationInFrames : Z }.

Record TrackFrameRange := {
  range :> FrameRange;
  rangeAudioFile : string
}.

(** The result of [getCurrentTrackAtFrame]. *)
Record TrackAtFrame := { trackIndex : Z; frameInTrack : Z }.

(** The result of [getGlobalTrackAtFrame]: [{ chapterIndex, ...trackInfo }]. *)
Record GlobalTrackAtFrame := {
  chapterIndex : Z;
  trackInfo :> TrackAtFrame
}.

Section Timing.

Variable CHAPTERS : list Chapter.
Variable audioDurations : option AudioDurationsData.

Abbreviation getTrackDuration := (getTrackDuration audioDurations).
Abbreviation getChapterDuration := (getChapterDuration CHAPTERS audioDurations).
Abbreviation getChapterStartTime := (getChapterStartTime CHAPTERS audioDurations).
Abbreviation getTotalDuration := (getTotalDuration CHAPTERS audioDurations).

Definition getTotalFrames (fps : Q) : Z := toFrames getTotalDuration fps.

Definition getChapterFrameRange (chapterIndex : Z) (fps : Q) : FrameRange :=
  let startTime := getChapterStartTime chapterIndex in
  let duration := getChapterDuration chapterIndex in
  {| from := toFrames startTime fps;
     durationInFrames := toFrames duration fps |}.

(** [CHAPTERS.map((_, index) => getChapterFrameRange(index, fps))] *)
Definition getAllChapterFrameRanges (fps : Q) : list FrameRange :=
  map (fun index => getChapterFrameRange (Z.of_nat index) fps)
      (seq 0 (List.length CHAPTERS)).

(** The [for ... of] loop of [getTrackFrameRanges]. *)
Fixpoint getTrackFrameRanges_loop (ts : list Track) (currentFrame : Z)
    (fps : Q) (ranges : list TrackFrameRange) : list TrackFrameRange :=
  match ts with
  | [] => ranges
  | track :: rest =>
    let duration := getTrackDuration (audioFile track) in
    getTrackFrameRanges_loop rest (currentFrame + toFrames duration fps) fps
      (ranges ++ [ {| range := {| from := currentFrame;
                                  durationInFrames := toFrames duration fps |};
                      rangeAudioFile := audioFile track |} ])
  end.

Definition getTrackFrameRanges (chapterIndex : Z) (fps : Q)
    : list TrackFrameRange :=
  if (chapterIndex <? 0) || (chapterIndex >=? Z.of_nat (List.length CHAPTERS))
  then []
  else
    match js_index CHAPTERS chapterIndex with
    | Some chapter => getTrackFrameRanges_loop (tracks chapter) 0 fps []
    | None => []
    end.

(** The [for] loop of [getCurrentTrackAtFrame] over the tracks from index
    [i]; [None] when the loop ends without returning. *)
Fixpoint getCurrentTrackAtFrame_loop (ts : list Track) (i : Z)
    (accumulatedFrames frameInChapter : Z) (fps : Q) : option TrackAtFrame :=
  match ts with
  | [] => None
  | track :: rest =>
    let trackDuration := getTrackDuration (audioFile track) in
    let trackFrames := toFrames trackDuration fps in
    if frameInChapter <? accumulatedFrames + trackFrames
    then Some {| trackIndex := i;
                 frameInTrack := frameInChapter - accumulatedFrames |}
    else getCurrentTrackAtFrame_loop rest (i + 1)
           (accumulatedFrames + trackFrames) frameInChapter fps
  end.

Definition getCurrentTrackAtFrame (chapterIndex frameInChapter : Z) (fps : Q)
    : option TrackAtFrame :=
  if (chapterIndex <? 0) || (chapterIndex >=? Z.of_nat (List.length CHAPTERS))
  then None
  else
    match js_index CHAPTERS chapterIndex with
    | None => None
    | Some chapter =>
      match getCurrentTrackAtFrame_loop (tracks chapter) 0 0 frameInChapter fps with
      | Some r => Some r
      | None =>
        (* Return last track if we're past all tracks *)
        let len := Z.of_nat (List.length (tracks chapter)) in
        if len >? 0 then
          match js_index (tracks chapter) (len - 1) with
          | Some lastTrack =>
            let lastTrackFrames :=
              toFrames (getTrackDuration (audioFile lastTrack)) fps in
            Some {| trackIndex := len - 1; frameInTrack := lastTrackFrames |}
          | None => None
          end
        else None
      end
    end.

(** The [for] loop of [getGlobalTrackAtFrame]; [remaining] counts the
    iterations left. *)
Fixpoint getGlobalTrackAtFrame_loop (remaining : nat) (chapterIndex : Z)
    (accumulatedFrames absoluteFrame : Z) (fps : Q)
    : option GlobalTrackAtFrame :=
  match remaining with
  | O => None
  | S r =>
    let chapterDuration := getChapterDuration chapterIndex in
    let chapterFrames := toFrames chapterDuration fps in
    let next :=
      getGlobalTrackAtFrame_loop r (chapterIndex + 1)
        (accumulatedFrames + chapterFrames) absoluteFrame fps in
    if absoluteFrame <? accumulatedFrames + chapterFrames then
      let frameInChapter := absoluteFrame - accumulatedFrames in
      match getCurrentTrackAtFrame chapterIndex frameInChapter fps with
      | Some trackInfo =>
        Some {| chapterIndex := chapterIndex; trackInfo := trackInfo |}
      | None => next
      end
    else next
  end.

Definition getGlobalTrackAtFrame (absoluteFrame : Z) (fps : Q)
    : option GlobalTrackAtFrame :=
  getGlobalTrackAtFrame_loop (List.length CHAPTERS) 0 0 absoluteFrame fps.

(** The value of [accumulatedFrames] after the loop of
    [getGlobalTrackAtFrame] has run over [remaining] chapters from
    [chapterIndex] without returning: the frame at which they end. *)
Fixpoint sumChapterFrames (remaining : nat) (chapterIndex : Z)
    (accumulatedFrames : Z) (fps : Q) : Z :=
  match remaining with
  | O => accumulatedFrames
  | S r =>
    sumChapterFrames r (chapterIndex + 1)
      (accumulatedFrames + toFrames (getChapterDuration chapterIndex) fps) fps
  end.

(** The value of [accumulatedFrames] after the loop of
    [getCurrentTrackAtFrame] has run over the tracks [ts] without returning:
    the frame, within the chapter, at which they end. *)
Fixpoint sumTrackFrames (ts : list Track) (accumulatedFrames : Z) (fps : Q) : Z :=
  match ts with
  | [] => accumulatedFrames
  | track :: rest =>
    sumTrackFrames rest
      (accumulatedFrames + toFrames (getTrackDuration (audioFile track)) fps) fps
  end.

End Timing.

(** ** App.tsx: the interactive playback driver *)

(** [a < b] on seconds. *)
Definition Qltb (a b : Q) : bool := negb (Qle_bool b a).

Module App.

(** [{ chapterIndex, trackIndex }], the value of [getCurrentAudioTrack] and
    of [currentAudioIndexRef.current]. *)
Record AudioTrack := { chapterIndex : Z; trackIndex : Z }.

(** The part of the shared [HTMLAudioElement] the driver touches. *)
Record HTMLAudioElement := {
  src : string;
  currentTime : Q;
  paused : bool
}.

(** The React state and refs read or written by [handleSeek]. *)
Record State := {
  audioRef : option HTMLAudioElement;
  currentAudioIndexRef : option AudioTrack;
  currentChapterIndex : Z;
  currentTrackIndex : Z;
  currentProgress : Q;
  isAudioStarted : bool;
  chapterStartTimeRef : Z
}.

(** How a handler ends: it returns, or a [TypeError] (reading a property of
    [undefined]) leaves the state as it was when it was raised. *)
Inductive Outcome :=
| Returned (st : State)
| TypeError (st : State).

Definition final (o : Outcome) : State :=
  match o with
  | Returned st => st
  | TypeError st => st
  end.

Section Driver.

Variable CHAPTERS : list Chapter.
Variable audioDurations : option AudioDurationsData.

Abbreviation getTrackDuration := (getTrackDuration audioDurations).
Abbreviation getChapterDuration := (getChapterDuration CHAPTERS audioDurations).
Abbreviation getChapterStartTime := (getChapterStartTime CHAPTERS audioDurations).
Abbreviation getTotalDuration := (getTotalDuration CHAPTERS audioDurations).

(** The inner [for] loop of [getCurrentAudioTrack], over the tracks from
    index [trackIdx]; [None] when the loop ends without returning. *)
Fixpoint getCurrentAudioTrack_tracks (ts : list Track) (trackIdx : Z)
    (trackAccumulatedTime progressInChapter : Q) : option Z :=
  match ts with
  | [] => None
  | track :: rest =>
    let trackDuration := getTrackDuration (audioFile track) in
    if Qltb progressInChapter (trackAccumulatedTime + trackDuration)
    then Some trackIdx
    else getCurrentAudioTrack_tracks rest (trackIdx + 1)
           (trackAccumulatedTime + trackDuration)%Q progressInChapter
  end.

(** The outer [for] loop of [getCurrentAudioTrack]; [remaining] counts the
    iterations left. *)
Fixpoint getCurrentAudioTrack_loop (remaining : nat) (chapterIdx : Z)
    (accumulatedTime progress : Q) : option AudioTrack :=
  match remaining with
  | O => None
  | S r =>
    let chapterDuration := getChapterDuration chapterIdx in
    if Qltb progress (accumulatedTime + chapterDuration) then
      let progressInChapter := (progress - accumulatedTime)%Q in
      let ts := match js_index CHAPTERS chapterIdx with
                | Some chapter => tracks chapter
                | None => []
                end in
      match getCurrentAudioTrack_tracks ts 0 0%Q progressInChapter with
      | Some trackIdx =>
        Some {| chapterIndex := chapterIdx; trackIndex := trackIdx |}
      | None =>
        (* If we're past all tracks, return the last track *)
        Some {| chapterIndex := chapterIdx;
                trackIndex := Z.of_nat (List.length ts) - 1 |}
      end
    else getCurrentAudioTrack_loop r (chapterIdx + 1)
           (accumulatedTime + chapterDuration)%Q progress
  end.

Definition getCurrentAudioTrack (progress : Q) : option AudioTrack :=
  getCurrentAudioTrack_loop (List.length CHAPTERS) 0 0%Q progress.

(** [CHAPTERS[chapterIndex].tracks[trackIndex]], [None] where the code would
    read a property of [undefined]. *)
Definition trackAt (chapterIndex trackIndex : Z) : option Track :=
  match js_index CHAPTERS chapterIndex with
  | Some chapter => js_index (tracks chapter) trackIndex
  | None => None
  end.

Definition getAudioFilePath (chapterIndex trackIndex : Z) : option string :=
  option_map audioFile (trackAt chapterIndex trackIndex).

(** The [for (let i = 0; i < trackIndex; i++)] loop of [handleSeek];
    [None] when [chapter.tracks[i]] is [undefined]. *)
Fixpoint handleSeek_loop (chapterIndex : Z) (remaining : nat) (i : Z)
    (trackAccumulatedTime : Q) : option Q :=
  match remaining with
  | O => Some trackAccumulatedTime
  | S r =>
    match trackAt chapterIndex i with
    | Some track =>
      handleSeek_loop chapterIndex r (i + 1)
        (trackAccumulatedTime + getTrackDuration (audioFile track))%Q
    | None => None
    end
  end.

(** [handleSeek(targetProgress)].  [now] is the value of [Date.now()] and
    [playStarts] tells whether [audio.play()] gets the element playing; both
    come from the browser. *)
Definition handleSeek (st : State) (targetProgress : Q) (now : Z)
    (playStarts : bool) : Outcome :=
  match audioRef st with
  | None => Returned st
  | Some audio =>
    if negb (isAudioStarted st) then Returned st
    else
      let totalDuration := getTotalDuration in
      let clampedProgress := Qmax 0 (Qmin targetProgress totalDuration) in
      match getCurrentAudioTrack clampedProgress with
      | None => Returned st
      | Some audioTrack =>
        let chapterIndex := chapterIndex audioTrack in
        let trackIndex := trackIndex audioTrack in
        let chapterStartTime := getChapterStartTime chapterIndex in
        let progressInChapter := (clampedProgress - chapterStartTime)%Q in
        match handleSeek_loop chapterIndex (Z.to_nat trackIndex) 0 0%Q,
              trackAt chapterIndex trackIndex with
        | Some trackAccumulatedTime, Some track =>
          let progressInTrack := (progressInChapter - trackAccumulatedTime)%Q in
          let currentTrackDuration := getTrackDuration (audioFile track) in
          let targetTrackTime :=
            Qmax 0 (Qmin progressInTrack currentTrackDuration) in
          let needsSwitch :=
            match currentAudioIndexRef st with
            | None => true
            | Some currentAudio =>
              negb (App.chapterIndex currentAudio =? chapterIndex)
              || negb (App.trackIndex currentAudio =? trackIndex)
            end in
          let st1 :=
            if needsSwitch then
              (* pause, load the new file, seek, play *)
              {| audioRef := Some {| src := audioFile track;
                                     currentTime := targetTrackTime;
                                     paused := negb playStarts |};
                 currentAudioIndexRef :=
                   Some {| chapterIndex := chapterIndex;
                           trackIndex := trackIndex |};
                 currentChapterIndex := chapterIndex;
                 currentTrackIndex := trackIndex;
                 currentProgress := currentProgress st;
                 isAudioStarted := isAudioStarted st;
                 chapterStartTimeRef := chapterStartTimeRef st |}
            else
              (* Same track, just update position *)
              {| audioRef := Some {| src := src audio;
                                     currentTime := targetTrackTime;
                                     paused := paused audio |};
                 currentAudioIndexRef := currentAudioIndexRef st;
                 currentChapterIndex := currentChapterIndex st;
                 currentTrackIndex := currentTrackIndex st;
                 currentProgress := currentProgress st;
                 isAudioStarted := isAudioStarted st;
                 chapterStartTimeRef := chapterStartTimeRef st |} in
          Returned
            {| audioRef := audioRef st1;
               currentAudioIndexRef := currentAudioIndexRef st1;
               currentChapterIndex := currentChapterIndex st1;
               currentTrackIndex := currentTrackIndex st1;
               currentProgress := clampedProgress;
               isAudioStarted := isAudioStarted st1;
               chapterStartTimeRef := now |}
        | _, _ => TypeError st
        end
      end
  end.

End Driver.

End App.

(** ** App.tsx: the other handlers of the driver *)

Section Handlers.

Variable CHAPTERS : list Chapter.
Variable audioDurations : option AudioDurationsData.

Abbreviation getTrackDuration := (getTrackDuration audioDurations).
Abbreviation getChapterStartTime := (getChapterStartTime CHAPTERS audioDurations).
Abbreviation getTotalDuration := (getTotalDuration CHAPTERS audioDurations).

(** The state with the shared audio element replaced. *)
Definition withAudio (st : App.State) (audio : App.HTMLAudioElement) : App.State :=
  {| App.audioRef := Some audio;
     App.currentAudioIndexRef := App.currentAudioIndexRef st;
     App.currentChapterIndex := App.currentChapterIndex st;
     App.currentTrackIndex := App.currentTrackIndex st;
     App.currentProgress := App.currentProgress st;
     App.isAudioStarted := App.isAudioStarted st;
     App.chapterStartTimeRef := App.chapterStartTimeRef st |}.

(** [setCurrentProgress(p)]. *)
Definition setCurrentProgress (st : App.State) (p : Q) : App.State :=
  {| App.audioRef := App.audioRef st;
     App.currentAudioIndexRef := App.currentAudioIndexRef st;
     App.currentChapterIndex := App.currentChapterIndex st;
     App.currentTrackIndex := App.currentTrackIndex st;
     App.currentProgress := p;
     App.isAudioStarted := App.isAudioStarted st;
     App.chapterStartTimeRef := App.chapterStartTimeRef st |}.

(** [audio.pause()]. *)
Definition pauseAudio (audio : App.HTMLAudioElement) : App.HTMLAudioElement :=
  {| App.src := App.src audio; App.currentTime := App.currentTime audio;
     App.paused := true |}.

(** The state once [audio.src], [audio.currentTime = 0] and [audio.play()]
    have loaded the track [(chapterIndex, trackIndex)] from its start, the
    loaded-track record and the two indices following. *)
Definition playFromStart (st : App.State) (file : string)
    (chapterIndex trackIndex now : Z) (playStarts : bool) : App.State :=
  {| App.audioRef := Some {| App.src := file; App.currentTime := 0%Q;
                             App.paused := negb playStarts |};
     App.currentAudioIndexRef :=
       Some {| App.chapterIndex := chapterIndex; App.trackIndex := trackIndex |};
     App.currentChapterIndex := chapterIndex;
     App.currentTrackIndex := trackIndex;
     App.currentProgress := App.currentProgress st;
     App.isAudioStarted := App.isAudioStarted st;
     App.chapterStartTimeRef := now |}.

(** [handleTrackEnd()], the listener of the audio element's [ended] event.
    The boolean tells whether [handleAutoStopRecording()] was called.  A
    [TypeError] raised after [audio.pause()] leaves the element paused. *)
Definition handleTrackEnd (st : App.State) (now : Z) (playStarts : bool)
    : App.Outcome * bool :=
  match App.currentAudioIndexRef st, App.audioRef st with
  | Some currentAudio, Some audio =>
    let chapterIndex := App.chapterIndex currentAudio in
    let trackIndex := App.trackIndex currentAudio in
    match js_index CHAPTERS chapterIndex with
    | None => (App.TypeError st, false)
    | Some chapter =>
      if trackIndex <? Z.of_nat (List.length (tracks chapter)) - 1 then
        (* Move to next track in same chapter *)
        match App.getAudioFilePath CHAPTERS chapterIndex (trackIndex + 1) with
        | None => (App.TypeError (withAudio st (pauseAudio audio)), false)
        | Some file =>
          (App.Returned
             {| App.audioRef := Some {| App.src := file; App.currentTime := 0%Q;
                                        App.paused := negb playStarts |};
                App.currentAudioIndexRef :=
                  Some {| App.chapterIndex := chapterIndex;
                          App.trackIndex := trackIndex + 1 |};
                App.currentChapterIndex := App.currentChapterIndex st;
                App.currentTrackIndex := trackIndex + 1;
                App.currentProgress := App.currentProgress st;
                App.isAudioStarted := App.isAudioStarted st;
                App.chapterStartTimeRef := now |}, false)
        end
      else if chapterIndex <? Z.of_nat (List.length CHAPTERS) - 1 then
        (* Move to next chapter *)
        let nextChapterIndex := chapterIndex + 1 in
        match App.getAudioFilePath CHAPTERS nextChapterIndex 0 with
        | None => (App.TypeError (withAudio st (pauseAudio audio)), false)
        | Some file =>
          (App.Returned (playFromStart st file nextChapterIndex 0 now playStarts),
           false)
        end
      else
        (* All tracks completed *)
        (App.Returned
           (setCurrentProgress
              (withAudio st {| App.src := App.src audio; App.currentTime := 0%Q;
                               App.paused := true |})
              getTotalDuration), true)
    end
  | _, _ => (App.Returned st, false)
  end.

(** [handleStartAudio()].  A [TypeError] from [getAudioFilePath(0, 0)] and a
    rejected [audio.play()] both end in the [catch] block, which only logs;
    the state is updated only after [play()] has resolved. *)
Definition handleStartAudio (st : App.State) (now : Z) (playStarts : bool)
    : App.State :=
  match App.audioRef st with
  | None => st
  | Some audio =>
    match App.getAudioFilePath CHAPTERS 0 0 with
    | None => st
    | Some file =>
      if playStarts then
        {| App.audioRef := Some {| App.src := file; App.currentTime := 0%Q;
                                   App.paused := false |};
           App.currentAudioIndexRef :=
             Some {| App.chapterIndex := 0; App.trackIndex := 0 |};
           App.currentChapterIndex := 0;
           App.currentTrackIndex := 0;
           App.currentProgress := App.currentProgress st;
           App.isAudioStarted := true;
           App.chapterStartTimeRef := now |}
      else
        withAudio st {| App.src := file; App.currentTime := 0%Q;
                        App.paused := true |}
    end
  end.

(** The global position the driver derives from the audio element's own
    clock: the chapters before the loaded one, the tracks before the loaded
    one in its chapter, and the time played in the loaded track.  The
    polling tick and both arrow keys compute it with the same lines;
    [None] where they would read a property of [undefined]. *)
Definition totalPlayedTime (chapterIndex trackIndex : Z) (time : Q) : option Q :=
  match App.trackAt CHAPTERS chapterIndex trackIndex,
        App.handleSeek_loop CHAPTERS audioDurations chapterIndex
          (Z.to_nat trackIndex) 0 0%Q with
  | Some track, Some completedTracksInChapterDuration =>
    let completedChaptersDuration := getChapterStartTime chapterIndex in
    let currentTrackDuration := getTrackDuration (audioFile track) in
    let currentTrackProgress := Qmin time currentTrackDuration in
    Some (completedChaptersDuration + completedTracksInChapterDuration
          + currentTrackProgress)%Q
  | _, _ => None
  end.

(** [updateProgress()], the 100 ms polling tick.  The interval runs only
    while the player is started.  [capturedChapterIndex] and
    [capturedTrackIndex] are the values of the two indices in the render
    whose closure the tick runs in. *)
Definition updateProgress (capturedChapterIndex capturedTrackIndex : Z)
    (st : App.State) : App.Outcome :=
  if negb (App.isAudioStarted st) then App.Returned st
  else
    match App.currentAudioIndexRef st with
    | None => App.Returned st
    | Some currentAudio =>
      match App.audioRef st with
      | None => App.Returned st
      | Some audio =>
        if App.paused audio then App.Returned st
        else
          let chapterIndex := App.chapterIndex currentAudio in
          let trackIndex := App.trackIndex currentAudio in
          match totalPlayedTime chapterIndex trackIndex (App.currentTime audio) with
          | None => App.TypeError st
          | Some totalPlayedTime =>
            let newProgress := Qmin totalPlayedTime getTotalDuration in
            App.Returned
              {| App.audioRef := App.audioRef st;
                 App.currentAudioIndexRef := App.currentAudioIndexRef st;
                 App.currentChapterIndex :=
                   if negb (chapterIndex =? capturedChapterIndex)
                   then chapterIndex else App.currentChapterIndex st;
                 App.currentTrackIndex :=
                   if negb (trackIndex =? capturedTrackIndex)
                   then trackIndex else App.currentTrackIndex st;
                 App.currentProgress := newProgress;
                 App.isAudioStarted := App.isAudioStarted st;
                 App.chapterStartTimeRef := App.chapterStartTimeRef st |}
          end
      end
    end.

Definition SEEK_AMOUNT : Q := 10.

(** [handleKeyDown(event)] for a key pressed outside an input field.
    [audioDuration] is [audio.duration], [None] while it is [NaN]. *)
Definition handleKeyDown (mode key : string) (st : App.State)
    (audioDuration : option Q) (now : Z) (playStarts : bool) : App.Outcome :=
  if (String.eqb key " " || String.eqb key "Spacebar")
     && (String.eqb mode "playback" && negb (App.isAudioStarted st))
  then App.Returned (handleStartAudio st now playStarts)
  else if negb (App.isAudioStarted st) then App.Returned st
  else
    match App.currentAudioIndexRef st, App.audioRef st with
    | Some currentAudio, Some audio =>
      let chapterIndex := App.chapterIndex currentAudio in
      let trackIndex := App.trackIndex currentAudio in
      if String.eqb key "ArrowRight" then
        (* Fast forward *)
        match App.trackAt CHAPTERS chapterIndex trackIndex with
        | None => App.TypeError st
        | Some track =>
          let currentTrackDuration := getTrackDuration (audioFile track) in
          let newTime :=
            Qmin (App.currentTime audio + SEEK_AMOUNT)
                 (if truthy audioDuration then number audioDuration
                  else currentTrackDuration) in
          let st1 := withAudio st {| App.src := App.src audio;
                                     App.currentTime := newTime;
                                     App.paused := App.paused audio |} in
          match totalPlayedTime chapterIndex trackIndex newTime with
          | None => App.TypeError st1
          | Some totalPlayedTime =>
            let newProgress := Qmin totalPlayedTime getTotalDuration in
            App.Returned (setCurrentProgress st1 newProgress)
          end
        end
      else if String.eqb key "ArrowLeft" then
        (* Rewind *)
        match App.trackAt CHAPTERS chapterIndex trackIndex with
        | None => App.TypeError st
        | Some track =>
          let newTime := Qmax (App.currentTime audio - SEEK_AMOUNT) 0 in
          let st1 := withAudio st {| App.src := App.src audio;
                                     App.currentTime := newTime;
                                     App.paused := App.paused audio |} in
          match totalPlayedTime chapterIndex trackIndex (Qmax newTime 0) with
          | None => App.TypeError st1
          | Some totalPlayedTime =>
            let newProgress := Qmax totalPlayedTime 0 in
            App.Returned (setCurrentProgress st1 newProgress)
          end
        end
      else App.Returned st
    | _, _ => App.Returned st
    end.

(** The effect that plays the audio matching [currentProgress] after a
    manual change of the progress.  [audioDuration] is [audio.duration],
    [None] while it is [NaN] (a comparison with [NaN] is false). *)
Definition syncAudioToProgress (st : App.State) (audioDuration : option Q)
    (now : Z) (playStarts : bool) : App.Outcome :=
  match App.audioRef st with
  | None => App.Returned st
  | Some audio =>
    if negb (App.isAudioStarted st) then App.Returned st
    else
      match App.currentAudioIndexRef st with
      | None => App.Returned st
      | Some currentAudio =>
        match App.getCurrentAudioTrack CHAPTERS audioDurations
                (App.currentProgress st) with
        | None => App.Returned st
        | Some audioTrack =>
          let chapterIndex := App.chapterIndex audioTrack in
          let trackIndex := App.trackIndex audioTrack in
          let needsSwitch :=
            negb (App.chapterIndex currentAudio =? chapterIndex)
            || negb (App.trackIndex currentAudio =? trackIndex) in
          if negb needsSwitch then App.Returned st
          else
            let stillPlaying :=
              negb (App.paused audio)
              && match audioDuration with
                 | Some d => Qltb (App.currentTime audio) d
                 | None => false
                 end in
            if stillPlaying then App.Returned st
            else
              let chapterStartTime := getChapterStartTime chapterIndex in
              let progressInChapter :=
                (App.currentProgress st - chapterStartTime)%Q in
              match App.handleSeek_loop CHAPTERS audioDurations chapterIndex
                      (Z.to_nat trackIndex) 0 0%Q,
                    App.trackAt CHAPTERS chapterIndex trackIndex with
              | Some trackAccumulatedTime, Some track =>
                let progressInTrack :=
                  (progressInChapter - trackAccumulatedTime)%Q in
                let currentTrackDuration := getTrackDuration (audioFile track) in
                App.Returned
                  {| App.audioRef :=
                       Some {| App.src := audioFile track;
                               App.currentTime :=
                                 Qmax 0 (Qmin progressInTrack currentTrackDuration);
                               App.paused := negb playStarts |};
                     App.currentAudioIndexRef :=
                       Some {| App.chapterIndex := chapterIndex;
                               App.trackIndex := trackIndex |};
                     App.currentChapterIndex := chapterIndex;
                     App.currentTrackIndex := trackIndex;
                     App.currentProgress := App.currentProgress st;
                     App.isAudioStarted := App.isAudioStarted st;
                     App.chapterStartTimeRef := now |}
              | _, _ => App.TypeError st
              end
        end
      end
  end.

End Handlers.

(** The loaded-track record, the audio element and the two indices agree:
    once a track is recorded as loaded, the player is started, the audio
    source is that track's file and the current chapter and track indices
    are those of the record. *)
Definition consistent (CHAPTERS : list Chapter) (st : App.State) : Prop :=
  match App.currentAudioIndexRef st with
  | None => True
  | Some currentAudio =>
    App.isAudioStarted st = true /\
    App.currentChapterIndex st = App.chapterIndex currentAudio /\
    App.currentTrackIndex st = App.trackIndex currentAudio /\
    exists audio,
      App.audioRef st = Some audio /\
      App.getAudioFilePath CHAPTERS (App.chapterIndex currentAudio)
        (App.trackIndex currentAudio) = Some (App.src audio)
  end.

(** The number of tracks that play before track [trackIndex] of chapter
    [chapterIndex]: those of the chapters before, and [trackIndex]. *)
Definition trackNumber (CHAPTERS : list Chapter) (chapterIndex trackIndex : Z) : Z :=
  Z.of_nat (List.length
              (concat (map tracks (firstn (Z.to_nat chapterIndex) CHAPTERS))))
  + trackIndex.

(** ** ElegantProgressBar.tsx: the positions drawn by the progress bar *)

Record BarProgress := { trackProgress : Q; chapterProgress : Q }.

Section ProgressBar.

Variable CHAPTERS : list Chapter.
Variable audioDurations : option AudioDurationsData.

Abbreviation getTrackDuration := (getTrackDuration audioDurations).

(** The [for] loop of the bar, with its [break]: the values of
    [accumulatedTime], [currentTrackStartTime] and [currentTrackDuration]
    when it ends. *)
Fixpoint progressBar_loop (ts : list Track)
    (accumulatedTime progressInChapter : Q) : Q * Q * Q :=
  match ts with
  | [] => (accumulatedTime, 0%Q, 0%Q)
  | track :: rest =>
    let trackDuration := getTrackDuration (audioFile track) in
    if Qltb progressInChapter (accumulatedTime + trackDuration)
    then (accumulatedTime, accumulatedTime, trackDuration)
    else progressBar_loop rest (accumulatedTime + trackDuration)%Q
           progressInChapter
  end.

(** The memoised [{ trackProgress, chapterProgress }] of the bar; [None]
    when [CHAPTERS[currentChapterIndex]] is [undefined] and the component
    fails on [chapter.tracks]. *)
Definition barProgress (currentProgress : Q) (currentChapterIndex : Z)
    : option BarProgress :=
  match js_index CHAPTERS currentChapterIndex with
  | None => None
  | Some chapter =>
    let chapterStartTime :=
      getChapterStartTime CHAPTERS audioDurations currentChapterIndex in
    let progressInChapter := (currentProgress - chapterStartTime)%Q in
    let '(accumulatedTime, foundStartTime, foundDuration) :=
      progressBar_loop (tracks chapter) 0%Q progressInChapter in
    let len := Z.of_nat (List.length (tracks chapter)) in
    let '(currentTrackStartTime, currentTrackDuration) :=
      (* If we're past all tracks, use the last track *)
      if Qeq_bool foundDuration 0 && (len >? 0) then
        match js_index (tracks chapter) (len - 1) with
        | Some lastTrack =>
          ((accumulatedTime - getTrackDuration (audioFile lastTrack))%Q,
           getTrackDuration (audioFile lastTrack))
        | None => (foundStartTime, foundDuration)
        end
      else (foundStartTime, foundDuration) in
    let progressInTrack := (progressInChapter - currentTrackStartTime)%Q in
    let trackProgress :=
      if Qltb 0 currentTrackDuration
      then (progressInTrack / currentTrackDuration)%Q else 0%Q in
    let chapterDuration :=
      getChapterDuration CHAPTERS audioDurations currentChapterIndex in
    let chapterProgress :=
      if Qltb 0 chapterDuration
      then (progressInChapter / chapterDuration)%Q else 0%Q in
    Some {| trackProgress := Qmax 0 (Qmin trackProgress 1);
            chapterProgress := Qmax 0 (Qmin chapterProgress 1) |}
  end.

End ProgressBar.

(** [handleProgressBarClick]: the target handed to [onSeek] for a click at
    horizontal offset [clickX = event.clientX - rect.left] on a bar of width
    [width].  Over a bar of width 0 the quotient is an infinity, which the
    clamp brings back to 0 or 1, or [NaN] (for [0 / 0]): [None]. *)
Definition handleProgressBarClick (clickX width totalDuration : Q) : option Q :=
  let clickPercentage :=
    if Qeq_bool width 0 then
      if Qeq_bool clickX 0 then None
      else if Qltb 0 clickX then Some 1%Q else Some 0%Q
    else Some (Qmax 0 (Qmin 1 (clickX / width))) in
  option_map (fun clickPercentage => (clickPercentage * totalDuration)%Q)
    clickPercentage.

(** ** calculateAudioDurations.js: the script that writes the artifact *)

(** What probing one audio file gave: the file is missing, the probe threw,
    or [getAudioDuration] returned a number or [null]. *)
Inductive ProbeResult :=
| FileNotFound
| ProbeThrew
| ProbeReturned (duration : option Q).

(** The value stored under [durations[audioFile]]. *)
Definition storedDuration (r : ProbeResult) : Q :=
  match r with
  | FileNotFound => 180%Q
  | ProbeThrew => 180%Q
  | ProbeReturned None => 180%Q
  | ProbeReturned (Some duration) =>
    if Qle_bool duration 0 then 180%Q else duration
  end.

(** The [for ... of] loop of [calculateDurations] over the audio files, each
    paired with the result of its probe. *)
Fixpoint calculateDurations_loop (audioFiles : list (string * ProbeResult))
    (durations : gmap string Q) : gmap string Q :=
  match audioFiles with
  | [] => durations
  | (audioFile, r) :: rest =>
    calculateDurations_loop rest (js_set durations audioFile (storedDuration r))
  end.

Definition calculateDurations (audioFiles : list (string * ProbeResult))
    : gmap string Q :=
  calculateDurations_loop audioFiles ∅.

(** [chapter.tracks.reduce((sum, track) => sum + (durations[track.audioFile] || 180), 0)]
    on the track list of one chapter of the script's own chapter table. *)
Definition scriptChapterDuration (durations : gmap string Q) (ts : list Track) : Q :=
  fold_left
    (fun sum track =>
       (sum + (if truthy (durations !! audioFile track)
               then number (durations !! audioFile track) else 180))%Q)
    ts 0%Q.

(** The object the script writes to [audioDurations.json], for the table of
    durations and the track lists of the script's chapters. *)
Definition scriptOutput (durations : gmap string Q)
    (scriptChapters : list (list Track)) : AudioDurationsData :=
  let chapterDurations := map (scriptChapterDuration durations) scriptChapters in
  let totalDuration :=
    fold_left (fun sum duration => (sum + duration)%Q) chapterDurations 0%Q in
  {| trackDurations := Some durations;
     chapterDurations := chapterDurations;
     totalDuration := Some totalDuration |}.

(** ** The configured chapter sequence and sample duration artifacts *)

Definition CHAPTERS : list Chapter :=
  [ {| id := 1; title := "Movement I: The Silent Colossus"; video := "01.mp4";
       tracks := [ {| audioFile := "a_01_01.mp3" |};
                   {| audioFile := "a_01_02.mp3" |};
                   {| audioFile := "a_01_03.mp3" |} ] |};
    {| id := 2; title := "Movement II: The Forest of Steel"; video := "02.mp4";
       tracks := [ {| audioFile := "a_02_01.mp3" |};
                   {| audioFile := "a_02_02.mp3" |};
                   {| audioFile := "a_02_03.mp3" |} ] |};
    {| id := 3; title := "Movement III: The Gaze of the Void"; video := "03.mp4";
       tracks := [ {| audioFile := "a_03_01.mp3" |};
                   {| audioFile := "a_03_02.mp3" |} ] |};
    {| id := 4; title := "Movement IV: White Oblivion"; video := "04.mp4";
       tracks := [ {| audioFile := "a_04_01.mp3" |};
                   {| audioFile := "a_04_02.mp3" |} ] |} ].

(** An artifact whose precomputed total (2000 s) is stale: the ten tracks,
    all at the 180 s fallback, add up to 1800 s. *)
Definition staleTotalDurations : AudioDurationsData :=
  {| trackDurations := Some ∅; chapterDurations := [];
     totalDuration := Some 2000%Q |}.


(** Durations that are not a whole number of frames at 30 fps: the first
    track of chapters 0 and 1 lasts 100.25 s, the other four 100 s. *)
Definition fractionalDurations : AudioDurationsData :=
  {| trackDurations :=
       Some (<["a_01_01.mp3" := (401 # 4)%Q]>
             (<["a_01_02.mp3" := 100%Q]>
             (<["a_01_03.mp3" := 100%Q]>
             (<["a_02_01.mp3" := (401 # 4)%Q]>
             (<["a_02_02.mp3" := 100%Q]>
             (<["a_02_03.mp3" := 100%Q]> ∅))))));
     chapterDurations := []; totalDuration := None |}.

(** A table with a negative entry for the last track of chapter 0 and a
    precomputed duration of 1000 s for that chapter. *)
Definition negativeEntryDurations : AudioDurationsData :=
  {| trackDurations := Some (<["a_01_03.mp3" := (-1)%Q]> ∅);
     chapterDurations := [1000%Q]; totalDuration := None |}.


(** The player while the second track of chapter 0 plays, five seconds in. *)
Definition playingSecondTrack : App.State :=
  {| App.audioRef := Some {| App.src := "a_01_02.mp3";
                             App.currentTime := 5%Q;
                             App.paused := false |};
     App.currentAudioIndexRef :=
       Some {| App.chapterIndex := 0; App.trackIndex := 1 |};
     App.currentChapterIndex := 0;
     App.currentTrackIndex := 1;
     App.currentProgress := 185%Q;
     App.isAudioStarted := true;
     App.chapterStartTimeRef := 1000 |}.

(** Chapter 0 with tracks of 60, 90 and 30 seconds. *)
Definition threeTrackDurations : AudioDurationsData :=
  {| trackDurations :=
       Some (<["a_01_01.mp3" := 60%Q]>
             (<["a_01_02.mp3" := 90%Q]>
             (<["a_01_03.mp3" := 30%Q]> ∅)));
     chapterDurations := []; totalDuration := None |}.

(** * Properties *)

(** ** The embedding on a three-track chapter *)

Example three_tracks_second_75 :
  getGlobalTrackAtFrame CHAPTERS (Some threeTrackDurations) (toFrames 75 FPS) FPS
  = Some {| chapterIndex := 0;
            trackInfo := {| trackIndex := 1;
                            frameInTrack := toFrames 15 FPS |} |} /\
  App.getCurrentAudioTrack CHAPTERS (Some threeTrackDurations) 75
  = Some {| App.chapterIndex := 0; App.trackIndex := 1 |}.
Proof. split; reflexivity. Qed.

Example three_tracks_second_150 :
  getGlobalTrackAtFrame CHAPTERS (Some threeTrackDurations) (toFrames 150 FPS) FPS
  = Some {| chapterIndex := 0;
            trackInfo := {| trackIndex := 2; frameInTrack := 0 |} |} /\
  (getTrackStartTime CHAPTERS (Some threeTrackDurations) 0 2 == 150)%Q /\
  (getChapterStartTime CHAPTERS (Some threeTrackDurations) 1 == 180)%Q.
Proof. repeat split; reflexivity. Qed.

Example seek_across_chapter_boundary :
  App.final
    (App.handleSeek CHAPTERS (Some threeTrackDurations) playingSecondTrack
       185%Q 2000 true)
  = {| App.audioRef := Some {| App.src := "a_02_01.mp3";
                               App.currentTime := Qmax 0 (Qmin (185 - 180 - 0) 180);
                               App.paused := false |};
       App.currentAudioIndexRef :=
         Some {| App.chapterIndex := 1; App.trackIndex := 0 |};
       App.currentChapterIndex := 1;
       App.currentTrackIndex := 0;
       App.currentProgress := Qmax 0 (Qmin 185 1800);
       App.isAudioStarted := true;
       App.chapterStartTimeRef := 2000 |}.
Proof. vm_compute. reflexivity. Qed.

(** ** JavaScript primitives *)

Lemma truthy_Some q : truthy (Some q) = negb (Qeq_bool q 0).
Proof. reflexivity. Qed.

Lemma truthy_zero q : (q == 0)%Q -> truthy (Some q) = false.
Proof.
  intros Hq. simpl. apply Qeq_bool_iff in Hq. now rewrite Hq.
Qed.

Lemma truthy_false_inv v :
  truthy v = false -> v = None \/ exists q, v = Some q /\ (q == 0)%Q.
Proof.
  destruct v as [q|]; simpl; [|now left].
  intros H. right. exists q. split; [reflexivity|].
  apply Qeq_bool_iff. now destruct (Qeq_bool q 0).
Qed.

(** [v || 0] never changes the number it is given. *)
Lemma or_zero_Some q : (or_zero (Some q) == q)%Q.
Proof.
  unfold or_zero. simpl.
  destruct (Qeq_bool q 0) eqn:E; simpl; [|reflexivity].
  apply Qeq_bool_iff in E. now rewrite E.
Qed.

Lemma or_zero_None : or_zero None = 0%Q.
Proof. reflexivity. Qed.

Lemma js_index_neg {A} (arr : list A) i : i < 0 -> js_index arr i = None.
Proof.
  intros H. unfold js_index.
  destruct (Z.ltb_spec i 0); [reflexivity|lia].
Qed.

Lemma js_index_nat {A} (arr : list A) (n : nat) :
  js_index arr (Z.of_nat n) = nth_error arr n.
Proof.
  unfold js_index.
  destruct (Z.ltb_spec (Z.of_nat n) 0) as [H|_]; [lia|].
  now rewrite Nat2Z.id.
Qed.

Lemma js_index_ge {A} (arr : list A) i :
  Z.of_nat (List.length arr) <= i -> js_index arr i = None.
Proof.
  intros H. unfold js_index.
  destruct (Z.ltb_spec i 0) as [|Hi]; [reflexivity|].
  apply nth_error_None. lia.
Qed.

Lemma js_index_Some_range {A} (arr : list A) i x :
  js_index arr i = Some x -> 0 <= i < Z.of_nat (List.length arr).
Proof.
  unfold js_index. destruct (Z.ltb_spec i 0) as [|Hi]; [discriminate|].
  intros H. assert (Hn : nth_error arr (Z.to_nat i) <> None) by congruence.
  apply nth_error_Some in Hn. lia.
Qed.





(** ** Rounding to frames *)

Lemma Math_round_bounds x :
  (x - (1 # 2) < inject_Z (Math_round x))%Q /\
  (inject_Z (Math_round x) <= x + (1 # 2))%Q.
Proof.
  unfold Math_round. split.
  - pose proof (Qlt_floor (x + (1 # 2))) as H.
    rewrite inject_Z_plus in H. change (inject_Z 1) with 1%Q in H.
    generalize dependent (inject_Z (Qfloor (x + (1 # 2)))).
    intros q H. lra.
  - apply Qfloor_le.
Qed.

Lemma Math_round_nonneg x : (0 <= x)%Q -> 0 <= Math_round x.
Proof.
  intros H. unfold Math_round.
  change 0 with (Qfloor 0). apply Qfloor_resp_le. lra.
Qed.

Lemma toFrames_nonneg seconds fps :
  (0 <= seconds)%Q -> (0 <= fps)%Q -> 0 <= toFrames seconds fps.
Proof.
  intros Hs Hf. apply Math_round_nonneg. now apply Qmult_le_0_compat.
Qed.

(** ** Duration resolver *)

Lemma getTrackDuration_no_table ref : getTrackDuration None ref = 180%Q.
Proof. reflexivity. Qed.


(** *** Lookups that follow the prototype chain *)




(** No inherited name starts with a slash. *)
Lemma inherited_slash rest : inherited (String "/" rest) = false.
Proof. reflexivity. Qed.

Lemma startsWith_assets_slash ref :
  startsWith ref "/assets/" = true -> exists rest, ref = String "/" rest.
Proof.
  unfold startsWith. destruct ref as [|a rest]; cbn [String.prefix];
    [discriminate|].
  destruct (Ascii.ascii_dec "/" a) as [<-|]; [|discriminate].
  intros _. now exists rest.
Qed.

Lemma inherited_startsWith ref :
  startsWith ref "/assets/" = true -> inherited ref = false.
Proof.
  intros H. destruct (startsWith_assets_slash ref H) as [rest ->].
  apply inherited_slash.
Qed.

Lemma inherited_withAssetsPrefix ref : inherited (withAssetsPrefix ref) = false.
Proof.
  unfold withAssetsPrefix. destruct (startsWith ref "/assets/") eqn:E.
  - now apply inherited_startsWith.
  - reflexivity.
Qed.


(** Where the resolver on the parsed artifact returns a number, it is the
    number of the resolver on the table of numbers. *)
Lemma getTrackDuration_js_number ad ref q :
  getTrackDuration_js ad ref = JsNumber q -> getTrackDuration ad ref = q.
Proof.
  unfold getTrackDuration_js, getTrackDuration.
  destruct ad as [a|]; [|now intros [= <-]].
  destruct (trackDurations a) as [td|]; [|now intros [= <-]].
  cbv zeta. fold (withAssetsPrefix ref). fold (withoutAssetsPrefix ref).
  assert (Hstep : forall key (rest_js : JsValue) (rest : Q),
    (rest_js = JsNumber q -> rest = q) ->
    (if js_truthy (js_get td key) then js_get td key else rest_js) = JsNumber q ->
    (if truthy (td !! key) then number (td !! key) else rest) = q).
  { intros key rest_js rest Hrest. unfold js_get.
    destruct (td !! key) as [v|]; simpl.
    - destruct (negb (Qeq_bool v 0)); [now intros [= <-]|exact Hrest].
    - destruct (inherited key); simpl; [discriminate|exact Hrest]. }
  apply Hstep. apply Hstep. apply Hstep. now intros [= <-].
Qed.

Lemma getVideoDuration_js_number table ref q :
  getVideoDuration_js (Some {| videoDurationsTable := Some table |}) ref
  = JsReturn (JsNumber q) ->
  getVideoDuration (Some {| videoDurations := table |}) ref = q.
Proof.
  unfold getVideoDuration_js, getVideoDuration, js_get. simpl.
  destruct (table !! ref) as [v|]; simpl.
  - destruct (negb (Qeq_bool v 0)); now intros [= <-].
  - destruct (inherited ref); simpl; [discriminate|now intros [= <-]].
Qed.







Lemma in_range_test c n :
  0 <= c < Z.of_nat n -> (c <? 0) || (c >=? Z.of_nat n) = false.
Proof.
  intros H. apply orb_false_iff.
  split; [apply Z.ltb_ge|rewrite Z.geb_leb; apply Z.leb_gt]; lia.
Qed.

Lemma out_of_range_test c n :
  c < 0 \/ Z.of_nat n <= c -> (c <? 0) || (c >=? Z.of_nat n) = true.
Proof.
  intros H. apply orb_true_iff.
  destruct H; [left; apply Z.ltb_lt|right; rewrite Z.geb_leb; apply Z.leb_le]; lia.
Qed.

Lemma getChapterDuration_precalculated chs ad c d :
  0 <= c < Z.of_nat (List.length chs) ->
  js_index (chapterDurations ad) c = Some d ->
  getChapterDuration chs (Some ad) c = d.
Proof.
  intros Hc Hd. unfold getChapterDuration.
  rewrite (in_range_test _ _ Hc), Hd. reflexivity.
Qed.

Lemma getChapterDuration_out_of_range chs ad c :
  c < 0 \/ Z.of_nat (List.length chs) <= c ->
  getChapterDuration chs ad c = 0%Q.
Proof.
  intros Hc. unfold getChapterDuration.
  now rewrite (out_of_range_test _ _ Hc).
Qed.

(** ** The boundary table *)

Section Boundaries.

Variable chs : list Chapter.
Variable ad : option AudioDurationsData.

Abbreviation dur := (getChapterDuration chs ad).
Abbreviation sumDur := (sumChapterDurations chs ad).
Abbreviation boundaries_loop := (getChapterBoundaries_loop chs ad).

(** The running sum, unfolded at its last summand. *)
Lemma sumChapterDurations_snoc k i t :
  sumDur (S k) i t = (sumDur k i t + dur (i + Z.of_nat k))%Q.
Proof.
  revert i t. induction k as [|k IH]; intros i t.
  - simpl. now rewrite Z.add_0_r.
  - change (sumDur (S (S k)) i t) with (sumDur (S k) (i + 1) (t + dur i)%Q).
    rewrite IH.
    replace (i + 1 + Z.of_nat k) with (i + Z.of_nat (S k)) by lia.
    reflexivity.
Qed.

Lemma boundaries_loop_length r i t bs :
  List.length (boundaries_loop r i t bs) = (List.length bs + r)%nat.
Proof.
  revert i t bs. induction r as [|r IH]; intros i t bs; simpl.
  - lia.
  - rewrite IH, length_app. simpl. lia.
Qed.

(** The loop only appends: entries already pushed stay where they are. *)
Lemma boundaries_loop_old r i t bs k :
  (k < List.length bs)%nat ->
  nth_error (boundaries_loop r i t bs) k = nth_error bs k.
Proof.
  revert i t bs. induction r as [|r IH]; intros i t bs Hk; simpl.
  - reflexivity.
  - rewrite IH by (rewrite length_app; simpl; lia).
    now apply nth_error_app1.
Qed.

(** The [j]-th entry pushed is the running sum after [j + 1] chapters. *)
Lemma boundaries_loop_new r i t bs j :
  (j < r)%nat ->
  nth_error (boundaries_loop r i t bs) (List.length bs + j)
  = Some (sumDur (S j) i t).
Proof.
  revert i t bs j. induction r as [|r IH]; intros i t bs j Hj; [lia|].
  simpl. destruct j as [|j].
  - rewrite boundaries_loop_old by (rewrite length_app; simpl; lia).
    rewrite Nat.add_0_r, nth_error_app2 by lia.
    now rewrite Nat.sub_diag.
  - specialize (IH (i + 1) (t + dur i)%Q (bs ++ [(t + dur i)%Q])%list j).
    rewrite length_app in IH. simpl in IH.
    replace (List.length bs + S j)%nat with (List.length bs + 1 + j)%nat by lia.
    apply IH. lia.
Qed.

Lemma getChapterBoundaries_length :
  List.length (getChapterBoundaries chs ad) = S (List.length chs).
Proof.
  unfold getChapterBoundaries. rewrite boundaries_loop_length. reflexivity.
Qed.

(** [boundaries[k]] is the sum of the durations of chapters [0 .. k-1]. *)
Lemma getChapterBoundaries_lookup k :
  (k <= List.length chs)%nat ->
  nth_error (getChapterBoundaries chs ad) k = Some (sumDur k 0 0%Q).
Proof.
  intros Hk. unfold getChapterBoundaries. destruct k as [|k].
  - now rewrite boundaries_loop_old by (simpl; lia).
  - apply (boundaries_loop_new (List.length chs) 0 0%Q [0%Q] k). lia.
Qed.

Lemma getChapterStartTime_prefix_sum k :
  (k <= List.length chs)%nat ->
  (getChapterStartTime chs ad (Z.of_nat k) == sumDur k 0 0%Q)%Q.
Proof.
  intros Hk. unfold getChapterStartTime.
  rewrite js_index_nat, getChapterBoundaries_lookup by assumption.
  apply or_zero_Some.
Qed.

Lemma getChapterStartTime_outside c :
  c < 0 \/ Z.of_nat (List.length chs) < c ->
  getChapterStartTime chs ad c = 0%Q.
Proof.
  intros Hc. unfold getChapterStartTime.
  destruct Hc as [Hc|Hc].
  - now rewrite js_index_neg.
  - rewrite js_index_ge; [reflexivity|].
    rewrite getChapterBoundaries_length. lia.
Qed.

Lemma getChapterStartTime_step k :
  (k < List.length chs)%nat ->
  (getChapterStartTime chs ad (Z.of_nat k + 1)
   == getChapterStartTime chs ad (Z.of_nat k) + dur (Z.of_nat k))%Q.
Proof.
  intros Hk.
  replace (Z.of_nat k + 1) with (Z.of_nat (S k)) by lia.
  rewrite !getChapterStartTime_prefix_sum by lia.
  rewrite sumChapterDurations_snoc. now rewrite Z.add_0_l.
Qed.

(** The start of the last chapter plus its duration is the derived sum. *)
Lemma last_boundary_sum :
  let lastChapter := Z.of_nat (List.length chs) - 1 in
  (getChapterStartTime chs ad lastChapter + dur lastChapter
   == sumDur (List.length chs) 0 0%Q)%Q.
Proof.
  cbv zeta. destruct (List.length chs) as [|n] eqn:E.
  - rewrite getChapterStartTime_outside by (rewrite E; simpl; lia).
    rewrite getChapterDuration_out_of_range by (rewrite E; simpl; lia).
    simpl. lra.
  - replace (Z.of_nat (S n) - 1) with (Z.of_nat n) by lia.
    rewrite getChapterStartTime_prefix_sum by lia.
    rewrite sumChapterDurations_snoc. now rewrite Z.add_0_l.
Qed.

End Boundaries.

(** ** Claims on the duration resolver and the boundary table *)

(** Closes a comparison between concrete rationals. *)
Ltac q_concrete := vm_compute; solve [reflexivity | congruence].



(** Three lookups that meet an inherited name.  A zero entry under
    ["/assets/constructor"] sends the resolver on to the stripped name,
    which the table inherits; a zero entry under ["constructor"] hides the
    inherited member, so that the fallback is returned, and deleting it
    brings the member back; and with a non-zero entry under
    ["/assets/constructor"] the two spellings resolve differently. *)
Example zero_entry_then_inherited_name :
  getTrackDuration_js
    (Some {| trackDurations := Some {["/assets/constructor" := 0%Q]};
             chapterDurations := []; totalDuration := None |})
    "/assets/constructor" = JsInherited "constructor".
Proof. reflexivity. Qed.

Example zero_entry_hides_inherited_name :
  getTrackDuration_js
    (Some {| trackDurations := Some {["constructor" := 0%Q]};
             chapterDurations := []; totalDuration := None |})
    "constructor" = JsNumber 180 /\
  getTrackDuration_js
    (Some {| trackDurations := Some (delete "constructor"
                                       {["constructor" := 0%Q]});
             chapterDurations := []; totalDuration := None |})
    "constructor" = JsInherited "constructor".
Proof. split; reflexivity. Qed.

Example inherited_name_and_its_prefixed_entry :
  getTrackDuration_js
    (Some {| trackDurations := Some {["/assets/constructor" := 5%Q]};
             chapterDurations := []; totalDuration := None |})
    "constructor" = JsInherited "constructor" /\
  getTrackDuration_js
    (Some {| trackDurations := Some {["/assets/constructor" := 5%Q]};
             chapterDurations := []; totalDuration := None |})
    "/assets/constructor" = JsNumber 5.
Proof. split; reflexivity. Qed.




(** C4: the boundary table is the prefix sum of the chapter durations:
    for every chapter index [c] in range,
    [getChapterStartTime(c+1) = getChapterStartTime(c) + getChapterDuration(c)],
    and [getChapterStartTime(0) = 0]. *)
Theorem chapter_boundary_consistency :
  forall (chs : list Chapter) (ad : option AudioDurationsData) (c : Z),
    0 <= c < Z.of_nat (List.length chs) ->
    (getChapterStartTime chs ad (c + 1)
     == getChapterStartTime chs ad c + getChapterDuration chs ad c)%Q /\
    (getChapterStartTime chs ad 0 == 0)%Q.
Proof.
  intros chs ad c Hc. split.
  - rewrite <- (Z2Nat.id c) by lia.
    apply getChapterStartTime_step. lia.
  - apply (getChapterStartTime_prefix_sum chs ad 0). lia.
Qed.

Lemma chapter_boundary_consistency_witness :
  0 <= 2 < Z.of_nat (List.length CHAPTERS) /\
  (getChapterStartTime CHAPTERS (Some fractionalDurations) (2 + 1)
   == getChapterStartTime CHAPTERS (Some fractionalDurations) 2
      + getChapterDuration CHAPTERS (Some fractionalDurations) 2)%Q.
Proof.
  split; [simpl; lia|].
  apply (chapter_boundary_consistency CHAPTERS (Some fractionalDurations) 2).
  simpl; lia.
Defined.

(** C5, as stated, fails: with a precomputed total of 2000 s that disagrees
    with the chapter durations (1800 s in all), [getTotalDuration] returns
    2000 while the last chapter starts at 1440 s and lasts 360 s. *)
Lemma stale_total_breaks_consistency :
  (getTotalDuration CHAPTERS (Some staleTotalDurations) == 2000)%Q /\
  (getChapterStartTime CHAPTERS (Some staleTotalDurations) (4 - 1)
   + getChapterDuration CHAPTERS (Some staleTotalDurations) (4 - 1)
   == 1800)%Q /\
  ~ (getTotalDuration CHAPTERS (Some staleTotalDurations)
     == getChapterStartTime CHAPTERS (Some staleTotalDurations)
          (Z.of_nat (List.length CHAPTERS) - 1)
        + getChapterDuration CHAPTERS (Some staleTotalDurations)
            (Z.of_nat (List.length CHAPTERS) - 1))%Q.
Proof.
  split; [reflexivity|]. split; [reflexivity|]. q_concrete.
Qed.

(** C5, amended: a precomputed total that is present and non-zero is
    returned as it is; in every other case (no artifact, no total, a total
    of 0) [getTotalDuration] equals the start of the last chapter plus the
    duration of the last chapter. *)
Theorem total_duration_consistency :
  forall (chs : list Chapter) (ad : option AudioDurationsData),
    let lastChapter := Z.of_nat (List.length chs) - 1 in
    let derived := (getChapterStartTime chs ad lastChapter
                    + getChapterDuration chs ad lastChapter)%Q in
    (getTotalDuration chs ad
     == match ad with
        | Some a => if truthy (totalDuration a) then number (totalDuration a)
                    else derived
        | None => derived
        end)%Q.
Proof.
  intros chs ad lastChapter derived.
  pose proof (last_boundary_sum chs ad) as Hsum. cbv zeta in Hsum.
  fold lastChapter in Hsum. fold derived in Hsum.
  unfold getTotalDuration. destruct ad as [a|].
  - destruct (truthy (totalDuration a)); [reflexivity|now symmetry].
  - now symmetry.
Qed.

(** C6, as stated, fails at [chapterIndex = N]: the boundary table has
    [N + 1] entries, the last being the end of the last chapter, so
    [getChapterStartTime(4)] is 1800 on the four configured chapters with
    every track at the fallback, although 4 lies outside [[0, 4)]. *)
Lemma start_time_at_length_not_zero :
  ~ (0 <= 4 < Z.of_nat (List.length CHAPTERS)) /\
  (getChapterStartTime CHAPTERS None 4 == 1800)%Q /\
  ~ (getChapterStartTime CHAPTERS None 4 == 0)%Q.
Proof.
  split; [simpl; lia|]. split; [reflexivity|]. q_concrete.
Qed.

(** C6, amended: for every chapter index outside [[0, N]], that is negative
    or greater than [N], [getChapterStartTime] returns 0; at [N] itself it
    returns the last boundary, the sum of all chapter durations. *)
Theorem chapter_start_time_out_of_range :
  forall (chs : list Chapter) (ad : option AudioDurationsData) (c : Z),
    c < 0 \/ Z.of_nat (List.length chs) <= c ->
    (getChapterStartTime chs ad c
     == if c =? Z.of_nat (List.length chs)
        then sumChapterDurations chs ad (List.length chs) 0 0%Q
        else 0)%Q.
Proof.
  intros chs ad c Hc.
  destruct (Z.eqb_spec c (Z.of_nat (List.length chs))) as [->|Hne].
  - apply getChapterStartTime_prefix_sum. lia.
  - rewrite getChapterStartTime_outside by lia. reflexivity.
Qed.

Lemma chapter_start_time_out_of_range_witness :
  (-1 < 0 \/ Z.of_nat (List.length CHAPTERS) <= -1) /\
  (getChapterStartTime CHAPTERS (Some fractionalDurations) (-1) == 0)%Q.
Proof.
  split; [left; lia|].
  apply (chapter_start_time_out_of_range CHAPTERS (Some fractionalDurations) (-1)).
  left; lia.
Defined.

(** ** Claims on the frame domain *)

(** C8: for non-negative seconds [s] and a positive frame rate, converting
    to frames and back moves [s] by at most one frame's worth of seconds,
    [1 / fps]; [toFrames] rounds to the nearest frame, so the frame count is
    within half a frame of [s * fps]. *)
Theorem frames_seconds_round_trip :
  forall (s fps : Q),
    (0 <= s)%Q -> (0 < fps)%Q ->
    (Qabs (toSeconds (toFrames s fps) fps - s) <= 1 / fps)%Q /\
    (Qabs (inject_Z (toFrames s fps) - s * fps) <= 1 # 2)%Q.
Proof.
  intros s fps Hs Hf. unfold toSeconds, toFrames.
  destruct (Math_round_bounds (s * fps)) as [Hlo Hhi].
  generalize dependent (inject_Z (Math_round (s * fps))). intros f Hlo Hhi.
  split.
  - assert (Hi : (0 < / fps)%Q) by now apply Qinv_lt_0_compat.
    assert (Hs' : (s == (s * fps) * / fps)%Q) by (field; lra).
    unfold Qdiv. apply Qabs_Qle_condition.
    generalize dependent (/ fps)%Q. intros i Hi Hs'.
    generalize dependent (s * fps)%Q. intros x Hlo Hhi Hs'.
    rewrite Hs'. split; nra.
  - apply Qabs_Qle_condition. split; lra.
Qed.

Lemma frames_seconds_round_trip_witness :
  (0 <= 401 # 4)%Q /\ (0 < FPS)%Q /\
  (Qabs (toSeconds (toFrames (401 # 4) FPS) FPS - (401 # 4)) <= 1 / FPS)%Q.
Proof.
  split; [q_concrete|]. split; [q_concrete|].
  apply (frames_seconds_round_trip (401 # 4) FPS); q_concrete.
Defined.

(** C2 fails on the code.  With [fractionalDurations] at 30 fps, chapter 1
    is given the frames from 9008 for 9008 frames, so it ends at 18016, but
    chapter 2 is made to start at 18015: [from] rounds the summed seconds,
    [durationInFrames] rounds each chapter on its own, and the two drift
    apart.  [getGlobalTrackAtFrame], which adds up the rounded chapter
    lengths, still places frame 18015 in chapter 1. *)
Theorem chapter_frame_ranges_do_not_abut :
  from (getChapterFrameRange CHAPTERS (Some fractionalDurations) 1 FPS) = 9008 /\
  durationInFrames
    (getChapterFrameRange CHAPTERS (Some fractionalDurations) 1 FPS) = 9008 /\
  from (getChapterFrameRange CHAPTERS (Some fractionalDurations) 2 FPS) = 18015 /\
  from (getChapterFrameRange CHAPTERS (Some fractionalDurations) (1 + 1) FPS)
  <> from (getChapterFrameRange CHAPTERS (Some fractionalDurations) 1 FPS)
     + durationInFrames
         (getChapterFrameRange CHAPTERS (Some fractionalDurations) 1 FPS) /\
  option_map chapterIndex
    (getGlobalTrackAtFrame CHAPTERS (Some fractionalDurations) 18015 FPS)
  = Some 1.
Proof.
  repeat split; try reflexivity. vm_compute. discriminate.
Qed.

(** ** Walking the tracks of a chapter in frames *)

Section FrameWalk.

Variable chs : list Chapter.
Variable ad : option AudioDurationsData.
Variable fps : Q.

Abbreviation trackFrames t := (toFrames (getTrackDuration ad (audioFile t)) fps).
Abbreviation chapterFrames c := (toFrames (getChapterDuration chs ad c) fps).

(** What the track loop returns: a track of the list, an offset below that
    track's length, and a non-negative one as soon as the frame is not
    before the point the loop starts from. *)
Lemma getCurrentTrackAtFrame_loop_Some ts i acc g r :
  getCurrentTrackAtFrame_loop ad ts i acc g fps = Some r ->
  exists (k : nat) (trk : Track),
    nth_error ts k = Some trk /\
    trackIndex r = i + Z.of_nat k /\
    frameInTrack r < trackFrames trk /\
    (acc <= g -> 0 <= frameInTrack r).
Proof.
  revert i acc. induction ts as [|t rest IH]; intros i acc; simpl; [discriminate|].
  destruct (Z.ltb_spec g (acc + trackFrames t)) as [Hlt|Hge].
  - intros [= <-]. exists 0%nat, t. simpl. repeat split; lia.
  - intros Hr. destruct (IH _ _ Hr) as (k & trk & Hk & Hi & Hlt & Hpos).
    exists (S k), trk. simpl. repeat split; try assumption; [lia|].
    intros _. apply Hpos. lia.
Qed.

Lemma sumTrackFrames_mono ts acc :
  (forall t, 0 <= trackFrames t) -> acc <= sumTrackFrames ad ts acc fps.
Proof.
  intros Hnn. revert acc. induction ts as [|t rest IH]; intros acc; simpl.
  - lia.
  - specialize (IH (acc + trackFrames t)). specialize (Hnn t). lia.
Qed.

(** A frame at or past the end of the tracks falls through the loop. *)
Lemma getCurrentTrackAtFrame_loop_None ts i acc g :
  (forall t, 0 <= trackFrames t) ->
  sumTrackFrames ad ts acc fps <= g ->
  getCurrentTrackAtFrame_loop ad ts i acc g fps = None.
Proof.
  intros Hnn. revert i acc. induction ts as [|t rest IH]; intros i acc; simpl.
  - reflexivity.
  - intros Hg.
    pose proof (sumTrackFrames_mono rest (acc + trackFrames t) Hnn) as Hm.
    destruct (Z.ltb_spec g (acc + trackFrames t)) as [Hlt|Hge]; [lia|].
    now apply IH.
Qed.

Lemma last_track_exists (ts : list Track) :
  ts <> [] ->
  exists lastTrack,
    js_index ts (Z.of_nat (List.length ts) - 1) = Some lastTrack.
Proof.
  intros Hne.
  destruct (js_index ts (Z.of_nat (List.length ts) - 1)) as [t|] eqn:E;
    [now exists t|].
  exfalso. unfold js_index in E.
  assert (Hlen : (0 < List.length ts)%nat)
    by (destruct ts; [congruence|simpl; lia]).
  destruct (Z.ltb_spec (Z.of_nat (List.length ts) - 1) 0) as [|_]; [lia|].
  apply nth_error_None in E. lia.
Qed.

(** [getCurrentTrackAtFrame] unfolded on a chapter that exists. *)
Lemma getCurrentTrackAtFrame_in_range c g ch :
  js_index chs c = Some ch ->
  getCurrentTrackAtFrame chs ad c g fps
  = match getCurrentTrackAtFrame_loop ad (tracks ch) 0 0 g fps with
    | Some r => Some r
    | None =>
      let len := Z.of_nat (List.length (tracks ch)) in
      if len >? 0 then
        match js_index (tracks ch) (len - 1) with
        | Some lastTrack =>
          Some {| trackIndex := len - 1; frameInTrack := trackFrames lastTrack |}
        | None => None
        end
      else None
    end.
Proof.
  intros Hch. unfold getCurrentTrackAtFrame.
  rewrite (in_range_test _ _ (js_index_Some_range _ _ _ Hch)), Hch.
  reflexivity.
Qed.

(** The clamp inside a chapter: a frame at or past the end of the chapter's
    tracks resolves to the last track, at that track's full length. *)
Lemma getCurrentTrackAtFrame_past_tracks c g ch :
  js_index chs c = Some ch -> tracks ch <> [] ->
  (forall t, 0 <= trackFrames t) ->
  sumTrackFrames ad (tracks ch) 0 fps <= g ->
  exists lastTrack,
    js_index (tracks ch) (Z.of_nat (List.length (tracks ch)) - 1)
    = Some lastTrack /\
    getCurrentTrackAtFrame chs ad c g fps
    = Some {| trackIndex := Z.of_nat (List.length (tracks ch)) - 1;
              frameInTrack := trackFrames lastTrack |}.
Proof.
  intros Hch Hne Hnn Hg.
  destruct (last_track_exists (tracks ch) Hne) as [lastTrack Hlast].
  exists lastTrack. split; [assumption|].
  rewrite (getCurrentTrackAtFrame_in_range c g ch Hch).
  rewrite getCurrentTrackAtFrame_loop_None by assumption.
  cbv zeta. rewrite Hlast.
  destruct (Z.gtb_spec (Z.of_nat (List.length (tracks ch))) 0) as [|Hle];
    [reflexivity|].
  destruct (tracks ch); [congruence|simpl in Hle; lia].
Qed.

(** A chapter with a track always resolves to one of its tracks. *)
Lemma getCurrentTrackAtFrame_nonempty c g ch :
  js_index chs c = Some ch -> tracks ch <> [] ->
  getCurrentTrackAtFrame chs ad c g fps <> None.
Proof.
  intros Hch Hne.
  destruct (last_track_exists (tracks ch) Hne) as [lastTrack Hlast].
  rewrite (getCurrentTrackAtFrame_in_range c g ch Hch).
  destruct (getCurrentTrackAtFrame_loop ad (tracks ch) 0 0 g fps); [discriminate|].
  cbv zeta. rewrite Hlast.
  destruct (Z.gtb_spec (Z.of_nat (List.length (tracks ch))) 0) as [|Hle];
    [discriminate|].
  destruct (tracks ch); [congruence|simpl in Hle; lia].
Qed.

(** The result of [getCurrentTrackAtFrame] at a non-negative frame, when the
    last track of the chapter has a non-negative length in frames. *)
Lemma getCurrentTrackAtFrame_Some c g r :
  0 <= g ->
  (forall t, 0 <= trackFrames t) ->
  getCurrentTrackAtFrame chs ad c g fps = Some r ->
  exists ch trk,
    js_index chs c = Some ch /\
    js_index (tracks ch) (trackIndex r) = Some trk /\
    0 <= frameInTrack r <= trackFrames trk.
Proof.
  intros Hg Hnn Hr.
  destruct (js_index chs c) as [ch|] eqn:Hch.
  - rewrite (getCurrentTrackAtFrame_in_range c g ch Hch) in Hr.
    exists ch.
    destruct (getCurrentTrackAtFrame_loop ad (tracks ch) 0 0 g fps) as [r'|] eqn:El.
    + injection Hr as ->.
      destruct (getCurrentTrackAtFrame_loop_Some _ _ _ _ _ El)
        as (k & trk & Hk & Hi & Hlt & Hpos).
      exists trk. split; [reflexivity|]. split.
      * rewrite Hi, Z.add_0_l, js_index_nat. assumption.
      * specialize (Hpos Hg). lia.
    + cbv zeta in Hr.
      destruct (Z.of_nat (List.length (tracks ch)) >? 0); [|discriminate].
      destruct (js_index (tracks ch) (Z.of_nat (List.length (tracks ch)) - 1))
        as [lastTrack|] eqn:Hlast; [|discriminate].
      injection Hr as <-. exists lastTrack. simpl.
      split; [reflexivity|]. split; [assumption|].
      specialize (Hnn lastTrack). lia.
  - exfalso. unfold getCurrentTrackAtFrame in Hr. rewrite Hch in Hr.
    destruct ((c <? 0) || (c >=? Z.of_nat (List.length chs))); discriminate.
Qed.

End FrameWalk.

(** ** Walking the chapters *)

Section ChapterWalk.

Variable chs : list Chapter.
Variable ad : option AudioDurationsData.
Variable fps : Q.

Abbreviation chapterFrames c := (toFrames (getChapterDuration chs ad c) fps).

Lemma chapter_exists c :
  0 <= c < Z.of_nat (List.length chs) -> exists ch, js_index chs c = Some ch.
Proof.
  intros Hc. destruct (js_index chs c) as [ch|] eqn:E; [now exists ch|].
  exfalso. unfold js_index in E.
  destruct (Z.ltb_spec c 0) as [|_]; [lia|].
  apply nth_error_None in E. lia.
Qed.

Lemma chapter_has_track c ch :
  List.Forall (fun ch => tracks ch <> []) chs ->
  js_index chs c = Some ch -> tracks ch <> [].
Proof.
  intros Hall Hch. unfold js_index in Hch.
  destruct (c <? 0); [discriminate|].
  apply nth_error_In in Hch.
  now apply (proj1 (List.Forall_forall _ _) Hall).
Qed.

Lemma sumChapterFrames_mono r i acc :
  (forall c, 0 <= chapterFrames c) -> acc <= sumChapterFrames chs ad r i acc fps.
Proof.
  intros Hnn. revert i acc. induction r as [|r IH]; intros i acc; simpl.
  - lia.
  - specialize (IH (i + 1) (acc + chapterFrames i)). specialize (Hnn i). lia.
Qed.

(** A frame at or past the end of the chapters left to visit makes the
    chapter loop run out: the function returns [null]. *)
Lemma getGlobalTrackAtFrame_loop_None r i acc f :
  (forall c, 0 <= chapterFrames c) ->
  sumChapterFrames chs ad r i acc fps <= f ->
  getGlobalTrackAtFrame_loop chs ad r i acc f fps = None.
Proof.
  intros Hnn. revert i acc. induction r as [|r IH]; intros i acc; simpl.
  - reflexivity.
  - intros Hf.
    pose proof (sumChapterFrames_mono r (i + 1) (acc + chapterFrames i) Hnn) as Hm.
    destruct (Z.ltb_spec f (acc + chapterFrames i)) as [Hlt|Hge]; [lia|].
    now apply IH.
Qed.

(** When every chapter has a track, the chapter loop returns at the first
    chapter that ends after the frame, with a non-negative frame within that
    chapter. *)
Lemma getGlobalTrackAtFrame_loop_Some r i acc f res :
  List.Forall (fun ch => tracks ch <> []) chs ->
  0 <= i -> i + Z.of_nat r <= Z.of_nat (List.length chs) ->
  acc <= f ->
  getGlobalTrackAtFrame_loop chs ad r i acc f fps = Some res ->
  i <= chapterIndex res < i + Z.of_nat r /\
  exists g, 0 <= g /\
    getCurrentTrackAtFrame chs ad (chapterIndex res) g fps = Some (trackInfo res).
Proof.
  intros Hall. revert i acc.
  induction r as [|r IH]; intros i acc Hi Hr Hacc; simpl; [discriminate|].
  destruct (Z.ltb_spec f (acc + chapterFrames i)) as [Hlt|Hge].
  - destruct (getCurrentTrackAtFrame chs ad i (f - acc) fps) as [ti|] eqn:Et.
    + intros [= <-]. simpl. split; [lia|].
      exists (f - acc). split; [lia|assumption].
    + exfalso.
      destruct (chapter_exists i) as [ch Hch]; [lia|].
      apply (getCurrentTrackAtFrame_nonempty chs ad fps i (f - acc) ch Hch);
        [|assumption].
      now apply (chapter_has_track i ch).
  - intros Hres. destruct (IH (i + 1) _ ltac:(lia) ltac:(lia) Hge Hres)
      as [Hrange Hg].
    split; [lia|assumption].
Qed.

(** *** The same walk in seconds *)

Lemma Qltb_false a b : Qltb a b = false <-> (b <= a)%Q.
Proof.
  unfold Qltb. rewrite negb_false_iff. apply Qle_bool_iff.
Qed.

Lemma sumChapterDurations_mono r i acc :
  (forall c, 0 <= getChapterDuration chs ad c)%Q ->
  (acc <= sumChapterDurations chs ad r i acc)%Q.
Proof.
  intros Hnn. revert i acc. induction r as [|r IH]; intros i acc; simpl.
  - lra.
  - specialize (IH (i + 1) (acc + getChapterDuration chs ad i)%Q).
    specialize (Hnn i). lra.
Qed.

Lemma getCurrentAudioTrack_loop_None r i acc p :
  (forall c, 0 <= getChapterDuration chs ad c)%Q ->
  (sumChapterDurations chs ad r i acc <= p)%Q ->
  App.getCurrentAudioTrack_loop chs ad r i acc p = None.
Proof.
  intros Hnn. revert i acc. induction r as [|r IH]; intros i acc; simpl.
  - reflexivity.
  - intros Hp.
    pose proof (sumChapterDurations_mono r (i + 1)
                  (acc + getChapterDuration chs ad i)%Q Hnn) as Hm.
    assert (Hf : Qltb p (acc + getChapterDuration chs ad i) = false)
      by (apply Qltb_false; lra).
    rewrite Hf. now apply IH.
Qed.

Lemma chapterFrames_nonneg :
  (0 <= fps)%Q -> (forall c, 0 <= getChapterDuration chs ad c)%Q ->
  forall c, 0 <= chapterFrames c.
Proof. intros Hf Hnn c. now apply toFrames_nonneg. Qed.

Lemma trackFrames_nonneg :
  (0 <= fps)%Q -> (forall ref, 0 <= getTrackDuration ad ref)%Q ->
  forall t, 0 <= toFrames (getTrackDuration ad (audioFile t)) fps.
Proof. intros Hf Hnn t. now apply toFrames_nonneg. Qed.

End ChapterWalk.

(** ** Non-negative tables *)

Lemma sumTrackDurations_nonneg ad ts :
  (forall ref, 0 <= getTrackDuration ad ref)%Q ->
  (0 <= sumTrackDurations ad ts)%Q.
Proof.
  intros Hnn. unfold sumTrackDurations.
  assert (H : forall acc, (0 <= acc)%Q ->
    (0 <= fold_left (fun sum track =>
                       (sum + getTrackDuration ad (audioFile track))%Q) ts acc)%Q).
  { induction ts as [|t rest IH]; intros acc Hacc; simpl; [assumption|].
    apply IH. specialize (Hnn (audioFile t)). lra. }
  apply H. lra.
Qed.

(** Without precomputed chapter durations, chapter durations are sums of
    track durations, hence non-negative when those are. *)
Lemma getChapterDuration_nonneg chs ad :
  (forall ref, 0 <= getTrackDuration ad ref)%Q ->
  (forall a, ad = Some a -> chapterDurations a = []) ->
  forall c, (0 <= getChapterDuration chs ad c)%Q.
Proof.
  intros Hnn Hcd c. unfold getChapterDuration.
  destruct ((c <? 0) || (c >=? Z.of_nat (List.length chs))); [lra|].
  assert (Hpre : match ad with
                 | Some a => js_index (chapterDurations a) c
                 | None => None
                 end = None).
  { destruct ad as [a|]; [|reflexivity].
    rewrite (Hcd a eq_refl). unfold js_index.
    destruct (c <? 0); [reflexivity|]. now destruct (Z.to_nat c). }
  rewrite Hpre.
  destruct (js_index chs c); [now apply sumTrackDurations_nonneg|lra].
Qed.

Lemma fallback_nonneg ref : (0 <= getTrackDuration None ref)%Q.
Proof. rewrite getTrackDuration_no_table. q_concrete. Qed.

Lemma fallback_chapters_nonneg chs c : (0 <= getChapterDuration chs None c)%Q.
Proof.
  apply getChapterDuration_nonneg; [apply fallback_nonneg|discriminate].
Qed.

Lemma CHAPTERS_have_tracks : List.Forall (fun ch => tracks ch <> []) CHAPTERS.
Proof. repeat constructor; discriminate. Qed.

(** ** Claims on the time-to-position mapping *)

(** C1, as stated, fails: with every track at the 180 s fallback the total
    is 1800 s, that is 54000 frames, and at exactly that position both
    mappings return [null], not the last track of the last chapter. *)
Lemma no_track_at_total_duration :
  (getTotalDuration CHAPTERS None == 1800)%Q /\
  getTotalFrames CHAPTERS None FPS = 54000 /\
  getGlobalTrackAtFrame CHAPTERS None 54000 FPS = None /\
  App.getCurrentAudioTrack CHAPTERS None 1800 = None.
Proof. repeat split; reflexivity. Qed.

(** C1, amended: for a table with non-negative durations and a non-negative
    frame rate, a global position at or beyond the end of the last chapter
    (the sum of the chapters' frame counts in frames, the sum of the chapter
    durations in seconds) resolves to no track: [getGlobalTrackAtFrame] and
    [getCurrentAudioTrack] return [null].  The clamp to the last track, with
    the offset equal to that track's own length, is the one made inside a
    chapter: [getCurrentTrackAtFrame] returns it for a frame at or beyond the
    end of the tracks of a chapter that has tracks. *)
Theorem past_the_end_resolves_to_no_track :
  forall (chs : list Chapter) (ad : option AudioDurationsData) (fps : Q)
         (f : Z) (p : Q) (c g : Z) (ch : Chapter),
    (0 <= fps)%Q ->
    (forall k, 0 <= getChapterDuration chs ad k)%Q ->
    (forall ref, 0 <= getTrackDuration ad ref)%Q ->
    sumChapterFrames chs ad (List.length chs) 0 0 fps <= f ->
    (sumChapterDurations chs ad (List.length chs) 0 0 <= p)%Q ->
    js_index chs c = Some ch -> tracks ch <> [] ->
    sumTrackFrames ad (tracks ch) 0 fps <= g ->
    getGlobalTrackAtFrame chs ad f fps = None /\
    App.getCurrentAudioTrack chs ad p = None /\
    exists lastTrack,
      js_index (tracks ch) (Z.of_nat (List.length (tracks ch)) - 1)
      = Some lastTrack /\
      getCurrentTrackAtFrame chs ad c g fps
      = Some {| trackIndex := Z.of_nat (List.length (tracks ch)) - 1;
                frameInTrack :=
                  toFrames (getTrackDuration ad (audioFile lastTrack)) fps |}.
Proof.
  intros chs ad fps f p c g ch Hfps Hcd Htd Hf Hp Hch Hne Hg.
  split; [|split].
  - apply getGlobalTrackAtFrame_loop_None; [|assumption].
    now apply chapterFrames_nonneg.
  - now apply getCurrentAudioTrack_loop_None.
  - apply getCurrentTrackAtFrame_past_tracks; try assumption.
    now apply (trackFrames_nonneg ad fps).
Qed.

Lemma past_the_end_resolves_to_no_track_witness :
  getGlobalTrackAtFrame CHAPTERS None 60000 FPS = None /\
  App.getCurrentAudioTrack CHAPTERS None 2000 = None /\
  exists lastTrack,
    js_index [ {| audioFile := "a_04_01.mp3" |};
               {| audioFile := "a_04_02.mp3" |} ] (2 - 1) = Some lastTrack /\
    getCurrentTrackAtFrame CHAPTERS None 3 10800 FPS
    = Some {| trackIndex := 2 - 1;
              frameInTrack :=
                toFrames (getTrackDuration None (audioFile lastTrack)) FPS |}.
Proof.
  apply (past_the_end_resolves_to_no_track CHAPTERS None FPS 60000 2000 3 10800
           {| id := 4; title := "Movement IV: White Oblivion";
              video := "04.mp4";
              tracks := [ {| audioFile := "a_04_01.mp3" |};
                          {| audioFile := "a_04_02.mp3" |} ] |}).
  - q_concrete.
  - apply fallback_chapters_nonneg.
  - apply fallback_nonneg.
  - vm_compute. congruence.
  - q_concrete.
  - reflexivity.
  - discriminate.
  - vm_compute. congruence.
Defined.

(** C3, as stated, fails: nothing keeps a table from holding a negative
    duration.  With -1 s for the last track of chapter 0 and 1000 s
    precomputed for the chapter, frame 20000 lies in chapter 0 past its
    three tracks, and the clamp returns the last track at offset -30. *)
Lemma negative_entry_gives_negative_offset :
  List.Forall (fun ch => tracks ch <> []) CHAPTERS /\
  0 <= 20000 /\
  exists r,
    getGlobalTrackAtFrame CHAPTERS (Some negativeEntryDurations) 20000 FPS
    = Some r /\
    chapterIndex r = 0 /\ trackIndex r = 2 /\ frameInTrack r = -30 /\
    ~ (0 <= frameInTrack r).
Proof.
  split; [apply CHAPTERS_have_tracks|]. split; [lia|].
  exists {| chapterIndex := 0;
            trackInfo := {| trackIndex := 2; frameInTrack := -30 |} |}.
  split; [reflexivity|]. simpl. repeat split; lia.
Qed.

(** C3, amended: for a non-negative frame, a table whose track durations are
    non-negative and a non-negative frame rate, when every chapter has at
    least one track, a result of [getGlobalTrackAtFrame] is in range: the
    chapter index designates a chapter, the track index a track of that
    chapter, and the offset lies between 0 and that track's length in
    frames. *)
Theorem global_track_at_frame_in_range :
  forall (chs : list Chapter) (ad : option AudioDurationsData)
         (f : Z) (fps : Q) (r : GlobalTrackAtFrame),
    0 <= f -> (0 <= fps)%Q ->
    List.Forall (fun ch => tracks ch <> []) chs ->
    (forall ref, 0 <= getTrackDuration ad ref)%Q ->
    getGlobalTrackAtFrame chs ad f fps = Some r ->
    0 <= chapterIndex r < Z.of_nat (List.length chs) /\
    exists ch trk,
      js_index chs (chapterIndex r) = Some ch /\
      0 <= trackIndex r < Z.of_nat (List.length (tracks ch)) /\
      js_index (tracks ch) (trackIndex r) = Some trk /\
      0 <= frameInTrack r
        <= toFrames (getTrackDuration ad (audioFile trk)) fps.
Proof.
  intros chs ad f fps r Hf Hfps Hall Hnn Hr.
  unfold getGlobalTrackAtFrame in Hr.
  apply getGlobalTrackAtFrame_loop_Some in Hr; try assumption; try lia.
  destruct Hr as [Hrange (g & Hg & Hti)]. split; [lia|].
  apply getCurrentTrackAtFrame_Some in Hti;
    [|assumption|now apply (trackFrames_nonneg ad fps)].
  destruct Hti as (ch & trk & Hch & Htrk & Hoff).
  exists ch, trk. repeat split; try assumption;
    try apply (js_index_Some_range _ _ _ Htrk); lia.
Qed.

Lemma global_track_at_frame_in_range_witness :
  0 <= 2 < Z.of_nat (List.length CHAPTERS) /\
  exists ch trk,
    js_index CHAPTERS 2 = Some ch /\
    0 <= 1 < Z.of_nat (List.length (tracks ch)) /\
    js_index (tracks ch) 1 = Some trk /\
    0 <= 5200 <= toFrames (getTrackDuration None (audioFile trk)) FPS.
Proof.
  apply (global_track_at_frame_in_range CHAPTERS None 43000 FPS
           {| chapterIndex := 2;
              trackInfo := {| trackIndex := 1; frameInTrack := 5200 |} |}).
  - lia.
  - q_concrete.
  - apply CHAPTERS_have_tracks.
  - apply fallback_nonneg.
  - reflexivity.
Defined.

(** ** The seek handler *)

Section Seek.

Variable chs : list Chapter.
Variable ad : option AudioDurationsData.

Lemma skipn_nth_error {A} (l : list A) n x :
  nth_error l n = Some x -> skipn n l = x :: skipn (S n) l.
Proof.
  revert l. induction n as [|n IH]; intros [|y l]; simpl; try discriminate.
  - now intros [= ->].
  - intros H. now apply IH.
Qed.

(** The loop of [handleSeek] adds up what [getTrackStartTime] adds up. *)
Lemma handleSeek_loop_start_time c ch rem i acc :
  js_index chs c = Some ch ->
  0 <= i -> i + Z.of_nat rem <= Z.of_nat (List.length (tracks ch)) ->
  App.handleSeek_loop chs ad c rem i acc
  = Some (getTrackStartTime_loop ad (skipn (Z.to_nat i) (tracks ch)) i
            (i + Z.of_nat rem) acc).
Proof.
  intros Hch. revert i acc. induction rem as [|rem IH]; intros i acc Hi Hle.
  - simpl. rewrite Z.add_0_r.
    destruct (skipn (Z.to_nat i) (tracks ch)); simpl; [reflexivity|].
    now rewrite Z.ltb_irrefl.
  - simpl App.handleSeek_loop. unfold App.trackAt. rewrite Hch.
    destruct (nth_error (tracks ch) (Z.to_nat i)) as [t|] eqn:Et.
    + assert (Hix : js_index (tracks ch) i = Some t).
      { unfold js_index. destruct (Z.ltb_spec i 0); [lia|assumption]. }
      rewrite Hix, (skipn_nth_error _ _ _ Et). simpl getTrackStartTime_loop.
      destruct (Z.ltb_spec i (i + Z.of_nat (S rem))) as [_|]; [|lia].
      rewrite IH by lia.
      replace (Z.to_nat (i + 1)) with (S (Z.to_nat i)) by lia.
      replace (i + 1 + Z.of_nat rem) with (i + Z.of_nat (S rem)) by lia.
      reflexivity.
    + apply nth_error_None in Et. lia.
Qed.

Lemma handleSeek_loop_is_getTrackStartTime c t trk :
  App.trackAt chs c t = Some trk ->
  App.handleSeek_loop chs ad c (Z.to_nat t) 0 0%Q
  = Some (getTrackStartTime chs ad c t).
Proof.
  unfold App.trackAt. destruct (js_index chs c) as [ch|] eqn:Hch; [|discriminate].
  intros Ht. pose proof (js_index_Some_range _ _ _ Ht) as Hr.
  rewrite (handleSeek_loop_start_time c ch) by (assumption || lia).
  unfold getTrackStartTime.
  rewrite (in_range_test _ _ (js_index_Some_range _ _ _ Hch)), Hch.
  simpl skipn. now rewrite Z.add_0_l, Z2Nat.id by lia.
Qed.

End Seek.

(** C9: when the clamped target of a seek resolves to the pair
    [(chapterIndex, trackIndex)] that is currently loaded, [handleSeek]
    leaves the audio source, the play state, the current chapter index, the
    current track index and the loaded-track record as they were: nothing is
    reloaded.  When the player is started and the track exists, the handler
    returns after setting the audio position to the offset of the target
    within that track (clamped to the track) and the published progress to
    the clamped target; besides these two it only restamps the wall-clock
    reference [chapterStartTimeRef] with the current time. *)
Theorem handleSeek_same_track_no_reload :
  forall (chs : list Chapter) (ad : option AudioDurationsData)
         (st : App.State) (targetProgress : Q) (now : Z) (playStarts : bool)
         (c t : Z),
    let clamped := Qmax 0 (Qmin targetProgress (getTotalDuration chs ad)) in
    App.getCurrentAudioTrack chs ad clamped
    = Some {| App.chapterIndex := c; App.trackIndex := t |} ->
    App.currentAudioIndexRef st
    = Some {| App.chapterIndex := c; App.trackIndex := t |} ->
    let st' := App.final (App.handleSeek chs ad st targetProgress now playStarts) in
    option_map App.src (App.audioRef st') = option_map App.src (App.audioRef st) /\
    option_map App.paused (App.audioRef st')
    = option_map App.paused (App.audioRef st) /\
    App.currentChapterIndex st' = App.currentChapterIndex st /\
    App.currentTrackIndex st' = App.currentTrackIndex st /\
    App.currentAudioIndexRef st' = App.currentAudioIndexRef st /\
    (forall audio trk,
        App.audioRef st = Some audio -> App.isAudioStarted st = true ->
        App.trackAt chs c t = Some trk ->
        App.handleSeek chs ad st targetProgress now playStarts = App.Returned st' /\
        option_map App.currentTime (App.audioRef st')
        = Some (Qmax 0
                  (Qmin (clamped - getChapterStartTime chs ad c
                         - getTrackStartTime chs ad c t)
                        (getTrackDuration ad (audioFile trk)))) /\
        App.currentProgress st' = clamped /\
        App.chapterStartTimeRef st' = now /\
        App.isAudioStarted st' = App.isAudioStarted st).
Proof.
  intros chs ad st targetProgress now playStarts c t clamped Hres Hcur st'.
  subst st'. unfold App.handleSeek. fold clamped.
  destruct (App.audioRef st) as [audio|] eqn:Haudio.
  2:{ simpl. rewrite Haudio. do 5 (split; [first [reflexivity | congruence]|]).
      intros ? ? [=]. }
  destruct (App.isAudioStarted st) eqn:Hstarted; simpl negb; cbv iota.
  2:{ simpl. rewrite Haudio. do 5 (split; [first [reflexivity | congruence]|]).
      intros ? ? _ [=]. }
  rewrite Hres. cbv zeta. simpl App.chapterIndex. simpl App.trackIndex.
  rewrite Hcur. simpl App.chapterIndex. simpl App.trackIndex.
  rewrite !Z.eqb_refl. simpl orb. cbv iota.
  destruct (App.trackAt chs c t) as [trk|] eqn:Htrk.
  - rewrite (handleSeek_loop_is_getTrackStartTime chs ad c t trk Htrk).
    simpl. do 5 (split; [first [reflexivity | congruence]|]).
    intros audio' trk' _ _ [= <-]. repeat split; first [reflexivity | congruence].
  - destruct (App.handleSeek_loop chs ad c (Z.to_nat t) 0 0%Q);
      simpl; rewrite Haudio; do 5 (split; [first [reflexivity | congruence]|]);
      intros ? ? _ _ [=].
Qed.

Lemma handleSeek_same_track_no_reload_witness :
  option_map App.src
    (App.audioRef
       (App.final (App.handleSeek CHAPTERS None playingSecondTrack 200%Q 2000 true)))
  = Some "a_01_02.mp3" /\
  App.currentAudioIndexRef
    (App.final (App.handleSeek CHAPTERS None playingSecondTrack 200%Q 2000 true))
  = Some {| App.chapterIndex := 0; App.trackIndex := 1 |}.
Proof.
  destruct (handleSeek_same_track_no_reload CHAPTERS None playingSecondTrack
              200%Q 2000 true 0 1)
    as (Hsrc & _ & _ & _ & Href & _); [reflexivity|reflexivity|].
  split; [exact Hsrc|exact Href].
Defined.

(** * Further properties of the timing code *)

(** ** The duration resolver *)

Lemma truthy_true_inv v :
  truthy v = true -> exists q, v = Some q /\ ~ (q == 0)%Q.
Proof.
  destruct v as [q|]; simpl; [|discriminate].
  intros H. exists q. split; [reflexivity|].
  intros Hq. apply Qeq_bool_iff in Hq. rewrite Hq in H. discriminate.
Qed.

Lemma truthy_number_nonzero v : truthy v = true -> ~ (number v == 0)%Q.
Proof.
  intros H. destruct (truthy_true_inv v H) as (q & -> & Hq). exact Hq.
Qed.

(** What [getTrackDuration] returns: the fallback, or a non-zero entry of
    the table. *)
Lemma getTrackDuration_cases ad ref :
  getTrackDuration ad ref = 180%Q \/
  exists a td key q,
    ad = Some a /\ trackDurations a = Some td /\ td !! key = Some q /\
    ~ (q == 0)%Q /\ getTrackDuration ad ref = q.
Proof.
  unfold getTrackDuration.
  destruct ad as [a|]; [|now left].
  destruct (trackDurations a) as [td|] eqn:Etd; [|now left].
  assert (Hpick : forall key,
    truthy (td !! key) = true ->
    exists a' td' key' q,
      Some a = Some a' /\ trackDurations a' = Some td' /\
      td' !! key' = Some q /\ ~ (q == 0)%Q /\ number (td !! key) = q).
  { intros key Hk. destruct (truthy_true_inv _ Hk) as (q & Hq & Hnz).
    exists a, td, key, q. rewrite Hq. auto. }
  destruct (truthy (td !! ref)) eqn:E1; [right; now apply Hpick|].
  cbv zeta.
  destruct (truthy (td !! (if startsWith ref "/assets/" then ref
                           else String.append "/assets/" ref))) eqn:E2;
    [right; now apply Hpick|].
  destruct (truthy (td !! (if startsWith ref "/assets/"
                           then js_replace ref "/assets/" "" else ref))) eqn:E3;
    [right; now apply Hpick|now left].
Qed.

(** X1: the resolvers never return 0, whatever the tables hold: a looked-up
    value is returned only when it is truthy, and the fallbacks are 180 and
    30. *)
Theorem durations_never_zero :
  forall (ad : option AudioDurationsData) (vd : option VideoDurationsData)
         (ref : string),
    ~ (getTrackDuration ad ref == 0)%Q /\ ~ (getVideoDuration vd ref == 0)%Q.
Proof.
  intros ad vd ref. split.
  - destruct (getTrackDuration_cases ad ref) as [->|(a & td & key & q & _ & _ & _ & Hq & ->)];
      [q_concrete|exact Hq].
  - unfold getVideoDuration. destruct vd as [v|]; [|q_concrete].
    destruct (truthy (videoDurations v !! ref)) eqn:E; [|q_concrete].
    now apply truthy_number_nonzero.
Qed.

(** A table without negative entries resolves to positive durations. *)
Lemma getTrackDuration_pos :
  forall (td : gmap string Q) (cds : list Q) (tot : option Q) (ref : string),
    (forall key q, td !! key = Some q -> (0 <= q)%Q) ->
    (0 < getTrackDuration
           (Some {| trackDurations := Some td; chapterDurations := cds;
                    totalDuration := tot |}) ref)%Q.
Proof.
  intros td cds tot ref Hnn.
  destruct (getTrackDuration_cases
              (Some {| trackDurations := Some td; chapterDurations := cds;
                       totalDuration := tot |}) ref)
    as [->|(a & td' & key & q & [= <-] & [= <-] & Hk & Hq & ->)];
    [q_concrete|].
  specialize (Hnn key q Hk).
  destruct (Qlt_le_dec 0 q) as [|Hle]; [assumption|].
  exfalso. apply Hq. lra.
Qed.

(** What [getTrackDuration] returns on the parsed artifact: the fallback, or
    a truthy lookup under the reference or one of its two spellings. *)
Lemma getTrackDuration_js_cases ad ref :
  getTrackDuration_js ad ref = JsNumber 180 \/
  exists a td key,
    ad = Some a /\ trackDurations a = Some td /\
    (key = ref \/ key = withAssetsPrefix ref \/ key = withoutAssetsPrefix ref) /\
    js_truthy (js_get td key) = true /\
    getTrackDuration_js ad ref = js_get td key.
Proof.
  unfold getTrackDuration_js.
  destruct ad as [a|]; [|now left].
  destruct (trackDurations a) as [td|] eqn:Etd; [|now left].
  destruct (js_truthy (js_get td ref)) eqn:E1;
    [right; exists a, td, ref; auto|].
  destruct (js_truthy (js_get td (withAssetsPrefix ref))) eqn:E2;
    [right; exists a, td, (withAssetsPrefix ref); auto 6|].
  destruct (js_truthy (js_get td (withoutAssetsPrefix ref))) eqn:E3;
    [right; exists a, td, (withoutAssetsPrefix ref); auto 6|now left].
Qed.

(** On a table without negative entries the resolver returns a positive
    number, or else a member the table inherits under the name of the
    reference. *)
Lemma getTrackDuration_js_pos :
  forall (td : gmap string Q) (cds : list Q) (tot : option Q) (ref : string),
    (forall key q, td !! key = Some q -> (0 <= q)%Q) ->
    match getTrackDuration_js
            (Some {| trackDurations := Some td; chapterDurations := cds;
                     totalDuration := tot |}) ref with
    | JsNumber q => (0 < q)%Q
    | JsInherited name =>
      inherited name = true /\ td !! name = None /\
      (name = ref \/ name = withoutAssetsPrefix ref)
    | JsUndefined => False
    end.
Proof.
  intros td cds tot ref Hnn.
  destruct (getTrackDuration_js_cases
              (Some {| trackDurations := Some td; chapterDurations := cds;
                       totalDuration := tot |}) ref)
    as [->|(a & td' & key & [= <-] & [= <-] & Hkey & Ht & ->)];
    [q_concrete|].
  unfold js_get in Ht |- *.
  destruct (td !! key) as [q|] eqn:Hk.
  - specialize (Hnn key q Hk). simpl in Ht.
    destruct (Qlt_le_dec 0 q) as [|Hle]; [assumption|].
    assert (Hq : (q == 0)%Q) by lra.
    apply Qeq_bool_iff in Hq. rewrite Hq in Ht. discriminate.
  - destruct (inherited key) eqn:Hi; [|discriminate].
    split; [assumption|]. split; [assumption|].
    destruct Hkey as [->| [->| ->]]; [now left| |now right].
    now rewrite inherited_withAssetsPrefix in Hi.
Qed.

(** X2: on a track table without negative entries, a track duration is
    never resolved to zero or to a negative number: for every reference
    [getTrackDuration] returns a positive number, except that a reference
    which names a member inherited from [Object.prototype] (as it is, or
    once a leading ["/assets/"] is removed) and finds no non-zero entry
    before it is resolved to that member. *)
Theorem getTrackDuration_positive :
  forall (td : gmap string Q) (cds : list Q) (tot : option Q) (ref : string),
    (forall key q, td !! key = Some q -> (0 <= q)%Q) ->
    match getTrackDuration_js
            (Some {| trackDurations := Some td; chapterDurations := cds;
                     totalDuration := tot |}) ref with
    | JsNumber q => (0 < q)%Q
    | JsInherited name =>
      inherited name = true /\ td !! name = None /\
      (name = ref \/ name = withoutAssetsPrefix ref)
    | JsUndefined => False
    end.
Proof. exact getTrackDuration_js_pos. Qed.

Lemma getTrackDuration_positive_witness :
  getTrackDuration_js
    (Some {| trackDurations := Some {["a_01_01.mp3" := 60%Q]};
             chapterDurations := []; totalDuration := None |})
    "/assets/a_01_01.mp3" = JsNumber 60 /\
  match getTrackDuration_js
          (Some {| trackDurations := Some {["a_01_01.mp3" := 60%Q]};
                   chapterDurations := []; totalDuration := None |})
          "/assets/a_01_01.mp3" with
  | JsNumber q => (0 < q)%Q
  | JsInherited name =>
    inherited name = true /\
    ({["a_01_01.mp3" := 60%Q]} : gmap string Q) !! name = None /\
    (name = "/assets/a_01_01.mp3"
     \/ name = withoutAssetsPrefix "/assets/a_01_01.mp3")
  | JsUndefined => False
  end.
Proof.
  split; [reflexivity|].
  apply (getTrackDuration_positive {["a_01_01.mp3" := 60%Q]} [] None
           "/assets/a_01_01.mp3").
  intros key q Hq. apply lookup_singleton_Some in Hq as [_ <-]. q_concrete.
Defined.

Lemma prefix_append p s : String.prefix p (String.append p s) = true.
Proof.
  induction p as [|a p IH]; simpl; [now destruct s|].
  destruct (Ascii.ascii_dec a a); [assumption|congruence].
Qed.

Lemma string_drop_append p s :
  string_drop (String.length p) (String.append p s) = s.
Proof. induction p as [|a p IH]; simpl; [reflexivity|assumption]. Qed.

Lemma js_replace_prefix s p :
  String.prefix p s = true ->
  js_replace s p "" = string_drop (String.length p) s.
Proof.
  intros H. destruct s as [|c s]; cbn [js_replace]; rewrite H; reflexivity.
Qed.

(** Removing the prefix that was just put in front gives the string back. *)
Lemma js_replace_strips_prefix p s :
  js_replace (String.append p s) p "" = s.
Proof.
  rewrite js_replace_prefix by apply prefix_append.
  apply string_drop_append.
Qed.

(** X3: a reference and its ["/assets/"] spelling resolve alike unless
    both lookups are truthy.  For a reference that does not start with
    ["/assets/"], [getTrackDuration] returns the same value for the
    reference and for ["/assets/"] followed by it, except when the table
    gives a truthy value under both keys (a non-zero entry, or for the bare
    reference an inherited member): each spelling then returns the value
    found under itself. *)
Theorem assets_prefix_spellings_agree :
  forall (td : gmap string Q) (cds : list Q) (tot : option Q) (ref : string),
    startsWith ref "/assets/" = false ->
    let ad := Some {| trackDurations := Some td; chapterDurations := cds;
                      totalDuration := tot |} in
    let prefixed := String.append "/assets/" ref in
    if js_truthy (js_get td ref) && js_truthy (js_get td prefixed)
    then getTrackDuration_js ad ref = js_get td ref /\
         getTrackDuration_js ad prefixed = js_get td prefixed
    else getTrackDuration_js ad prefixed = getTrackDuration_js ad ref.
Proof.
  intros td cds tot ref Hno ad prefixed. subst ad prefixed.
  cbv beta iota delta [getTrackDuration_js trackDurations].
  unfold withAssetsPrefix, withoutAssetsPrefix. rewrite Hno.
  assert (Hyes : startsWith (String.append "/assets/" ref) "/assets/" = true)
    by (unfold startsWith; apply prefix_append).
  rewrite Hyes, js_replace_strips_prefix.
  destruct (js_truthy (js_get td ref)) eqn:E1;
    destruct (js_truthy (js_get td (String.append "/assets/" ref))) eqn:E2;
    simpl andb; cbv iota; try reflexivity.
  split; reflexivity.
Qed.

Lemma assets_prefix_spellings_agree_witness :
  getTrackDuration_js
    (Some {| trackDurations := Some {["/assets/a_01_01.mp3" := 60%Q]};
             chapterDurations := []; totalDuration := None |})
    (String.append "/assets/" "a_01_01.mp3")
  = getTrackDuration_js
      (Some {| trackDurations := Some {["/assets/a_01_01.mp3" := 60%Q]};
               chapterDurations := []; totalDuration := None |})
      "a_01_01.mp3".
Proof.
  exact (assets_prefix_spellings_agree {["/assets/a_01_01.mp3" := 60%Q]} []
           None "a_01_01.mp3" eq_refl).
Defined.

(** ** Track start times within a chapter *)

Section TrackStart.

Variable ad : option AudioDurationsData.

Abbreviation trackDur t := (getTrackDuration ad (audioFile t)).

Lemma getTrackStartTime_loop_stop ts i t acc :
  t <= i -> getTrackStartTime_loop ad ts i t acc = acc.
Proof.
  intros H. destruct ts as [|x rest]; simpl; [reflexivity|].
  destruct (Z.ltb_spec i t); [lia|reflexivity].
Qed.

(** Asking for the start of the next track adds the duration of this one. *)
Lemma getTrackStartTime_loop_step ts i t acc trk :
  i <= t -> nth_error ts (Z.to_nat (t - i)) = Some trk ->
  getTrackStartTime_loop ad ts i (t + 1) acc
  = (getTrackStartTime_loop ad ts i t acc + trackDur trk)%Q.
Proof.
  revert i acc. induction ts as [|x rest IH]; intros i acc Hi Hn.
  - now destruct (Z.to_nat (t - i)).
  - simpl. destruct (Z.ltb_spec i (t + 1)) as [_|]; [|lia].
    destruct (Z.ltb_spec i t) as [Hlt|Hge].
    + apply IH; [lia|].
      replace (Z.to_nat (t - i)) with (S (Z.to_nat (t - (i + 1)))) in Hn by lia.
      exact Hn.
    + replace (Z.to_nat (t - i)) with 0%nat in Hn by lia.
      injection Hn as ->.
      now rewrite getTrackStartTime_loop_stop by lia.
Qed.

(** Past the last track the loop has added every duration. *)
Lemma getTrackStartTime_loop_all ts i t acc :
  i + Z.of_nat (List.length ts) <= t ->
  getTrackStartTime_loop ad ts i t acc
  = fold_left (fun sum track => (sum + trackDur track)%Q) ts acc.
Proof.
  revert i acc. induction ts as [|x rest IH]; intros i acc Hle; simpl.
  - reflexivity.
  - simpl List.length in Hle.
    destruct (Z.ltb_spec i t); [|lia]. apply IH. lia.
Qed.

End TrackStart.

Lemma getTrackStartTime_in_chapter chs ad c ch t :
  js_index chs c = Some ch ->
  getTrackStartTime chs ad c t = getTrackStartTime_loop ad (tracks ch) 0 t 0%Q.
Proof.
  intros Hch. unfold getTrackStartTime.
  now rewrite (in_range_test _ _ (js_index_Some_range _ _ _ Hch)), Hch.
Qed.

(** X4: within a chapter the track start times are the prefix sums of the
    track durations: the first track starts at 0 and, for every track [t] of
    the chapter, track [t + 1] starts where track [t] starts plus the
    duration of track [t]. *)
Theorem track_start_times_are_prefix_sums :
  forall (chs : list Chapter) (ad : option AudioDurationsData)
         (c t : Z) (ch : Chapter) (trk : Track),
    js_index chs c = Some ch ->
    js_index (tracks ch) t = Some trk ->
    getTrackStartTime chs ad c 0 = 0%Q /\
    getTrackStartTime chs ad c (t + 1)
    = (getTrackStartTime chs ad c t + getTrackDuration ad (audioFile trk))%Q.
Proof.
  intros chs ad c t ch trk Hch Ht.
  rewrite !(getTrackStartTime_in_chapter chs ad c ch) by assumption.
  pose proof (js_index_Some_range _ _ _ Ht) as Hr.
  split; [now apply getTrackStartTime_loop_stop|].
  apply getTrackStartTime_loop_step; [lia|].
  unfold js_index in Ht. destruct (Z.ltb_spec t 0); [lia|].
  now rewrite Z.sub_0_r.
Qed.

Lemma track_start_times_are_prefix_sums_witness :
  getTrackStartTime CHAPTERS (Some threeTrackDurations) 0 0 = 0%Q /\
  getTrackStartTime CHAPTERS (Some threeTrackDurations) 0 (1 + 1)
  = (getTrackStartTime CHAPTERS (Some threeTrackDurations) 0 1
     + getTrackDuration (Some threeTrackDurations)
         (audioFile {| audioFile := "a_01_02.mp3" |}))%Q.
Proof.
  apply (track_start_times_are_prefix_sums CHAPTERS (Some threeTrackDurations)
           0 1
           {| id := 1; title := "Movement I: The Silent Colossus";
              video := "01.mp4";
              tracks := [ {| audioFile := "a_01_01.mp3" |};
                          {| audioFile := "a_01_02.mp3" |};
                          {| audioFile := "a_01_03.mp3" |} ] |}
           {| audioFile := "a_01_02.mp3" |}); reflexivity.
Defined.

(** X5: a chapter whose duration is not precomputed ends where its last
    track ends: for a track index at or past the number of tracks,
    [getTrackStartTime] stops growing and equals [getChapterDuration]. *)
Theorem chapter_duration_is_end_of_last_track :
  forall (chs : list Chapter) (ad : option AudioDurationsData)
         (c t : Z) (ch : Chapter),
    js_index chs c = Some ch ->
    match ad with
    | Some a => js_index (chapterDurations a) c = None
    | None => True
    end ->
    Z.of_nat (List.length (tracks ch)) <= t ->
    getTrackStartTime chs ad c t = getChapterDuration chs ad c.
Proof.
  intros chs ad c t ch Hch Hpre Ht.
  rewrite (getTrackStartTime_in_chapter chs ad c ch t Hch).
  rewrite getTrackStartTime_loop_all by lia.
  unfold getChapterDuration.
  rewrite (in_range_test _ _ (js_index_Some_range _ _ _ Hch)), Hch.
  destruct ad as [a|]; [rewrite Hpre|]; reflexivity.
Qed.

Lemma chapter_duration_is_end_of_last_track_witness :
  getTrackStartTime CHAPTERS (Some threeTrackDurations) 0 7
  = getChapterDuration CHAPTERS (Some threeTrackDurations) 0.
Proof.
  apply (chapter_duration_is_end_of_last_track CHAPTERS
           (Some threeTrackDurations) 0 7
           {| id := 1; title := "Movement I: The Silent Colossus";
              video := "01.mp4";
              tracks := [ {| audioFile := "a_01_01.mp3" |};
                          {| audioFile := "a_01_02.mp3" |};
                          {| audioFile := "a_01_03.mp3" |} ] |});
    [reflexivity|reflexivity|simpl; lia].
Defined.

(** ** More on frames *)

(** [Math.round] is determined by the half-open unit interval around its
    result. *)
Lemma Math_round_unique x z :
  (inject_Z z - (1 # 2) <= x)%Q -> (x < inject_Z z + (1 # 2))%Q ->
  Math_round x = z.
Proof.
  intros Hlo Hhi. destruct (Math_round_bounds x) as [H1 H2].
  assert (Ha : (inject_Z (Math_round x) < inject_Z (z + 1))%Q).
  { rewrite inject_Z_plus. change (inject_Z 1) with 1%Q.
    generalize dependent (inject_Z (Math_round x)).
    generalize dependent (inject_Z z). intros; lra. }
  assert (Hb : (inject_Z (z - 1) < inject_Z (Math_round x))%Q).
  { clear Ha. unfold Z.sub. rewrite inject_Z_plus, inject_Z_opp.
    change (inject_Z 1) with 1%Q.
    generalize dependent (inject_Z (Math_round x)).
    generalize dependent (inject_Z z). intros; lra. }
  rewrite <- Zlt_Qlt in Ha, Hb. lia.
Qed.

Lemma Math_round_Qeq x y : (x == y)%Q -> Math_round x = Math_round y.
Proof. intros H. unfold Math_round. now rewrite H. Qed.

(** X6: frames to seconds and back is exact: for a positive frame rate,
    [toFrames(toSeconds(n, fps), fps)] is [n] for every whole frame number. *)
Theorem seconds_frames_round_trip :
  forall (n : Z) (fps : Q),
    (0 < fps)%Q -> toFrames (toSeconds n fps) fps = n.
Proof.
  intros n fps Hf. unfold toFrames, toSeconds.
  rewrite (Math_round_Qeq _ (inject_Z n)) by (field; lra).
  apply Math_round_unique; generalize (inject_Z n); intros; lra.
Qed.

Lemma seconds_frames_round_trip_witness :
  toFrames (toSeconds 9007 FPS) FPS = 9007.
Proof. apply (seconds_frames_round_trip 9007 FPS). q_concrete. Defined.

(** X7: [toFrames] is monotone in the seconds for a non-negative frame
    rate: a later time never maps to an earlier frame. *)
Theorem toFrames_monotone :
  forall (s1 s2 fps : Q),
    (0 <= fps)%Q -> (s1 <= s2)%Q -> toFrames s1 fps <= toFrames s2 fps.
Proof.
  intros s1 s2 fps Hf Hs. unfold toFrames, Math_round.
  apply Qfloor_resp_le.
  assert (s1 * fps <= s2 * fps)%Q by now apply Qmult_le_compat_r.
  lra.
Qed.

Lemma toFrames_monotone_witness :
  toFrames (401 # 4) FPS <= toFrames 180 FPS.
Proof. apply (toFrames_monotone (401 # 4) 180 FPS); q_concrete. Defined.

(** X8: the frame ranges of consecutive chapters miss each other by at most
    one frame: for a chapter index [c] in range,
    [getChapterFrameRange(c+1).from] differs from
    [getChapterFrameRange(c).from + getChapterFrameRange(c).durationInFrames]
    by -1, 0 or 1. *)
Theorem chapter_frame_ranges_drift_at_most_one :
  forall (chs : list Chapter) (ad : option AudioDurationsData)
         (c : Z) (fps : Q),
    0 <= c < Z.of_nat (List.length chs) ->
    Z.abs (from (getChapterFrameRange chs ad (c + 1) fps)
           - (from (getChapterFrameRange chs ad c fps)
              + durationInFrames (getChapterFrameRange chs ad c fps))) <= 1.
Proof.
  intros chs ad c fps Hc. unfold getChapterFrameRange. simpl. unfold toFrames.
  assert (Hstep : (getChapterStartTime chs ad (c + 1) * fps
                   == getChapterStartTime chs ad c * fps
                      + getChapterDuration chs ad c * fps)%Q).
  { rewrite <- (Z2Nat.id c) by lia.
    rewrite getChapterStartTime_step by lia. ring. }
  rewrite (Math_round_Qeq _ _ Hstep).
  set (a := (getChapterStartTime chs ad c * fps)%Q).
  set (b := (getChapterDuration chs ad c * fps)%Q).
  destruct (Math_round_bounds a) as [Ha1 Ha2].
  destruct (Math_round_bounds b) as [Hb1 Hb2].
  destruct (Math_round_bounds (a + b)) as [Hs1 Hs2].
  set (ra := Math_round a) in *. set (rb := Math_round b) in *.
  set (rs := Math_round (a + b)) in *.
  assert (Hup : (inject_Z (rs - (ra + rb)) < inject_Z 2)%Q).
  { unfold Z.sub. rewrite !inject_Z_plus, inject_Z_opp, inject_Z_plus.
    change (inject_Z 2) with 2%Q.
    generalize dependent (inject_Z rs). generalize dependent (inject_Z ra).
    generalize dependent (inject_Z rb). intros; lra. }
  assert (Hdn : (inject_Z (-2) < inject_Z (rs - (ra + rb)))%Q).
  { unfold Z.sub. rewrite !inject_Z_plus, inject_Z_opp, inject_Z_plus.
    change (inject_Z (-2)) with (-2)%Q.
    generalize dependent (inject_Z rs). generalize dependent (inject_Z ra).
    generalize dependent (inject_Z rb). intros; lra. }
  rewrite <- Zlt_Qlt in Hup, Hdn. lia.
Qed.

Lemma chapter_frame_ranges_drift_at_most_one_witness :
  Z.abs (from (getChapterFrameRange CHAPTERS (Some fractionalDurations) (1 + 1) FPS)
         - (from (getChapterFrameRange CHAPTERS (Some fractionalDurations) 1 FPS)
            + durationInFrames
                (getChapterFrameRange CHAPTERS (Some fractionalDurations) 1 FPS)))
  <= 1.
Proof.
  apply (chapter_frame_ranges_drift_at_most_one CHAPTERS
           (Some fractionalDurations) 1 FPS).
  simpl; lia.
Defined.

(** ** Track frame ranges *)

Section TrackRanges.

Variable chs : list Chapter.
Variable ad : option AudioDurationsData.
Variable fps : Q.

Abbreviation trackFrames t := (toFrames (getTrackDuration ad (audioFile t)) fps).
Abbreviation ranges_loop := (getTrackFrameRanges_loop ad).

Lemma getTrackFrameRanges_loop_length ts cur rs :
  List.length (ranges_loop ts cur fps rs) = (List.length rs + List.length ts)%nat.
Proof.
  revert cur rs. induction ts as [|t rest IH]; intros cur rs; simpl.
  - lia.
  - rewrite IH, length_app. simpl. lia.
Qed.

Lemma getTrackFrameRanges_loop_old ts cur rs k :
  (k < List.length rs)%nat ->
  nth_error (ranges_loop ts cur fps rs) k = nth_error rs k.
Proof.
  revert cur rs. induction ts as [|t rest IH]; intros cur rs Hk; simpl.
  - reflexivity.
  - rewrite IH by (rewrite length_app; simpl; lia).
    now apply nth_error_app1.
Qed.

(** The [i]-th range pushed belongs to the [i]-th track and starts at the
    frame where the tracks before it end. *)
Lemma getTrackFrameRanges_loop_new ts cur rs i trk :
  nth_error ts i = Some trk ->
  nth_error (ranges_loop ts cur fps rs) (List.length rs + i)
  = Some {| range := {| from := sumTrackFrames ad (firstn i ts) cur fps;
                        durationInFrames := trackFrames trk |};
            rangeAudioFile := audioFile trk |}.
Proof.
  revert cur rs i. induction ts as [|t rest IH]; intros cur rs i Hi.
  - now destruct i.
  - simpl ranges_loop. destruct i as [|i].
    + injection Hi as ->.
      rewrite getTrackFrameRanges_loop_old by (rewrite length_app; simpl; lia).
      rewrite Nat.add_0_r, nth_error_app2 by lia.
      now rewrite Nat.sub_diag.
    + simpl in Hi.
      specialize (IH (cur + trackFrames t)
                     (rs ++ [ {| range := {| from := cur;
                                             durationInFrames := trackFrames t |};
                                 rangeAudioFile := audioFile t |} ])%list
                     i Hi).
      rewrite length_app in IH. simpl in IH.
      replace (List.length rs + S i)%nat with (List.length rs + 1 + i)%nat by lia.
      exact IH.
Qed.

Lemma sumTrackFrames_firstn_S ts i trk cur :
  nth_error ts i = Some trk ->
  sumTrackFrames ad (firstn (S i) ts) cur fps
  = sumTrackFrames ad (firstn i ts) cur fps + trackFrames trk.
Proof.
  revert i cur. induction ts as [|t rest IH]; intros i cur Hi.
  - now destruct i.
  - destruct i as [|i].
    + injection Hi as ->. reflexivity.
    + simpl in Hi. change (firstn (S (S i)) (t :: rest))
        with (t :: firstn (S i) rest).
      simpl. now apply IH.
Qed.

Lemma getTrackFrameRanges_in_chapter c ch :
  js_index chs c = Some ch ->
  getTrackFrameRanges chs ad c fps = ranges_loop (tracks ch) 0 fps [].
Proof.
  intros Hch. unfold getTrackFrameRanges.
  now rewrite (in_range_test _ _ (js_index_Some_range _ _ _ Hch)), Hch.
Qed.

Lemma getTrackFrameRanges_lookup c ch i trk :
  js_index chs c = Some ch -> nth_error (tracks ch) i = Some trk ->
  nth_error (getTrackFrameRanges chs ad c fps) i
  = Some {| range := {| from := sumTrackFrames ad (firstn i (tracks ch)) 0 fps;
                        durationInFrames := trackFrames trk |};
            rangeAudioFile := audioFile trk |}.
Proof.
  intros Hch Hi. rewrite (getTrackFrameRanges_in_chapter c ch Hch).
  apply (getTrackFrameRanges_loop_new (tracks ch) 0 [] i trk Hi).
Qed.

(** A frame inside the span of track [i] makes the track loop return track
    [i] and the offset from the start of that span. *)
Lemma getCurrentTrackAtFrame_loop_within ts idx acc g i trk :
  (forall t, 0 <= trackFrames t) ->
  nth_error ts i = Some trk ->
  sumTrackFrames ad (firstn i ts) acc fps <= g
    < sumTrackFrames ad (firstn i ts) acc fps + trackFrames trk ->
  getCurrentTrackAtFrame_loop ad ts idx acc g fps
  = Some {| trackIndex := idx + Z.of_nat i;
            frameInTrack := g - sumTrackFrames ad (firstn i ts) acc fps |}.
Proof.
  intros Hnn. revert idx acc i.
  induction ts as [|t rest IH]; intros idx acc i Hi Hg.
  - now destruct i.
  - simpl getCurrentTrackAtFrame_loop. destruct i as [|i].
    + injection Hi as ->. simpl in Hg.
      destruct (Z.ltb_spec g (acc + trackFrames trk)); [|lia].
      now rewrite Z.add_0_r.
    + simpl in Hi. simpl firstn in Hg. simpl sumTrackFrames in Hg.
      pose proof (sumTrackFrames_mono ad fps (firstn i rest)
                    (acc + trackFrames t) Hnn) as Hm.
      destruct (Z.ltb_spec g (acc + trackFrames t)) as [Hlt|Hge]; [lia|].
      rewrite (IH (idx + 1) (acc + trackFrames t) i Hi Hg).
      simpl firstn. simpl sumTrackFrames. f_equal. f_equal. lia.
Qed.

End TrackRanges.

(** X9: [getTrackFrameRanges] lays the tracks of a chapter end to end: it
    returns one range per track, in order, carrying the track's audio file
    and its length in frames; the first range starts at frame 0 and every
    other range starts at the frame where the one before it ends. *)
Theorem track_frame_ranges_abut :
  forall (chs : list Chapter) (ad : option AudioDurationsData) (fps : Q)
         (c : Z) (ch : Chapter),
    js_index chs c = Some ch ->
    let ranges := getTrackFrameRanges chs ad c fps in
    List.length ranges = List.length (tracks ch) /\
    (forall i trk, nth_error (tracks ch) i = Some trk ->
       exists r, nth_error ranges i = Some r /\
                 rangeAudioFile r = audioFile trk /\
                 durationInFrames r
                 = toFrames (getTrackDuration ad (audioFile trk)) fps) /\
    (forall r, nth_error ranges 0 = Some r -> from r = 0) /\
    (forall i r r', nth_error ranges i = Some r ->
                    nth_error ranges (S i) = Some r' ->
                    from r' = from r + durationInFrames r).
Proof.
  intros chs ad fps c ch Hch ranges. subst ranges.
  assert (Hlen : List.length (getTrackFrameRanges chs ad c fps)
                 = List.length (tracks ch)).
  { rewrite (getTrackFrameRanges_in_chapter chs ad fps c ch Hch).
    now rewrite getTrackFrameRanges_loop_length. }
  split; [exact Hlen|]. split; [|split].
  - intros i trk Hi. eexists. split;
      [apply (getTrackFrameRanges_lookup chs ad fps c ch i trk Hch Hi)|].
    split; reflexivity.
  - intros r Hr. destruct (nth_error (tracks ch) 0) as [trk|] eqn:E.
    + rewrite (getTrackFrameRanges_lookup chs ad fps c ch 0 trk Hch E) in Hr.
      injection Hr as <-. reflexivity.
    + apply nth_error_None in E.
      assert (nth_error (getTrackFrameRanges chs ad c fps) 0 <> None)
        by congruence.
      apply nth_error_Some in H. lia.
  - intros i r r' Hr Hr'.
    destruct (nth_error (tracks ch) i) as [trk|] eqn:E; cycle 1.
    { apply nth_error_None in E.
      assert (H : nth_error (getTrackFrameRanges chs ad c fps) i <> None)
        by congruence.
      apply nth_error_Some in H. lia. }
    destruct (nth_error (tracks ch) (S i)) as [trk'|] eqn:E'; cycle 1.
    { apply nth_error_None in E'.
      assert (H : nth_error (getTrackFrameRanges chs ad c fps) (S i) <> None)
        by congruence.
      apply nth_error_Some in H. lia. }
    rewrite (getTrackFrameRanges_lookup chs ad fps c ch i trk Hch E) in Hr.
    rewrite (getTrackFrameRanges_lookup chs ad fps c ch (S i) trk' Hch E') in Hr'.
    injection Hr as <-. injection Hr' as <-. simpl.
    apply sumTrackFrames_firstn_S. exact E.
Qed.

Lemma track_frame_ranges_abut_witness :
  List.length (getTrackFrameRanges CHAPTERS (Some fractionalDurations) 0 FPS)
  = 3%nat.
Proof.
  apply (track_frame_ranges_abut CHAPTERS (Some fractionalDurations) FPS 0
           {| id := 1; title := "Movement I: The Silent Colossus";
              video := "01.mp4";
              tracks := [ {| audioFile := "a_01_01.mp3" |};
                          {| audioFile := "a_01_02.mp3" |};
                          {| audioFile := "a_01_03.mp3" |} ] |}).
  reflexivity.
Defined.

(** X10: within a chapter, [getCurrentTrackAtFrame] and
    [getTrackFrameRanges] agree: when no track has a negative length in
    frames, a frame inside the [i]-th range resolves to track [i] at the
    offset of the frame from the start of that range. *)
Theorem current_track_matches_frame_range :
  forall (chs : list Chapter) (ad : option AudioDurationsData) (fps : Q)
         (c g : Z) (ch : Chapter) (i : nat) (r : TrackFrameRange),
    js_index chs c = Some ch ->
    (forall ref, 0 <= toFrames (getTrackDuration ad ref) fps) ->
    nth_error (getTrackFrameRanges chs ad c fps) i = Some r ->
    from r <= g < from r + durationInFrames r ->
    getCurrentTrackAtFrame chs ad c g fps
    = Some {| trackIndex := Z.of_nat i; frameInTrack := g - from r |}.
Proof.
  intros chs ad fps c g ch i r Hch Hnn Hr Hg.
  destruct (nth_error (tracks ch) i) as [trk|] eqn:E; cycle 1.
  { apply nth_error_None in E.
    assert (H : nth_error (getTrackFrameRanges chs ad c fps) i <> None)
      by congruence.
    apply nth_error_Some in H.
    rewrite (getTrackFrameRanges_in_chapter chs ad fps c ch Hch) in H.
    rewrite getTrackFrameRanges_loop_length in H. simpl in H. lia. }
  rewrite (getTrackFrameRanges_lookup chs ad fps c ch i trk Hch E) in Hr.
  injection Hr as <-. simpl in Hg |- *.
  rewrite (getCurrentTrackAtFrame_in_range chs ad fps c g ch Hch).
  rewrite (getCurrentTrackAtFrame_loop_within ad fps (tracks ch) 0 0 g i trk);
    [now rewrite Z.add_0_l| |assumption|assumption].
  intros t. apply Hnn.
Qed.

Lemma current_track_matches_frame_range_witness :
  getCurrentTrackAtFrame CHAPTERS None 0 6000 FPS
  = Some {| trackIndex := Z.of_nat 1; frameInTrack := 6000 - 5400 |}.
Proof.
  apply (current_track_matches_frame_range CHAPTERS None FPS 0 6000
           {| id := 1; title := "Movement I: The Silent Colossus";
              video := "01.mp4";
              tracks := [ {| audioFile := "a_01_01.mp3" |};
                          {| audioFile := "a_01_02.mp3" |};
                          {| audioFile := "a_01_03.mp3" |} ] |}
           1%nat
           {| range := {| from := 5400; durationInFrames := 5400 |};
              rangeAudioFile := "a_01_02.mp3" |}).
  - reflexivity.
  - intros ref. rewrite getTrackDuration_no_table. vm_compute. congruence.
  - reflexivity.
  - simpl. lia.
Defined.

(** ** Locating a frame among the chapters *)

Section ChapterLocate.

Variable chs : list Chapter.
Variable ad : option AudioDurationsData.
Variable fps : Q.

(** The chapter loop returns at the first chapter that ends after the frame,
    handing over the offset of the frame from the start of that chapter. *)
Lemma getGlobalTrackAtFrame_loop_locates r i acc f :
  List.Forall (fun ch => tracks ch <> []) chs ->
  0 <= i -> i + Z.of_nat r <= Z.of_nat (List.length chs) ->
  acc <= f < sumChapterFrames chs ad r i acc fps ->
  exists res (j : nat),
    getGlobalTrackAtFrame_loop chs ad r i acc f fps = Some res /\
    (j < r)%nat /\ chapterIndex res = i + Z.of_nat j /\
    sumChapterFrames chs ad j i acc fps <= f
      < sumChapterFrames chs ad (S j) i acc fps /\
    getCurrentTrackAtFrame chs ad (i + Z.of_nat j)
      (f - sumChapterFrames chs ad j i acc fps) fps = Some (trackInfo res).
Proof.
  intros Hall. revert i acc.
  induction r as [|r IH]; intros i acc Hi Hr Hf; [simpl in Hf; lia|].
  simpl getGlobalTrackAtFrame_loop.
  set (cf := toFrames (getChapterDuration chs ad i) fps) in *.
  destruct (Z.ltb_spec f (acc + cf)) as [Hlt|Hge].
  - destruct (getCurrentTrackAtFrame chs ad i (f - acc) fps) as [ti|] eqn:Et.
    + exists {| chapterIndex := i; trackInfo := ti |}, 0%nat.
      simpl. rewrite Z.add_0_r. fold cf.
      repeat split; try assumption; lia.
    + exfalso.
      destruct (chapter_exists chs i) as [ch Hch]; [lia|].
      apply (getCurrentTrackAtFrame_nonempty chs ad fps i (f - acc) ch Hch);
        [|assumption].
      now apply (chapter_has_track chs i ch).
  - simpl in Hf. fold cf in Hf.
    destruct (IH (i + 1) (acc + cf) ltac:(lia) ltac:(lia) ltac:(lia))
      as (res & j & Hres & Hj & Hci & Hspan & Hti).
    exists res, (S j). rewrite Hres.
    replace (i + Z.of_nat (S j)) with (i + 1 + Z.of_nat j) by lia.
    change (sumChapterFrames chs ad (S j) i acc fps)
      with (sumChapterFrames chs ad j (i + 1) (acc + cf) fps).
    change (sumChapterFrames chs ad (S (S j)) i acc fps)
      with (sumChapterFrames chs ad (S j) (i + 1) (acc + cf) fps).
    repeat split; try assumption; lia.
Qed.

End ChapterLocate.

(** X11: when every chapter has at least one track, every frame from 0 up to
    the frame at which the last chapter ends resolves to a track:
    [getGlobalTrackAtFrame] returns the chapter whose span of frames (the
    rounded chapter lengths laid end to end) holds the frame, together with
    what [getCurrentTrackAtFrame] gives for the offset of the frame in that
    chapter. *)
Theorem global_track_at_frame_locates :
  forall (chs : list Chapter) (ad : option AudioDurationsData) (fps : Q)
         (f : Z),
    List.Forall (fun ch => tracks ch <> []) chs ->
    0 <= f < sumChapterFrames chs ad (List.length chs) 0 0 fps ->
    exists res (k : nat),
      getGlobalTrackAtFrame chs ad f fps = Some res /\
      (k < List.length chs)%nat /\ chapterIndex res = Z.of_nat k /\
      sumChapterFrames chs ad k 0 0 fps <= f
        < sumChapterFrames chs ad (S k) 0 0 fps /\
      getCurrentTrackAtFrame chs ad (Z.of_nat k)
        (f - sumChapterFrames chs ad k 0 0 fps) fps = Some (trackInfo res).
Proof.
  intros chs ad fps f Hall Hf.
  destruct (getGlobalTrackAtFrame_loop_locates chs ad fps (List.length chs)
              0 0 f Hall ltac:(lia) ltac:(lia) Hf)
    as (res & j & Hres & Hj & Hci & Hspan & Hti).
  exists res, j. rewrite Z.add_0_l in Hci, Hti.
  repeat split; try assumption; lia.
Qed.

Lemma global_track_at_frame_locates_witness :
  exists res (k : nat),
    getGlobalTrackAtFrame CHAPTERS (Some fractionalDurations) 18015 FPS
    = Some res /\
    (k < List.length CHAPTERS)%nat /\ chapterIndex res = Z.of_nat k /\
    sumChapterFrames CHAPTERS (Some fractionalDurations) k 0 0 FPS <= 18015
      < sumChapterFrames CHAPTERS (Some fractionalDurations) (S k) 0 0 FPS /\
    getCurrentTrackAtFrame CHAPTERS (Some fractionalDurations) (Z.of_nat k)
      (18015 - sumChapterFrames CHAPTERS (Some fractionalDurations) k 0 0 FPS)
      FPS = Some (trackInfo res).
Proof.
  apply (global_track_at_frame_locates CHAPTERS (Some fractionalDurations)
           FPS 18015).
  - apply CHAPTERS_have_tracks.
  - vm_compute. split; congruence.
Defined.

(** ** Locating a time among the chapters and tracks *)

Lemma Qltb_true a b : Qltb a b = true <-> (a < b)%Q.
Proof.
  unfold Qltb. rewrite negb_true_iff. split.
  - intros H. apply Qnot_le_lt. intros Hle.
    apply Qle_bool_iff in Hle. congruence.
  - intros H. destruct (Qle_bool b a) eqn:E; [|reflexivity].
    apply Qle_bool_iff in E. lra.
Qed.

Section SecondsLocate.

Variable chs : list Chapter.
Variable ad : option AudioDurationsData.

Abbreviation addTrack :=
  (fun sum track => (sum + getTrackDuration ad (audioFile track))%Q).

(** [getTrackStartTime]'s loop adds up the tracks before the index asked. *)
Lemma getTrackStartTime_loop_firstn ts i t acc :
  getTrackStartTime_loop ad ts i t acc
  = fold_left addTrack (firstn (Z.to_nat (t - i)) ts) acc.
Proof.
  revert i acc. induction ts as [|x rest IH]; intros i acc; simpl.
  - now rewrite firstn_nil.
  - destruct (Z.ltb_spec i t) as [Hlt|Hge].
    + rewrite IH.
      replace (Z.to_nat (t - i)) with (S (Z.to_nat (t - (i + 1)))) by lia.
      reflexivity.
    + replace (Z.to_nat (t - i)) with 0%nat by lia. reflexivity.
Qed.

(** The track a time falls in: the loop returns the first track that ends
    after the time, so the time is not before that track's start. *)
Lemma getCurrentAudioTrack_tracks_Some ts idx tacc q j :
  App.getCurrentAudioTrack_tracks ad ts idx tacc q = Some j ->
  (tacc <= q)%Q ->
  exists (i : nat) (trk : Track),
    nth_error ts i = Some trk /\ j = idx + Z.of_nat i /\
    (fold_left addTrack (firstn i ts) tacc <= q)%Q /\
    (q < fold_left addTrack (firstn i ts) tacc
         + getTrackDuration ad (audioFile trk))%Q.
Proof.
  revert idx tacc. induction ts as [|x rest IH]; intros idx tacc; simpl;
    [discriminate|].
  destruct (Qltb q (tacc + getTrackDuration ad (audioFile x))) eqn:E.
  - intros [= <-] Hq. exists 0%nat, x. simpl.
    apply Qltb_true in E. repeat split; try assumption; lia.
  - intros Hj _. apply Qltb_false in E.
    destruct (IH _ _ Hj E) as (i & trk & Hi & -> & Hlo & Hhi).
    exists (S i), trk. simpl. repeat split; try assumption; lia.
Qed.




(** Between two consecutive prefixes lies the duration of one track. *)
Lemma fold_addTrack_firstn_S ts i trk acc :
  nth_error ts i = Some trk ->
  fold_left addTrack (firstn (S i) ts) acc
  = (fold_left addTrack (firstn i ts) acc
     + getTrackDuration ad (audioFile trk))%Q.
Proof.
  revert i acc. induction ts as [|x rest IH]; intros [|i] acc; simpl;
    try discriminate.
  - now intros [= ->].
  - intros H. now apply IH.
Qed.

(** When every test of the track loop fails, the time is at or past the
    end of every track. *)
Lemma getCurrentAudioTrack_tracks_None_prefix ts idx tacc q :
  App.getCurrentAudioTrack_tracks ad ts idx tacc q = None ->
  (tacc <= q)%Q ->
  forall i, (fold_left addTrack (firstn i ts) tacc <= q)%Q.
Proof.
  revert idx tacc. induction ts as [|x rest IH]; intros idx tacc; simpl.
  - intros _ H i. now rewrite firstn_nil.
  - destruct (Qltb q (tacc + getTrackDuration ad (audioFile x))) eqn:E;
      [discriminate|].
    intros Hn H i. apply Qltb_false in E.
    destruct i as [|i]; simpl; [assumption|]. now apply (IH _ _ Hn).
Qed.

Lemma getTrackStartTime_firstn c ch (k : nat) :
  js_index chs c = Some ch ->
  getTrackStartTime chs ad c (Z.of_nat k)
  = fold_left addTrack (firstn k (tracks ch)) 0%Q.
Proof.
  intros Hch. rewrite (getTrackStartTime_in_chapter chs ad c ch _ Hch).
  rewrite getTrackStartTime_loop_firstn.
  now rewrite Z.sub_0_r, Nat2Z.id.
Qed.

(** The chapter loop of [getCurrentAudioTrack] on a time before the end of
    the chapters left to visit, in the terms of its own comparisons: the
    chapter it stops at starts at or before the time and ends after it, and
    the track it returns starts at or before the time left in the chapter;
    that track ends after it, unless the loop over the tracks ran out and
    the last track was returned. *)
Lemma getCurrentAudioTrack_loop_compares r i acc p :
  0 <= i -> i + Z.of_nat r <= Z.of_nat (List.length chs) ->
  (acc <= p)%Q -> (p < sumChapterDurations chs ad r i acc)%Q ->
  exists (j : nat) (t : Z) (ch : Chapter),
    App.getCurrentAudioTrack_loop chs ad r i acc p
    = Some {| App.chapterIndex := i + Z.of_nat j; App.trackIndex := t |} /\
    (j < r)%nat /\
    js_index chs (i + Z.of_nat j) = Some ch /\
    (sumChapterDurations chs ad j i acc <= p)%Q /\
    (p < sumChapterDurations chs ad j i acc
         + getChapterDuration chs ad (i + Z.of_nat j))%Q /\
    match js_index (tracks ch) t with
    | Some trk =>
      (getTrackStartTime chs ad (i + Z.of_nat j) t
       <= p - sumChapterDurations chs ad j i acc)%Q /\
      ((p - sumChapterDurations chs ad j i acc
        < getTrackStartTime chs ad (i + Z.of_nat j) t
          + getTrackDuration ad (audioFile trk))%Q \/
       (t = Z.of_nat (List.length (tracks ch)) - 1 /\
        (getTrackStartTime chs ad (i + Z.of_nat j) t
         + getTrackDuration ad (audioFile trk)
         <= p - sumChapterDurations chs ad j i acc)%Q))
    | None => tracks ch = [] /\ t = -1
    end.
Proof.
  revert i acc.
  induction r as [|r IH]; intros i acc Hi Hr Hlo Hhi; [simpl in Hhi; lra|].
  simpl App.getCurrentAudioTrack_loop.
  destruct (Qltb p (acc + getChapterDuration chs ad i)) eqn:E.
  - apply Qltb_true in E.
    destruct (chapter_exists chs i) as [ch Hch]; [lia|].
    rewrite Hch.
    assert (Hq : (0 <= p - acc)%Q) by lra.
    destruct (App.getCurrentAudioTrack_tracks ad (tracks ch) 0 0%Q (p - acc))
      as [t|] eqn:Et.
    + destruct (getCurrentAudioTrack_tracks_Some _ _ _ _ _ Et Hq)
        as (k & trk & Hk & -> & Hklo & Hkhi).
      exists 0%nat, (0 + Z.of_nat k), ch.
      rewrite !Z.add_0_r, Z.add_0_l. simpl sumChapterDurations.
      rewrite js_index_nat, Hk, (getTrackStartTime_firstn i ch k Hch).
      repeat split; try assumption; try lia. now left.
    + pose proof (getCurrentAudioTrack_tracks_None_prefix _ _ _ _ Et Hq)
        as Hall.
      exists 0%nat, (Z.of_nat (List.length (tracks ch)) - 1), ch.
      rewrite !Z.add_0_r. simpl sumChapterDurations.
      split; [reflexivity|]. split; [lia|]. split; [assumption|].
      split; [assumption|]. split; [assumption|].
      destruct (tracks ch) as [|x rest] eqn:Ets; [now split|].
      rewrite <- Ets in *.
      assert (Hlen : (0 < List.length (tracks ch))%nat)
        by (rewrite Ets; simpl; lia).
      replace (Z.of_nat (List.length (tracks ch)) - 1)
        with (Z.of_nat (List.length (tracks ch) - 1)) by lia.
      rewrite js_index_nat.
      destruct (nth_error (tracks ch) (List.length (tracks ch) - 1))
        as [trk|] eqn:Hlast; [|apply nth_error_None in Hlast; lia].
      rewrite (getTrackStartTime_firstn i ch _ Hch).
      split; [apply Hall|]. right. split; [reflexivity|].
      rewrite <- (fold_addTrack_firstn_S _ _ _ _ Hlast).
      apply Hall.
  - apply Qltb_false in E. simpl in Hhi.
    destruct (IH (i + 1) (acc + getChapterDuration chs ad i)%Q
                ltac:(lia) ltac:(lia) E Hhi)
      as (j & t & ch & Hres & Hj & Hch & Hplo & Hphi & Htrk).
    exists (S j), t, ch.
    replace (i + Z.of_nat (S j)) with (i + 1 + Z.of_nat j) by lia.
    change (sumChapterDurations chs ad (S j) i acc)
      with (sumChapterDurations chs ad j (i + 1)
              (acc + getChapterDuration chs ad i)%Q).
    repeat split; try assumption; lia.
Qed.

End SecondsLocate.


(** X12: the seconds-domain mapping finds a position for every time before
    the end, and the position agrees with the comparisons the mapping makes.
    Every time [p] with [0 <= p < sum of the chapter durations] resolves to
    a pair [(chapter, track)] whose chapter exists, starts at or before [p]
    ([getChapterStartTime(chapter) <= p]) and ends after it
    ([p < getChapterStartTime(chapter) + getChapterDuration(chapter)]).
    With [progressInChapter = p - getChapterStartTime(chapter)], as the code
    computes it, the track exists unless the chapter has no track at all,
    it starts at or before that time
    ([getTrackStartTime(chapter, track) <= progressInChapter]), and it ends
    after it ([progressInChapter < getTrackStartTime(chapter, track) +
    getTrackDuration(track)]) unless the time is at or past the end of all
    the tracks of the chapter, when the track is the chapter's last.  Each
    inequality is one the loops test, on the sums they accumulate. *)
Theorem current_audio_track_locates :
  forall (chs : list Chapter) (ad : option AudioDurationsData) (p : Q),
    (0 <= p)%Q ->
    (p < sumChapterDurations chs ad (List.length chs) 0 0)%Q ->
    exists (c t : Z) (ch : Chapter),
      App.getCurrentAudioTrack chs ad p
      = Some {| App.chapterIndex := c; App.trackIndex := t |} /\
      js_index chs c = Some ch /\
      (getChapterStartTime chs ad c <= p)%Q /\
      (p < getChapterStartTime chs ad c + getChapterDuration chs ad c)%Q /\
      let progressInChapter := (p - getChapterStartTime chs ad c)%Q in
      match js_index (tracks ch) t with
      | Some trk =>
        (getTrackStartTime chs ad c t <= progressInChapter)%Q /\
        ((progressInChapter
          < getTrackStartTime chs ad c t
            + getTrackDuration ad (audioFile trk))%Q \/
         (t = Z.of_nat (List.length (tracks ch)) - 1 /\
          (getTrackStartTime chs ad c t + getTrackDuration ad (audioFile trk)
           <= progressInChapter)%Q))
      | None => tracks ch = [] /\ t = -1
      end.
Proof.
  intros chs ad p Hlo Hhi.
  destruct (getCurrentAudioTrack_loop_compares chs ad (List.length chs) 0 0%Q p
              ltac:(lia) ltac:(lia) Hlo Hhi)
    as (j & t & ch & Hres & Hj & Hch & Hplo & Hphi & Htrk).
  rewrite Z.add_0_l in *.
  exists (Z.of_nat j), t, ch.
  pose proof (getChapterStartTime_prefix_sum chs ad j ltac:(lia)) as Hs.
  split; [assumption|]. split; [assumption|].
  split; [now rewrite Hs|]. split; [now rewrite Hs|].
  cbv zeta. destruct (js_index (tracks ch) t) as [trk|]; [|assumption].
  destruct Htrk as [Hts Hend]. split; [now rewrite Hs|].
  destruct Hend as [Hin|[Hlast Hpast]]; [left|right; split; [assumption|]];
    now rewrite Hs.
Qed.

Lemma current_audio_track_locates_witness :
  exists (c t : Z) (ch : Chapter),
    App.getCurrentAudioTrack CHAPTERS (Some threeTrackDurations) 75
    = Some {| App.chapterIndex := c; App.trackIndex := t |} /\
    js_index CHAPTERS c = Some ch /\
    (getChapterStartTime CHAPTERS (Some threeTrackDurations) c <= 75)%Q /\
    (75 < getChapterStartTime CHAPTERS (Some threeTrackDurations) c
          + getChapterDuration CHAPTERS (Some threeTrackDurations) c)%Q /\
    let progressInChapter :=
      (75 - getChapterStartTime CHAPTERS (Some threeTrackDurations) c)%Q in
    match js_index (tracks ch) t with
    | Some trk =>
      (getTrackStartTime CHAPTERS (Some threeTrackDurations) c t
       <= progressInChapter)%Q /\
      ((progressInChapter
        < getTrackStartTime CHAPTERS (Some threeTrackDurations) c t
          + getTrackDuration (Some threeTrackDurations) (audioFile trk))%Q \/
       (t = Z.of_nat (List.length (tracks ch)) - 1 /\
        (getTrackStartTime CHAPTERS (Some threeTrackDurations) c t
         + getTrackDuration (Some threeTrackDurations) (audioFile trk)
         <= progressInChapter)%Q))
    | None => tracks ch = [] /\ t = -1
    end.
Proof.
  apply (current_audio_track_locates CHAPTERS (Some threeTrackDurations) 75).
  - q_concrete.
  - q_concrete.
Defined.

(** ** More on the seek handler *)

Lemma clamp_bounds lo hi x :
  (lo <= hi)%Q -> (lo <= Qmax lo (Qmin x hi))%Q /\ (Qmax lo (Qmin x hi) <= hi)%Q.
Proof.
  intros H. split.
  - apply Q.le_max_l.
  - apply Q.max_lub; [assumption|apply Q.le_min_r].
Qed.

Section SeekFacts.

Variable chs : list Chapter.
Variable ad : option AudioDurationsData.

Lemma getCurrentAudioTrack_tracks_index ts idx tacc q j :
  App.getCurrentAudioTrack_tracks ad ts idx tacc q = Some j ->
  exists (i : nat) (trk : Track), nth_error ts i = Some trk /\ j = idx + Z.of_nat i.
Proof.
  revert idx tacc. induction ts as [|x rest IH]; intros idx tacc; simpl;
    [discriminate|].
  destruct (Qltb q (tacc + getTrackDuration ad (audioFile x))).
  - intros [= <-]. exists 0%nat, x. split; [reflexivity|lia].
  - intros Hj. destruct (IH _ _ Hj) as (i & trk & Hi & ->).
    exists (S i), trk. split; [assumption|lia].
Qed.

(** When every chapter has a track, the pair [getCurrentAudioTrack] returns
    designates a track. *)
Lemma getCurrentAudioTrack_loop_valid r i acc p at_ :
  List.Forall (fun ch => tracks ch <> []) chs ->
  0 <= i -> i + Z.of_nat r <= Z.of_nat (List.length chs) ->
  App.getCurrentAudioTrack_loop chs ad r i acc p = Some at_ ->
  exists trk, App.trackAt chs (App.chapterIndex at_) (App.trackIndex at_) = Some trk.
Proof.
  intros Hall. revert i acc.
  induction r as [|r IH]; intros i acc Hi Hr; simpl; [discriminate|].
  destruct (Qltb p (acc + getChapterDuration chs ad i)).
  - destruct (chapter_exists chs i) as [ch Hch]; [lia|].
    rewrite Hch. unfold App.trackAt.
    destruct (App.getCurrentAudioTrack_tracks ad (tracks ch) 0 0%Q (p - acc))
      as [t|] eqn:Et.
    + intros [= <-]. simpl. rewrite Hch.
      destruct (getCurrentAudioTrack_tracks_index _ _ _ _ _ Et)
        as (k & trk & Hk & ->).
      exists trk. now rewrite Z.add_0_l, js_index_nat.
    + intros [= <-]. simpl. rewrite Hch.
      apply last_track_exists. now apply (chapter_has_track chs i ch).
  - apply IH; lia.
Qed.

End SeekFacts.

(** X13: when every chapter has at least one track, [handleSeek] never fails
    on a property of [undefined]: for every state and every target it
    returns. *)
Theorem handleSeek_never_throws :
  forall (chs : list Chapter) (ad : option AudioDurationsData)
         (st : App.State) (targetProgress : Q) (now : Z) (playStarts : bool),
    List.Forall (fun ch => tracks ch <> []) chs ->
    exists st',
      App.handleSeek chs ad st targetProgress now playStarts = App.Returned st'.
Proof.
  intros chs ad st targetProgress now playStarts Hall. unfold App.handleSeek.
  destruct (App.audioRef st) as [audio|]; [|now eexists].
  destruct (negb (App.isAudioStarted st)); [now eexists|].
  destruct (App.getCurrentAudioTrack chs ad _) as [at_|] eqn:Eat; [|now eexists].
  destruct (getCurrentAudioTrack_loop_valid chs ad (List.length chs) 0 _ _ at_
              Hall ltac:(lia) ltac:(lia) Eat) as [trk Htrk].
  cbv zeta.
  rewrite (handleSeek_loop_is_getTrackStartTime chs ad _ _ trk Htrk), Htrk.
  now eexists.
Qed.

Lemma handleSeek_never_throws_witness :
  exists st',
    App.handleSeek CHAPTERS (Some negativeEntryDurations) playingSecondTrack
      600%Q 2000 false
    = App.Returned st'.
Proof.
  apply (handleSeek_never_throws CHAPTERS (Some negativeEntryDurations)
           playingSecondTrack 600%Q 2000 false).
  apply CHAPTERS_have_tracks.
Defined.

(** X14: a seek that resolves to another track than the loaded one (or with
    nothing loaded) switches to it: the audio source becomes that track's
    file, the position the offset of the target within the track, clamped to
    the track; the loaded-track record and both indices become the resolved
    pair, the published progress the clamped target. *)
Theorem handleSeek_switches_track :
  forall (chs : list Chapter) (ad : option AudioDurationsData)
         (st : App.State) (targetProgress : Q) (now : Z) (playStarts : bool)
         (audio : App.HTMLAudioElement) (c t : Z) (trk : Track),
    let clamped := Qmax 0 (Qmin targetProgress (getTotalDuration chs ad)) in
    App.audioRef st = Some audio ->
    App.isAudioStarted st = true ->
    App.getCurrentAudioTrack chs ad clamped
    = Some {| App.chapterIndex := c; App.trackIndex := t |} ->
    App.trackAt chs c t = Some trk ->
    App.currentAudioIndexRef st
    <> Some {| App.chapterIndex := c; App.trackIndex := t |} ->
    App.handleSeek chs ad st targetProgress now playStarts
    = App.Returned
        {| App.audioRef :=
             Some {| App.src := audioFile trk;
                     App.currentTime :=
                       Qmax 0
                         (Qmin (clamped - getChapterStartTime chs ad c
                                - getTrackStartTime chs ad c t)
                               (getTrackDuration ad (audioFile trk)));
                     App.paused := negb playStarts |};
           App.currentAudioIndexRef :=
             Some {| App.chapterIndex := c; App.trackIndex := t |};
           App.currentChapterIndex := c;
           App.currentTrackIndex := t;
           App.currentProgress := clamped;
           App.isAudioStarted := true;
           App.chapterStartTimeRef := now |}.
Proof.
  intros chs ad st targetProgress now playStarts audio c t trk clamped
         Haudio Hstarted Hres Htrk Hne.
  unfold App.handleSeek. fold clamped.
  rewrite Haudio, Hstarted. simpl negb. cbv iota. rewrite Hres. cbv zeta.
  simpl App.chapterIndex. simpl App.trackIndex.
  rewrite (handleSeek_loop_is_getTrackStartTime chs ad c t trk Htrk), Htrk.
  assert (Hsw : match App.currentAudioIndexRef st with
                | Some currentAudio =>
                  negb (App.chapterIndex currentAudio =? c)
                  || negb (App.trackIndex currentAudio =? t)
                | None => true
                end = true).
  { destruct (App.currentAudioIndexRef st) as [[c' t']|]; [|reflexivity].
    simpl. destruct (Z.eqb_spec c' c) as [->|]; [|reflexivity].
    destruct (Z.eqb_spec t' t) as [->|]; [|reflexivity].
    now contradiction Hne. }
  rewrite Hsw. simpl. reflexivity.
Qed.

Lemma handleSeek_switches_track_witness :
  App.handleSeek CHAPTERS (Some threeTrackDurations) playingSecondTrack
    185%Q 2000 true
  = App.Returned
      {| App.audioRef :=
           Some {| App.src := "a_02_01.mp3";
                   App.currentTime :=
                     Qmax 0
                       (Qmin (Qmax 0
                                (Qmin 185
                                   (getTotalDuration CHAPTERS
                                      (Some threeTrackDurations)))
                              - getChapterStartTime CHAPTERS
                                  (Some threeTrackDurations) 1
                              - getTrackStartTime CHAPTERS
                                  (Some threeTrackDurations) 1 0)
                             (getTrackDuration (Some threeTrackDurations)
                                "a_02_01.mp3"));
                   App.paused := negb true |};
         App.currentAudioIndexRef :=
           Some {| App.chapterIndex := 1; App.trackIndex := 0 |};
         App.currentChapterIndex := 1;
         App.currentTrackIndex := 0;
         App.currentProgress :=
           Qmax 0 (Qmin 185 (getTotalDuration CHAPTERS (Some threeTrackDurations)));
         App.isAudioStarted := true;
         App.chapterStartTimeRef := 2000 |}.
Proof.
  apply (handleSeek_switches_track CHAPTERS (Some threeTrackDurations)
           playingSecondTrack 185%Q 2000 true
           {| App.src := "a_01_02.mp3"; App.currentTime := 5%Q;
              App.paused := false |}
           1 0 {| audioFile := "a_02_01.mp3" |});
    try reflexivity.
  discriminate.
Defined.

(** X15: a seek keeps the published progress within [[0, totalDuration]]:
    when the total is non-negative and the progress was in that range, it
    still is after [handleSeek], whatever the target. *)
Theorem handleSeek_keeps_progress_in_range :
  forall (chs : list Chapter) (ad : option AudioDurationsData)
         (st : App.State) (targetProgress : Q) (now : Z) (playStarts : bool),
    (0 <= getTotalDuration chs ad)%Q ->
    (0 <= App.currentProgress st)%Q ->
    (App.currentProgress st <= getTotalDuration chs ad)%Q ->
    let st' := App.final (App.handleSeek chs ad st targetProgress now playStarts) in
    (0 <= App.currentProgress st')%Q /\
    (App.currentProgress st' <= getTotalDuration chs ad)%Q.
Proof.
  intros chs ad st targetProgress now playStarts Htot Hlo Hhi st'. subst st'.
  unfold App.handleSeek.
  destruct (App.audioRef st) as [audio|]; [|now split].
  destruct (negb (App.isAudioStarted st)); [now split|].
  destruct (App.getCurrentAudioTrack chs ad _) as [at_|]; [|now split].
  cbv zeta.
  destruct (App.handleSeek_loop chs ad _ _ _ _); [|now split].
  destruct (App.trackAt chs _ _); [|now split].
  simpl. now apply clamp_bounds.
Qed.

Lemma handleSeek_keeps_progress_in_range_witness :
  (0 <= App.currentProgress
          (App.final (App.handleSeek CHAPTERS None playingSecondTrack
                        (-50)%Q 2000 true)))%Q /\
  (App.currentProgress
     (App.final (App.handleSeek CHAPTERS None playingSecondTrack
                   (-50)%Q 2000 true))
   <= getTotalDuration CHAPTERS None)%Q.
Proof.
  apply (handleSeek_keeps_progress_in_range CHAPTERS None playingSecondTrack
           (-50)%Q 2000 true); q_concrete.
Defined.

(** X16: a seek to the end of the timeline or beyond is ignored: when no
    chapter duration is negative and the total is at least the sum of the
    chapter durations, a target at or past the total resolves to no track
    and [handleSeek] returns the state as it was. *)
Theorem handleSeek_at_the_end_is_ignored :
  forall (chs : list Chapter) (ad : option AudioDurationsData)
         (st : App.State) (targetProgress : Q) (now : Z) (playStarts : bool),
    (forall k, 0 <= getChapterDuration chs ad k)%Q ->
    (sumChapterDurations chs ad (List.length chs) 0 0
     <= getTotalDuration chs ad)%Q ->
    (getTotalDuration chs ad <= targetProgress)%Q ->
    App.handleSeek chs ad st targetProgress now playStarts = App.Returned st.
Proof.
  intros chs ad st targetProgress now playStarts Hnn Hsum Htarget.
  unfold App.handleSeek.
  destruct (App.audioRef st) as [audio|]; [|reflexivity].
  destruct (negb (App.isAudioStarted st)); [reflexivity|].
  cbv zeta.
  assert (Hnone : App.getCurrentAudioTrack chs ad
                    (Qmax 0 (Qmin targetProgress (getTotalDuration chs ad)))
                  = None).
  { apply getCurrentAudioTrack_loop_None; [assumption|].
    apply Qle_trans with (Qmin targetProgress (getTotalDuration chs ad)).
    - apply Q.min_glb; lra.
    - apply Q.le_max_r. }
  now rewrite Hnone.
Qed.

Lemma handleSeek_at_the_end_is_ignored_witness :
  App.handleSeek CHAPTERS None playingSecondTrack 1800%Q 2000 true
  = App.Returned playingSecondTrack.
Proof.
  apply (handleSeek_at_the_end_is_ignored CHAPTERS None playingSecondTrack
           1800%Q 2000 true).
  - apply fallback_chapters_nonneg.
  - q_concrete.
  - q_concrete.
Defined.

(** ** The driver keeps its record, its audio element and its indices in step *)

Section DriverInvariant.

Variable chs : list Chapter.
Variable ad : option AudioDurationsData.

Lemma consistent_loaded st c t file audio :
  App.isAudioStarted st = true ->
  App.currentAudioIndexRef st
  = Some {| App.chapterIndex := c; App.trackIndex := t |} ->
  App.currentChapterIndex st = c -> App.currentTrackIndex st = t ->
  App.audioRef st = Some audio -> App.src audio = file ->
  App.getAudioFilePath chs c t = Some file ->
  consistent chs st.
Proof.
  intros Hs Hr Hc Ht Ha Hsrc Hf. unfold consistent. rewrite Hr. simpl.
  repeat split; try assumption. exists audio. now subst file.
Qed.

Lemma getAudioFilePath_trackAt c t trk :
  App.trackAt chs c t = Some trk ->
  App.getAudioFilePath chs c t = Some (audioFile trk).
Proof. intros H. unfold App.getAudioFilePath. now rewrite H. Qed.

(** Closes [consistent] for a state whose fields are in view. *)
Ltac loaded c t file :=
  eapply (consistent_loaded _ c t file); simpl;
  solve [ reflexivity | eassumption | congruence
        | apply getAudioFilePath_trackAt; eassumption ].

Lemma handleSeek_consistent st target now playStarts :
  consistent chs st ->
  consistent chs (App.final (App.handleSeek chs ad st target now playStarts)).
Proof.
  intros Hinv. unfold App.handleSeek.
  destruct (App.audioRef st) as [audio|] eqn:Ha; [|exact Hinv].
  destruct (App.isAudioStarted st) eqn:Hs; [|exact Hinv]. simpl negb. cbv iota.
  destruct (App.getCurrentAudioTrack chs ad _) as [[c t]|]; [|exact Hinv].
  cbv zeta. simpl App.chapterIndex. simpl App.trackIndex.
  destruct (App.handleSeek_loop chs ad c (Z.to_nat t) 0 0%Q); [|exact Hinv].
  destruct (App.trackAt chs c t) as [trk|] eqn:Ht; [|exact Hinv].
  unfold consistent in Hinv.
  destruct (App.currentAudioIndexRef st) as [[c' t']|] eqn:Hr.
  - simpl in Hinv. destruct Hinv as (_ & Hc & Htr & audio' & Ha' & Hf).
    rewrite Ha in Ha'. injection Ha' as <-.
    cbn [App.chapterIndex App.trackIndex].
    destruct (Z.eqb_spec c' c) as [->|Hne]; simpl.
    + destruct (Z.eqb_spec t' t) as [->|Hne]; simpl.
      * loaded c t (App.src audio).
      * loaded c t (audioFile trk).
    + loaded c t (audioFile trk).
  - simpl.
    loaded c t (audioFile trk).
Qed.

Lemma handleTrackEnd_consistent st now playStarts :
  consistent chs st ->
  consistent chs (App.final (fst (handleTrackEnd chs ad st now playStarts))).
Proof.
  intros Hinv. unfold handleTrackEnd.
  destruct (App.currentAudioIndexRef st) as [[c t]|] eqn:Hr; [|exact Hinv].
  destruct (App.audioRef st) as [audio|] eqn:Ha; [|exact Hinv].
  simpl App.chapterIndex. simpl App.trackIndex.
  assert (Hinv' := Hinv). unfold consistent in Hinv'. rewrite Hr in Hinv'.
  simpl in Hinv'. destruct Hinv' as (Hs & Hc & Htr & audio' & Ha' & Hf).
  rewrite Ha in Ha'. injection Ha' as <-.
  assert (Hpaused : consistent chs (withAudio st (pauseAudio audio))).
  { loaded c t (App.src (pauseAudio audio)). }
  destruct (js_index chs c) as [ch|]; [|exact Hinv].
  destruct (t <? Z.of_nat (List.length (tracks ch)) - 1).
  - destruct (App.getAudioFilePath chs c (t + 1)) as [file|] eqn:Ef;
      [|exact Hpaused].
    simpl. loaded c (t + 1) file.
  - destruct (c <? Z.of_nat (List.length chs) - 1).
    + destruct (App.getAudioFilePath chs (c + 1) 0) as [file|] eqn:Ef;
        [|exact Hpaused].
      simpl. loaded (c + 1) 0 file.
    + simpl. loaded c t (App.src audio).
Qed.

Lemma handleStartAudio_consistent st now playStarts :
  consistent chs st -> App.isAudioStarted st = false ->
  consistent chs (handleStartAudio chs st now playStarts).
Proof.
  intros Hinv Hs. unfold handleStartAudio.
  destruct (App.audioRef st) as [audio|]; [|exact Hinv].
  destruct (App.getAudioFilePath chs 0 0) as [file|] eqn:Ef; [|exact Hinv].
  destruct playStarts.
  - loaded 0 0 file.
  - unfold consistent in *. simpl.
    destruct (App.currentAudioIndexRef st); [|exact I].
    destruct Hinv as (Hs' & _). congruence.
Qed.

Lemma updateProgress_consistent st cap1 cap2 :
  consistent chs st ->
  consistent chs (App.final (updateProgress chs ad cap1 cap2 st)).
Proof.
  intros Hinv. unfold updateProgress.
  destruct (negb (App.isAudioStarted st)); [exact Hinv|].
  destruct (App.currentAudioIndexRef st) as [[c t]|] eqn:Hr; [|exact Hinv].
  destruct (App.audioRef st) as [audio|] eqn:Ha; [|exact Hinv].
  destruct (App.paused audio); [exact Hinv|].
  simpl App.chapterIndex. simpl App.trackIndex.
  destruct (totalPlayedTime chs ad c t (App.currentTime audio)); [|exact Hinv].
  unfold consistent in Hinv. rewrite Hr in Hinv. simpl in Hinv.
  destruct Hinv as (Hs & Hc & Htr & audio' & Ha' & Hf).
  rewrite Ha in Ha'. injection Ha' as <-. simpl.
  eapply (consistent_loaded _ c t (App.src audio)); simpl;
    try eassumption; try reflexivity.
  - now destruct (negb (c =? cap1)).
  - now destruct (negb (t =? cap2)).
Qed.

Lemma handleKeyDown_consistent mode key st audioDuration now playStarts :
  consistent chs st ->
  consistent chs
    (App.final (handleKeyDown chs ad mode key st audioDuration now playStarts)).
Proof.
  intros Hinv. unfold handleKeyDown.
  destruct ((String.eqb key " " || String.eqb key "Spacebar")
            && (String.eqb mode "playback" && negb (App.isAudioStarted st)))
    eqn:Espace.
  - simpl. apply handleStartAudio_consistent; [assumption|].
    apply andb_true_iff in Espace as [_ E].
    apply andb_true_iff in E as [_ E]. now apply negb_true_iff in E.
  - destruct (negb (App.isAudioStarted st)); [exact Hinv|].
    destruct (App.currentAudioIndexRef st) as [[c t]|] eqn:Hr; [|exact Hinv].
    destruct (App.audioRef st) as [audio|] eqn:Ha; [|exact Hinv].
    simpl App.chapterIndex. simpl App.trackIndex.
    assert (Hinv' := Hinv). unfold consistent in Hinv'. rewrite Hr in Hinv'.
    simpl in Hinv'. destruct Hinv' as (Hs & Hc & Htr & audio' & Ha' & Hf).
    rewrite Ha in Ha'. injection Ha' as <-.
    assert (Hmoved : forall time,
      consistent chs
        (withAudio st {| App.src := App.src audio; App.currentTime := time;
                         App.paused := App.paused audio |})).
    { intros time. loaded c t (App.src audio). }
    assert (Hset : forall time p,
      consistent chs
        (setCurrentProgress
           (withAudio st {| App.src := App.src audio; App.currentTime := time;
                            App.paused := App.paused audio |}) p)).
    { intros time p. loaded c t (App.src audio). }
    destruct (String.eqb key "ArrowRight").
    + destruct (App.trackAt chs c t) as [trk|]; [|exact Hinv]. cbv zeta.
      destruct (totalPlayedTime chs ad c t _); cbn [App.final];
        [apply Hset|apply Hmoved].
    + destruct (String.eqb key "ArrowLeft"); [|exact Hinv].
      destruct (App.trackAt chs c t) as [trk|]; [|exact Hinv]. cbv zeta.
      destruct (totalPlayedTime chs ad c t _); cbn [App.final];
        [apply Hset|apply Hmoved].
Qed.

Lemma syncAudioToProgress_consistent st audioDuration now playStarts :
  consistent chs st ->
  consistent chs
    (App.final (syncAudioToProgress chs ad st audioDuration now playStarts)).
Proof.
  intros Hinv. unfold syncAudioToProgress.
  destruct (App.audioRef st) as [audio|] eqn:Ha; [|exact Hinv].
  destruct (App.isAudioStarted st) eqn:Hs; [|exact Hinv]. simpl negb. cbv iota.
  destruct (App.currentAudioIndexRef st) as [[c' t']|] eqn:Hr; [|exact Hinv].
  destruct (App.getCurrentAudioTrack chs ad _) as [[c t]|]; [|exact Hinv].
  cbv zeta. simpl App.chapterIndex. simpl App.trackIndex.
  destruct (negb (negb (c' =? c) || negb (t' =? t))); [exact Hinv|].
  destruct (negb (App.paused audio) && _); [exact Hinv|].
  destruct (App.handleSeek_loop chs ad c (Z.to_nat t) 0 0%Q); [|exact Hinv].
  destruct (App.trackAt chs c t) as [trk|] eqn:Ht; [|exact Hinv].
  simpl.
  loaded c t (audioFile trk).
Qed.

End DriverInvariant.

(** X17: the driver keeps its loaded-track record, its audio element and its
    two indices in step.  If, with a track recorded as loaded, the player is
    started, the audio source is that track's file and the current chapter
    and track indices are those of the record, then the same holds after a
    seek, a track end, a key, a polling tick (whatever indices its closure
    captured), the progress-sync effect, and a start requested while the
    player is not started; also when a handler fails on a missing track. *)
Theorem driver_keeps_record_and_audio_in_step :
  forall (chs : list Chapter) (ad : option AudioDurationsData)
         (st : App.State) (target : Q) (now : Z) (playStarts : bool)
         (mode key : string) (audioDuration : option Q) (cap1 cap2 : Z),
    consistent chs st ->
    consistent chs (App.final (App.handleSeek chs ad st target now playStarts)) /\
    consistent chs (App.final (fst (handleTrackEnd chs ad st now playStarts))) /\
    consistent chs
      (App.final (handleKeyDown chs ad mode key st audioDuration now playStarts)) /\
    consistent chs (App.final (updateProgress chs ad cap1 cap2 st)) /\
    consistent chs
      (App.final (syncAudioToProgress chs ad st audioDuration now playStarts)) /\
    (App.isAudioStarted st = false ->
     consistent chs (handleStartAudio chs st now playStarts)).
Proof.
  intros chs ad st target now playStarts mode key audioDuration cap1 cap2 Hinv.
  split; [now apply handleSeek_consistent|].
  split; [now apply handleTrackEnd_consistent|].
  split; [now apply handleKeyDown_consistent|].
  split; [now apply updateProgress_consistent|].
  split; [now apply syncAudioToProgress_consistent|].
  now apply handleStartAudio_consistent.
Qed.

Lemma playingSecondTrack_consistent : consistent CHAPTERS playingSecondTrack.
Proof.
  unfold consistent. simpl. repeat split.
  exists {| App.src := "a_01_02.mp3"; App.currentTime := 5%Q;
            App.paused := false |}.
  split; reflexivity.
Qed.

Lemma driver_keeps_record_and_audio_in_step_witness :
  consistent CHAPTERS
    (App.final (App.handleSeek CHAPTERS None playingSecondTrack 700%Q 2000 true)) /\
  consistent CHAPTERS
    (App.final (fst (handleTrackEnd CHAPTERS None playingSecondTrack 2000 true))).
Proof.
  destruct (driver_keeps_record_and_audio_in_step CHAPTERS None
              playingSecondTrack 700%Q 2000 true "playback" "ArrowRight"
              None 0 1 playingSecondTrack_consistent)
    as (Hseek & Hend & _).
  split; assumption.
Defined.

(** ** Track ends *)

Lemma firstn_S_snoc {A} (l : list A) n x :
  nth_error l n = Some x -> firstn (S n) l = (firstn n l ++ [x])%list.
Proof.
  revert l. induction n as [|n IH]; intros [|y l]; simpl; try discriminate.
  - now intros [= ->].
  - intros H. now rewrite <- IH.
Qed.

(** The first track of the next chapter follows the last track of this one. *)
Lemma trackNumber_next_chapter chs c ch :
  js_index chs c = Some ch ->
  trackNumber chs (c + 1) 0
  = trackNumber chs c (Z.of_nat (List.length (tracks ch))).
Proof.
  intros Hch. pose proof (js_index_Some_range _ _ _ Hch) as Hr.
  unfold trackNumber, js_index in *.
  destruct (Z.ltb_spec c 0); [lia|].
  replace (Z.to_nat (c + 1)) with (S (Z.to_nat c)) by lia.
  rewrite (firstn_S_snoc _ _ _ Hch), map_app, concat_app, length_app.
  simpl. rewrite app_nil_r. lia.
Qed.

(** X18: the end of a track moves the player to the next track in playing
    order.  When every chapter has a track and the loaded pair designates a
    track other than the last track of the last chapter, [handleTrackEnd]
    returns with a loaded pair that designates a track, exactly one position
    further in the order of play (the next track of the chapter, or the
    first track of the next chapter); the audio element holds that track's
    file at position 0, and no recording stop is requested. *)
Theorem handleTrackEnd_plays_next_track :
  forall (chs : list Chapter) (ad : option AudioDurationsData)
         (st : App.State) (now : Z) (playStarts : bool)
         (audio : App.HTMLAudioElement) (c t : Z) (ch : Chapter) (trk : Track),
    List.Forall (fun ch => tracks ch <> []) chs ->
    App.audioRef st = Some audio ->
    App.currentAudioIndexRef st
    = Some {| App.chapterIndex := c; App.trackIndex := t |} ->
    js_index chs c = Some ch ->
    js_index (tracks ch) t = Some trk ->
    t + 1 < Z.of_nat (List.length (tracks ch))
      \/ c + 1 < Z.of_nat (List.length chs) ->
    exists st' c' t' trk',
      handleTrackEnd chs ad st now playStarts = (App.Returned st', false) /\
      App.currentAudioIndexRef st'
      = Some {| App.chapterIndex := c'; App.trackIndex := t' |} /\
      App.trackAt chs c' t' = Some trk' /\
      App.audioRef st'
      = Some {| App.src := audioFile trk'; App.currentTime := 0%Q;
                App.paused := negb playStarts |} /\
      trackNumber chs c' t' = trackNumber chs c t + 1.
Proof.
  intros chs ad st now playStarts audio c t ch trk Hall Ha Hr Hch Ht Hnext.
  pose proof (js_index_Some_range _ _ _ Ht) as Htr.
  unfold handleTrackEnd. rewrite Hr, Ha. cbn [App.chapterIndex App.trackIndex].
  rewrite Hch.
  destruct (Z.ltb_spec t (Z.of_nat (List.length (tracks ch)) - 1)) as [Hlt|Hge].
  - destruct (js_index (tracks ch) (t + 1)) as [trk'|] eqn:Et'.
    + assert (Hta : App.trackAt chs c (t + 1) = Some trk')
        by (unfold App.trackAt; now rewrite Hch).
      unfold App.getAudioFilePath. rewrite Hta. simpl option_map.
      eexists _, c, (t + 1), trk'. split; [reflexivity|]. simpl.
      repeat split; try assumption. unfold trackNumber. lia.
    + exfalso. unfold js_index in Et'. destruct (Z.ltb_spec (t + 1) 0); [lia|].
      apply nth_error_None in Et'. lia.
  - destruct Hnext as [Hnext|Hnext]; [lia|].
    destruct (Z.ltb_spec c (Z.of_nat (List.length chs) - 1)) as [_|]; [|lia].
    pose proof (js_index_Some_range _ _ _ Hch) as Hcr.
    destruct (chapter_exists chs (c + 1)) as [ch' Hch']; [lia|].
    pose proof (chapter_has_track chs (c + 1) ch' Hall Hch') as Hne.
    destruct (tracks ch') as [|trk' rest] eqn:Etr; [congruence|].
    assert (Hta : App.trackAt chs (c + 1) 0 = Some trk')
      by (unfold App.trackAt; rewrite Hch', Etr; reflexivity).
    unfold App.getAudioFilePath. rewrite Hta. simpl option_map.
    eexists _, (c + 1), 0, trk'. split; [reflexivity|]. simpl.
    repeat split; try assumption.
    rewrite (trackNumber_next_chapter chs c ch Hch). unfold trackNumber. lia.
Qed.

Lemma handleTrackEnd_plays_next_track_witness :
  exists st' c' t' trk',
    handleTrackEnd CHAPTERS None
      {| App.audioRef := Some {| App.src := "a_01_03.mp3";
                                 App.currentTime := 180%Q;
                                 App.paused := false |};
         App.currentAudioIndexRef :=
           Some {| App.chapterIndex := 0; App.trackIndex := 2 |};
         App.currentChapterIndex := 0;
         App.currentTrackIndex := 2;
         App.currentProgress := 540%Q;
         App.isAudioStarted := true;
         App.chapterStartTimeRef := 1000 |} 2000 true
    = (App.Returned st', false) /\
    App.currentAudioIndexRef st'
    = Some {| App.chapterIndex := c'; App.trackIndex := t' |} /\
    App.trackAt CHAPTERS c' t' = Some trk' /\
    App.audioRef st'
    = Some {| App.src := audioFile trk'; App.currentTime := 0%Q;
              App.paused := negb true |} /\
    trackNumber CHAPTERS c' t' = trackNumber CHAPTERS 0 2 + 1.
Proof.
  apply (handleTrackEnd_plays_next_track CHAPTERS None _ 2000 true
           {| App.src := "a_01_03.mp3"; App.currentTime := 180%Q;
              App.paused := false |}
           0 2
           {| id := 1; title := "Movement I: The Silent Colossus";
              video := "01.mp4";
              tracks := [ {| audioFile := "a_01_01.mp3" |};
                          {| audioFile := "a_01_02.mp3" |};
                          {| audioFile := "a_01_03.mp3" |} ] |}
           {| audioFile := "a_01_03.mp3" |});
    try reflexivity.
  - apply CHAPTERS_have_tracks.
  - right. simpl. lia.
Defined.

(** X19: the end of the last track of the last chapter completes playback:
    [handleTrackEnd] pauses the audio element and rewinds it to 0, pins the
    published progress to [totalDuration], asks for the recording to be
    stopped, and leaves everything else (loaded pair, indices, source) as it
    was. *)
Theorem handleTrackEnd_completes_playback :
  forall (chs : list Chapter) (ad : option AudioDurationsData)
         (st : App.State) (now : Z) (playStarts : bool)
         (audio : App.HTMLAudioElement) (c t : Z) (ch : Chapter),
    App.audioRef st = Some audio ->
    App.currentAudioIndexRef st
    = Some {| App.chapterIndex := c; App.trackIndex := t |} ->
    js_index chs c = Some ch ->
    Z.of_nat (List.length (tracks ch)) <= t + 1 ->
    Z.of_nat (List.length chs) <= c + 1 ->
    handleTrackEnd chs ad st now playStarts
    = (App.Returned
         {| App.audioRef := Some {| App.src := App.src audio;
                                    App.currentTime := 0%Q;
                                    App.paused := true |};
            App.currentAudioIndexRef := App.currentAudioIndexRef st;
            App.currentChapterIndex := App.currentChapterIndex st;
            App.currentTrackIndex := App.currentTrackIndex st;
            App.currentProgress := getTotalDuration chs ad;
            App.isAudioStarted := App.isAudioStarted st;
            App.chapterStartTimeRef := App.chapterStartTimeRef st |}, true).
Proof.
  intros chs ad st now playStarts audio c t ch Ha Hr Hch Ht Hc.
  unfold handleTrackEnd. rewrite Hr, Ha. cbn [App.chapterIndex App.trackIndex].
  rewrite Hch.
  destruct (Z.ltb_spec t (Z.of_nat (List.length (tracks ch)) - 1)); [lia|].
  destruct (Z.ltb_spec c (Z.of_nat (List.length chs) - 1)); [lia|].
  unfold setCurrentProgress, withAudio. simpl. now rewrite Hr.
Qed.

Lemma handleTrackEnd_completes_playback_witness :
  snd (handleTrackEnd CHAPTERS None
         {| App.audioRef := Some {| App.src := "a_04_02.mp3";
                                    App.currentTime := 180%Q;
                                    App.paused := false |};
            App.currentAudioIndexRef :=
              Some {| App.chapterIndex := 3; App.trackIndex := 1 |};
            App.currentChapterIndex := 3;
            App.currentTrackIndex := 1;
            App.currentProgress := 1799%Q;
            App.isAudioStarted := true;
            App.chapterStartTimeRef := 1000 |} 2000 true) = true.
Proof.
  rewrite (handleTrackEnd_completes_playback CHAPTERS None _ 2000 true
             {| App.src := "a_04_02.mp3"; App.currentTime := 180%Q;
                App.paused := false |}
             3 1
             {| id := 4; title := "Movement IV: White Oblivion";
                video := "04.mp4";
                tracks := [ {| audioFile := "a_04_01.mp3" |};
                            {| audioFile := "a_04_02.mp3" |} ] |});
    try reflexivity; simpl; lia.
Defined.

(** ** Starting, keys and the polling tick *)

(** X20: [handleStartAudio] starts the player only once [audio.play()] has
    succeeded.  When playback starts, the first track of the first chapter
    is loaded at position 0, recorded as the loaded pair, and the player is
    marked started.  When it does not (no audio element, no first track, or
    [play()] rejected), the started flag, the loaded-track record, the
    indices, the progress and the reference time are left untouched. *)
Theorem handleStartAudio_starts_only_on_success :
  forall (chs : list Chapter) (st : App.State) (now : Z) (playStarts : bool),
    (forall audio file,
        App.audioRef st = Some audio ->
        App.getAudioFilePath chs 0 0 = Some file ->
        playStarts = true ->
        handleStartAudio chs st now playStarts
        = {| App.audioRef := Some {| App.src := file; App.currentTime := 0%Q;
                                     App.paused := false |};
             App.currentAudioIndexRef :=
               Some {| App.chapterIndex := 0; App.trackIndex := 0 |};
             App.currentChapterIndex := 0;
             App.currentTrackIndex := 0;
             App.currentProgress := App.currentProgress st;
             App.isAudioStarted := true;
             App.chapterStartTimeRef := now |}) /\
    (App.audioRef st = None \/ App.getAudioFilePath chs 0 0 = None
       \/ playStarts = false ->
     let st' := handleStartAudio chs st now playStarts in
     App.isAudioStarted st' = App.isAudioStarted st /\
     App.currentAudioIndexRef st' = App.currentAudioIndexRef st /\
     App.currentChapterIndex st' = App.currentChapterIndex st /\
     App.currentTrackIndex st' = App.currentTrackIndex st /\
     App.currentProgress st' = App.currentProgress st /\
     App.chapterStartTimeRef st' = App.chapterStartTimeRef st).
Proof.
  intros chs st now playStarts. unfold handleStartAudio. split.
  - intros audio file -> -> ->. reflexivity.
  - intros Hfail.
    destruct (App.audioRef st) as [audio|]; [|repeat split].
    destruct (App.getAudioFilePath chs 0 0) as [file|]; [|repeat split].
    destruct playStarts; [|repeat split].
    destruct Hfail as [H|[H|H]]; discriminate.
Qed.

(** X21: keys that do not apply are ignored.  Space does nothing once the
    player is started, and never starts it outside playback mode; the arrow
    keys do nothing before the player is started; any other key does
    nothing. *)
Theorem handleKeyDown_ignores_other_keys :
  forall (chs : list Chapter) (ad : option AudioDurationsData)
         (mode key : string) (st : App.State) (audioDuration : option Q)
         (now : Z) (playStarts : bool),
    ((key = " " \/ key = "Spacebar")
       /\ (App.isAudioStarted st = true \/ mode <> "playback")) \/
    ((key = "ArrowRight" \/ key = "ArrowLeft")
       /\ App.isAudioStarted st = false) \/
    (key <> " " /\ key <> "Spacebar"
       /\ key <> "ArrowRight" /\ key <> "ArrowLeft") ->
    handleKeyDown chs ad mode key st audioDuration now playStarts
    = App.Returned st.
Proof.
  intros chs ad mode key st audioDuration now playStarts H.
  unfold handleKeyDown.
  destruct H as [[Hk Hs]|[[Hk Hs]|(H1 & H2 & H3 & H4)]].
  - assert (Hguard : String.eqb mode "playback" && negb (App.isAudioStarted st)
                     = false).
    { destruct Hs as [->|Hm]; [apply andb_false_r|].
      apply String.eqb_neq in Hm. now rewrite Hm. }
    rewrite Hguard, andb_false_r.
    destruct (negb (App.isAudioStarted st)); [reflexivity|].
    destruct (App.currentAudioIndexRef st); [|reflexivity].
    destruct (App.audioRef st); [|reflexivity].
    destruct Hk as [->| ->]; reflexivity.
  - rewrite Hs. destruct Hk as [->| ->]; reflexivity.
  - apply String.eqb_neq in H1, H2, H3, H4. rewrite H1, H2, H3, H4. simpl.
    destruct (negb (App.isAudioStarted st)); [reflexivity|].
    destruct (App.currentAudioIndexRef st); [|reflexivity].
    now destruct (App.audioRef st).
Qed.

Lemma handleKeyDown_ignores_other_keys_witness :
  handleKeyDown CHAPTERS None "playback" " " playingSecondTrack None 2000 true
  = App.Returned playingSecondTrack.
Proof.
  apply (handleKeyDown_ignores_other_keys CHAPTERS None "playback" " "
           playingSecondTrack None 2000 true).
  left. split; [left; reflexivity|left; reflexivity].
Defined.

Lemma totalPlayedTime_Some chs ad c t trk time :
  App.trackAt chs c t = Some trk ->
  totalPlayedTime chs ad c t time
  = Some (getChapterStartTime chs ad c + getTrackStartTime chs ad c t
          + Qmin time (getTrackDuration ad (audioFile trk)))%Q.
Proof.
  intros Ht. unfold totalPlayedTime.
  now rewrite Ht, (handleSeek_loop_is_getTrackStartTime chs ad c t trk Ht).
Qed.

(** X22: the arrow keys move the audio position by ten seconds within the
    loaded track, without reloading it.  With the player started on a track
    that exists, both keys return leaving the source, the play state, the
    loaded pair and the indices as they were.  ArrowRight sets the position
    to [min(currentTime + 10, limit)], where [limit] is [audio.duration], or
    the track's duration while that is [NaN] or 0: exactly 10 s later when
    that does not pass the limit, and the limit otherwise.  ArrowLeft sets
    it to [max(currentTime - 10, 0)]: exactly 10 s earlier when at least
    10 s have played, and 0 otherwise.  The progress published is the
    chapter start plus the track start plus the new position (capped at the
    track's duration), capped at [totalDuration] for ArrowRight and kept
    from going below 0 for ArrowLeft. *)
Theorem arrow_keys_seek_within_track :
  forall (chs : list Chapter) (ad : option AudioDurationsData)
         (mode : string) (st : App.State) (audioDuration : option Q)
         (now : Z) (playStarts : bool)
         (audio : App.HTMLAudioElement) (c t : Z) (trk : Track),
    App.isAudioStarted st = true ->
    App.audioRef st = Some audio ->
    App.currentAudioIndexRef st
    = Some {| App.chapterIndex := c; App.trackIndex := t |} ->
    App.trackAt chs c t = Some trk ->
    let duration := getTrackDuration ad (audioFile trk) in
    let limit :=
      if truthy audioDuration then number audioDuration else duration in
    let trackStart :=
      (getChapterStartTime chs ad c + getTrackStartTime chs ad c t)%Q in
    let timeR := Qmin (App.currentTime audio + 10) limit in
    let timeL := Qmax (App.currentTime audio - 10) 0 in
    handleKeyDown chs ad mode "ArrowRight" st audioDuration now playStarts
    = App.Returned
        (setCurrentProgress
           (withAudio st {| App.src := App.src audio;
                            App.currentTime := timeR;
                            App.paused := App.paused audio |})
           (Qmin (trackStart + Qmin timeR duration)
                 (getTotalDuration chs ad))) /\
    handleKeyDown chs ad mode "ArrowLeft" st audioDuration now playStarts
    = App.Returned
        (setCurrentProgress
           (withAudio st {| App.src := App.src audio;
                            App.currentTime := timeL;
                            App.paused := App.paused audio |})
           (Qmax (trackStart + Qmin (Qmax timeL 0) duration) 0)) /\
    ((App.currentTime audio + 10 <= limit)%Q ->
     (timeR == App.currentTime audio + 10)%Q) /\
    ((limit <= App.currentTime audio + 10)%Q -> (timeR == limit)%Q) /\
    ((10 <= App.currentTime audio)%Q ->
     (timeL == App.currentTime audio - 10)%Q) /\
    ((App.currentTime audio <= 10)%Q -> (timeL == 0)%Q).
Proof.
  intros chs ad mode st audioDuration now playStarts audio c t trk
         Hs Ha Hr Ht duration limit trackStart timeR timeL.
  subst duration limit trackStart timeR timeL.
  unfold handleKeyDown. simpl String.eqb. simpl orb. simpl andb.
  rewrite Hs, Hr, Ha. simpl negb. cbv iota.
  cbn [App.chapterIndex App.trackIndex]. rewrite Ht. cbv zeta.
  rewrite !(totalPlayedTime_Some chs ad c t trk) by assumption.
  split; [reflexivity|]. split; [reflexivity|].
  split; [intros H; apply Q.min_l; exact H|].
  split; [intros H; apply Q.min_r; exact H|].
  split; [intros H; apply Q.max_l; lra|].
  intros H. apply Q.max_r. lra.
Qed.

Lemma arrow_keys_seek_within_track_witness :
  handleKeyDown CHAPTERS None "playback" "ArrowRight" playingSecondTrack
    None 2000 true
  = App.Returned
      (setCurrentProgress
         (withAudio playingSecondTrack
            {| App.src := "a_01_02.mp3";
               App.currentTime := Qmin (5 + 10) 180;
               App.paused := false |})
         (Qmin (getChapterStartTime CHAPTERS None 0
                + getTrackStartTime CHAPTERS None 0 1
                + Qmin (Qmin (5 + 10) 180) 180)
               (getTotalDuration CHAPTERS None))) /\
  (Qmin (5 + 10) 180 == 5 + 10)%Q /\
  (Qmax (5 - 10) 0 == 0)%Q.
Proof.
  destruct (arrow_keys_seek_within_track CHAPTERS None "playback"
              playingSecondTrack None 2000 true
              {| App.src := "a_01_02.mp3"; App.currentTime := 5%Q;
                 App.paused := false |}
              0 1 {| audioFile := "a_01_02.mp3" |})
    as (HR & _ & HtR & _ & _ & HtL);
    try reflexivity.
  split; [exact HR|].
  split; [apply HtR; q_concrete|apply HtL; q_concrete].
Defined.

(** X23: fast-forward publishes the position the polling tick derives from
    the audio clock: after ArrowRight, with the player started on a track
    that exists, a polling tick leaves the published progress where the key
    handler put it. *)
Theorem tick_after_fast_forward_keeps_progress :
  forall (chs : list Chapter) (ad : option AudioDurationsData)
         (mode : string) (st : App.State) (audioDuration : option Q)
         (now : Z) (playStarts : bool) (cap1 cap2 : Z)
         (audio : App.HTMLAudioElement) (c t : Z) (trk : Track),
    App.isAudioStarted st = true ->
    App.audioRef st = Some audio ->
    App.currentAudioIndexRef st
    = Some {| App.chapterIndex := c; App.trackIndex := t |} ->
    App.trackAt chs c t = Some trk ->
    let st1 :=
      App.final (handleKeyDown chs ad mode "ArrowRight" st audioDuration
                   now playStarts) in
    App.currentProgress (App.final (updateProgress chs ad cap1 cap2 st1))
    = App.currentProgress st1.
Proof.
  intros chs ad mode st audioDuration now playStarts cap1 cap2 audio c t trk
         Hs Ha Hr Ht st1. subst st1.
  unfold handleKeyDown. simpl String.eqb. simpl orb. simpl andb.
  rewrite Hs, Hr, Ha. simpl negb. cbv iota.
  cbn [App.chapterIndex App.trackIndex]. rewrite Ht. cbv zeta.
  rewrite (totalPlayedTime_Some chs ad c t trk) by assumption.
  cbn [App.final]. unfold updateProgress, setCurrentProgress, withAudio.
  cbn [App.isAudioStarted App.currentAudioIndexRef App.audioRef App.paused
       App.currentTime App.chapterIndex App.trackIndex App.currentProgress].
  rewrite Hs, Hr. simpl negb. cbv iota.
  cbn [App.chapterIndex App.trackIndex].
  destruct (App.paused audio); [reflexivity|].
  rewrite (totalPlayedTime_Some chs ad c t trk) by assumption.
  reflexivity.
Qed.

Lemma tick_after_fast_forward_keeps_progress_witness :
  App.currentProgress
    (App.final
       (updateProgress CHAPTERS None 0 1
          (App.final (handleKeyDown CHAPTERS None "playback" "ArrowRight"
                        playingSecondTrack None 2000 true))))
  = App.currentProgress
      (App.final (handleKeyDown CHAPTERS None "playback" "ArrowRight"
                    playingSecondTrack None 2000 true)).
Proof.
  apply (tick_after_fast_forward_keeps_progress CHAPTERS None "playback"
           playingSecondTrack None 2000 true 0 1
           {| App.src := "a_01_02.mp3"; App.currentTime := 5%Q;
              App.paused := false |}
           0 1 {| audioFile := "a_01_02.mp3" |}); reflexivity.
Defined.

(** ** Seeking, then polling *)

(** Replaces every [Qmax] and [Qmin] by a variable constrained by its
    specification, and leaves the rest to linear arithmetic. *)
Ltac q_minmax :=
  repeat match goal with
  | |- context [Qmax ?a ?b] =>
    pose proof (Q.max_spec a b); generalize dependent (Qmax a b); intros
  | |- context [Qmin ?a ?b] =>
    pose proof (Q.min_spec a b); generalize dependent (Qmin a b); intros
  | H : context [Qmax ?a ?b] |- _ =>
    pose proof (Q.max_spec a b); generalize dependent (Qmax a b); intros
  | H : context [Qmin ?a ?b] |- _ =>
    pose proof (Q.min_spec a b); generalize dependent (Qmin a b); intros
  end;
  lra.

Lemma getTotalDuration_derived chs ad :
  (forall a, ad = Some a -> truthy (totalDuration a) = false) ->
  getTotalDuration chs ad = sumChapterDurations chs ad (List.length chs) 0 0%Q.
Proof.
  intros H. unfold getTotalDuration. destruct ad as [a|]; [|reflexivity].
  now rewrite (H a eq_refl).
Qed.






(** X25: the effect that re-syncs the audio to the published progress stays
    out of the way of normal playback: it changes nothing when the progress
    resolves to the pair that is loaded, and nothing while the loaded track
    is still playing (not paused and not yet at its end). *)
Theorem syncAudioToProgress_does_not_interrupt :
  forall (chs : list Chapter) (ad : option AudioDurationsData)
         (st : App.State) (audioDuration : option Q) (now : Z)
         (playStarts : bool),
    (exists currentAudio,
        App.currentAudioIndexRef st = Some currentAudio /\
        App.getCurrentAudioTrack chs ad (App.currentProgress st)
        = Some currentAudio) \/
    (exists audio d,
        App.audioRef st = Some audio /\ App.paused audio = false /\
        audioDuration = Some d /\ (App.currentTime audio < d)%Q) ->
    syncAudioToProgress chs ad st audioDuration now playStarts
    = App.Returned st.
Proof.
  intros chs ad st audioDuration now playStarts H.
  unfold syncAudioToProgress.
  destruct (App.audioRef st) as [audio|] eqn:Ha; [|reflexivity].
  destruct (negb (App.isAudioStarted st)); [reflexivity|].
  destruct (App.currentAudioIndexRef st) as [[c' t']|] eqn:Hr; [|reflexivity].
  destruct (App.getCurrentAudioTrack chs ad (App.currentProgress st))
    as [[c t]|] eqn:Eres; [|reflexivity].
  cbv zeta. cbn [App.chapterIndex App.trackIndex].
  destruct H as [(cur & Hcur & Hsame)|(audio' & d & Ha' & Hp & -> & Hlt)].
  - injection Hcur as <-. injection Hsame as <- <-.
    now rewrite !Z.eqb_refl.
  - injection Ha' as <-.
    destruct (negb (negb (c' =? c) || negb (t' =? t))); [reflexivity|].
    rewrite Hp. apply Qltb_true in Hlt. now rewrite Hlt.
Qed.

Lemma syncAudioToProgress_does_not_interrupt_witness :
  syncAudioToProgress CHAPTERS None playingSecondTrack (Some 180%Q) 2000 true
  = App.Returned playingSecondTrack.
Proof.
  apply (syncAudioToProgress_does_not_interrupt CHAPTERS None
           playingSecondTrack (Some 180%Q) 2000 true).
  right. exists {| App.src := "a_01_02.mp3"; App.currentTime := 5%Q;
                   App.paused := false |}, 180%Q.
  repeat split; try q_concrete.
Defined.

(** ** The progress bar *)

Section BarFacts.

Variable chs : list Chapter.
Variable ad : option AudioDurationsData.

Abbreviation addTrack :=
  (fun sum track => (sum + getTrackDuration ad (audioFile track))%Q).

Lemma fold_addTrack_mono ts acc :
  (forall ref, 0 <= getTrackDuration ad ref)%Q ->
  (acc <= fold_left addTrack ts acc)%Q.
Proof.
  intros Hnn. revert acc. induction ts as [|x rest IH]; intros acc; simpl.
  - lra.
  - specialize (IH (acc + getTrackDuration ad (audioFile x))%Q).
    specialize (Hnn (audioFile x)). lra.
Qed.

(** The bar's loop stops at the track whose interval holds the time. *)
Lemma progressBar_loop_within ts acc q i trk :
  (forall ref, 0 <= getTrackDuration ad ref)%Q ->
  nth_error ts i = Some trk ->
  (fold_left addTrack (firstn i ts) acc <= q)%Q ->
  (q < fold_left addTrack (firstn i ts) acc
       + getTrackDuration ad (audioFile trk))%Q ->
  progressBar_loop ad ts acc q
  = (fold_left addTrack (firstn i ts) acc,
     fold_left addTrack (firstn i ts) acc,
     getTrackDuration ad (audioFile trk)).
Proof.
  intros Hnn. revert acc i.
  induction ts as [|x rest IH]; intros acc i Hi Hlo Hhi.
  - now destruct i.
  - simpl progressBar_loop. destruct i as [|i].
    + injection Hi as ->. simpl in Hlo, Hhi |- *.
      apply Qltb_true in Hhi. now rewrite Hhi.
    + simpl in Hi. simpl firstn in Hlo, Hhi |- *.
      simpl fold_left in Hlo, Hhi |- *.
      pose proof (fold_addTrack_mono (firstn i rest)
                    (acc + getTrackDuration ad (audioFile x))%Q Hnn) as Hm.
      assert (Hf : Qltb q (acc + getTrackDuration ad (audioFile x)) = false)
        by (apply Qltb_false; lra).
      rewrite Hf. now apply IH.
Qed.

End BarFacts.

Lemma unit_fraction x d :
  (0 <= x)%Q -> (x < d)%Q -> (0 <= x / d)%Q /\ (x / d <= 1)%Q.
Proof.
  intros Hx Hd. assert (Hpos : (0 < d)%Q) by lra. split.
  - apply Qle_shift_div_l; [assumption|lra].
  - apply Qle_shift_div_r; [assumption|lra].
Qed.

(** X26: the progress bar shows the fraction played of the track its own
    loop stops at.  Let [progressInChapter = currentProgress -
    getChapterStartTime(currentChapterIndex)], as the bar computes it.  When
    no track duration is negative and [progressInChapter] is at or after the
    start of track [t] of the current chapter and before that start plus
    the track's duration, the bar computes its two positions; the track
    position is [(progressInChapter - getTrackStartTime) / duration] of that
    track, kept within [[0, 1]], and the chapter position lies in [[0, 1]]
    as well. *)
Theorem bar_shows_fraction_of_track :
  forall (chs : list Chapter) (ad : option AudioDurationsData)
         (p : Q) (c t : Z) (trk : Track),
    (forall ref, 0 <= getTrackDuration ad ref)%Q ->
    App.trackAt chs c t = Some trk ->
    let progressInChapter := (p - getChapterStartTime chs ad c)%Q in
    (getTrackStartTime chs ad c t <= progressInChapter)%Q ->
    (progressInChapter
     < getTrackStartTime chs ad c t + getTrackDuration ad (audioFile trk))%Q ->
    exists bp,
      barProgress chs ad p c = Some bp /\
      (trackProgress bp
       == Qmax 0 (Qmin ((progressInChapter - getTrackStartTime chs ad c t)
                        / getTrackDuration ad (audioFile trk)) 1))%Q /\
      (0 <= trackProgress bp)%Q /\ (trackProgress bp <= 1)%Q /\
      (0 <= chapterProgress bp)%Q /\ (chapterProgress bp <= 1)%Q.
Proof.
  intros chs ad p c t trk Hnn Htrk progressInChapter Hlo Hhi.
  subst progressInChapter.
  unfold App.trackAt in Htrk.
  destruct (js_index chs c) as [ch|] eqn:Hch; [|discriminate].
  pose proof (js_index_Some_range _ _ _ Htrk) as Htr.
  assert (Hi : nth_error (tracks ch) (Z.to_nat t) = Some trk).
  { unfold js_index in Htrk. now destruct (Z.ltb_spec t 0); [lia|]. }
  assert (Hts : getTrackStartTime chs ad c t
                = fold_left (fun sum track =>
                               (sum + getTrackDuration ad (audioFile track))%Q)
                    (firstn (Z.to_nat t) (tracks ch)) 0%Q).
  { rewrite (getTrackStartTime_in_chapter chs ad c ch t Hch).
    rewrite getTrackStartTime_loop_firstn. now rewrite Z.sub_0_r. }
  unfold barProgress. rewrite Hch. cbv zeta.
  rewrite (progressBar_loop_within ad (tracks ch) 0%Q
             (p - getChapterStartTime chs ad c) (Z.to_nat t) trk Hnn Hi)
    by (rewrite <- Hts; assumption).
  rewrite <- Hts.
  set (d := getTrackDuration ad (audioFile trk)) in *.
  assert (Hdpos : (0 < d)%Q) by lra.
  assert (Hnz : Qeq_bool d 0 = false).
  { destruct (Qeq_bool d 0) eqn:E; [|reflexivity].
    apply Qeq_bool_iff in E. lra. }
  rewrite Hnz. simpl andb. cbv iota.
  assert (Hlt : Qltb 0 d = true) by now apply Qltb_true.
  rewrite Hlt.
  eexists. split; [reflexivity|]. cbn [trackProgress chapterProgress].
  split; [reflexivity|]. split; [apply Q.le_max_l|].
  split; [apply Q.max_lub; [lra|apply Q.le_min_r]|].
  split; [apply Q.le_max_l|apply Q.max_lub; [lra|apply Q.le_min_r]].
Qed.

Lemma bar_shows_fraction_of_track_witness :
  exists bp,
    barProgress CHAPTERS (Some threeTrackDurations) 75 0 = Some bp /\
    (trackProgress bp
     == Qmax 0 (Qmin ((75 - getChapterStartTime CHAPTERS
                              (Some threeTrackDurations) 0
                       - getTrackStartTime CHAPTERS
                           (Some threeTrackDurations) 0 1)
                      / getTrackDuration (Some threeTrackDurations)
                          (audioFile {| audioFile := "a_01_02.mp3" |})) 1))%Q /\
    (0 <= trackProgress bp)%Q /\ (trackProgress bp <= 1)%Q /\
    (0 <= chapterProgress bp)%Q /\ (chapterProgress bp <= 1)%Q.
Proof.
  apply (bar_shows_fraction_of_track CHAPTERS (Some threeTrackDurations)
           75 0 1 {| audioFile := "a_01_02.mp3" |}).
  - intros ref. apply Qlt_le_weak.
    apply (getTrackDuration_pos _ [] None ref).
    intros key q Hq.
    apply lookup_insert_Some in Hq as [[_ <-]|[_ Hq]]; [q_concrete|].
    apply lookup_insert_Some in Hq as [[_ <-]|[_ Hq]]; [q_concrete|].
    apply lookup_insert_Some in Hq as [[_ <-]|[_ Hq]]; [q_concrete|].
    now rewrite lookup_empty in Hq.
  - reflexivity.
  - q_concrete.
  - q_concrete.
Defined.

(** X27: the target of a click on the progress bar, for every click offset
    and every width of the bar.  For a non-negative [totalDuration] the
    target handed to [onSeek] lies in [[0, totalDuration]], so the clamp of
    [handleSeek] leaves it as it is, with one exception: on a bar of width
    0 clicked at offset 0 the quotient is [0 / 0] and the target is [NaN].
    That is the only case in which it is. *)
Theorem click_target_within_timeline :
  forall (clickX width totalDuration : Q),
    (0 <= totalDuration)%Q ->
    match handleProgressBarClick clickX width totalDuration with
    | Some target =>
      ~ ((clickX == 0)%Q /\ (width == 0)%Q) /\
      (0 <= target)%Q /\ (target <= totalDuration)%Q /\
      (Qmax 0 (Qmin target totalDuration) == target)%Q
    | None => (clickX == 0)%Q /\ (width == 0)%Q
    end.
Proof.
  intros clickX width totalDuration Htot.
  unfold handleProgressBarClick.
  assert (Hscale : forall f, (0 <= f)%Q -> (f <= 1)%Q ->
            (0 <= f * totalDuration)%Q /\ (f * totalDuration <= totalDuration)%Q /\
            (Qmax 0 (Qmin (f * totalDuration) totalDuration)
             == f * totalDuration)%Q).
  { intros f Hf0 Hf1.
    assert (H0 : (0 <= f * totalDuration)%Q) by now apply Qmult_le_0_compat.
    assert (H1 : (f * totalDuration <= totalDuration)%Q) by nra.
    split; [assumption|]. split; [assumption|]. q_minmax. }
  destruct (Qeq_bool width 0) eqn:Ew.
  - apply Qeq_bool_iff in Ew.
    destruct (Qeq_bool clickX 0) eqn:Ex.
    + apply Qeq_bool_iff in Ex. simpl. now split.
    + assert (Hx : ~ (clickX == 0)%Q)
        by (intros H; apply Qeq_bool_iff in H; congruence).
      destruct (Qltb 0 clickX); simpl;
        (split; [intros [H _]; now apply Hx|apply Hscale; lra]).
  - assert (Hw : ~ (width == 0)%Q)
      by (intros H; apply Qeq_bool_iff in H; congruence).
    simpl. split; [intros [_ H]; now apply Hw|].
    apply Hscale; [apply Q.le_max_l|].
    apply Q.max_lub; [lra|apply Q.le_min_l].
Qed.

Lemma click_target_within_timeline_witness :
  handleProgressBarClick 1 4 1800 = Some (Qmax 0 (Qmin 1 (1 / 4)) * 1800)%Q /\
  match handleProgressBarClick 1 4 1800 with
  | Some target =>
    ~ ((1 == 0)%Q /\ (4 == 0)%Q) /\
    (0 <= target)%Q /\ (target <= 1800)%Q /\
    (Qmax 0 (Qmin target 1800) == target)%Q
  | None => (1 == 0)%Q /\ (4 == 0)%Q
  end.
Proof.
  split; [reflexivity|].
  apply (click_target_within_timeline 1 4 1800). q_concrete.
Defined.

(** ** The script that writes the audio artifact *)

Lemma storedDuration_positive r : (0 < storedDuration r)%Q.
Proof.
  destruct r as [| |[d|]]; simpl; try q_concrete.
  destruct (Qle_bool d 0) eqn:E; [q_concrete|].
  apply Qnot_le_lt. intros H. apply Qle_bool_iff in H. congruence.
Qed.

Lemma js_set_Some table key value k q :
  js_set table key value !! k = Some q ->
  (k = key /\ q = value) \/ table !! k = Some q.
Proof.
  unfold js_set. destruct (String.eqb key "__proto__"); [now right|].
  intros H. apply lookup_insert_Some in H as [[<- <-]|[_ H]]; auto.
Qed.

Lemma calculateDurations_loop_positive audioFiles durations :
  (forall key q, durations !! key = Some q -> (0 < q)%Q) ->
  forall key q,
    calculateDurations_loop audioFiles durations !! key = Some q -> (0 < q)%Q.
Proof.
  revert durations.
  induction audioFiles as [|[f r] rest IH]; intros durations Hd; simpl.
  - exact Hd.
  - apply IH. intros key q Hq.
    apply js_set_Some in Hq as [[_ ->]|Hq];
      [apply storedDuration_positive|now apply (Hd key)].
Qed.

(** An assignment under ["__proto__"] stores nothing: the table the script
    builds has no such entry, and the player's lookup of that name finds the
    prototype object. *)
Example script_stores_nothing_under_proto :
  calculateDurations
    [("__proto__", FileNotFound);
     ("/assets/a_01_01.mp3", ProbeReturned (Some 12%Q))]
  = {["/assets/a_01_01.mp3" := 12%Q]} /\
  getTrackDuration_js
    (Some (scriptOutput
             (calculateDurations
                [("__proto__", FileNotFound);
                 ("/assets/a_01_01.mp3", ProbeReturned (Some 12%Q))]) []))
    "__proto__" = JsInherited "__proto__".
Proof. split; reflexivity. Qed.

(** X28: the script never writes a zero or negative track duration: every
    entry of the table built by [calculateDurations] is positive, whatever
    the probes returned (a missing file, an error, [null] and a non-positive
    number all become 180).  From the artifact it writes, the player never
    resolves a track duration to zero or to a negative number: for every
    reference [getTrackDuration] returns a positive number, or, for a
    reference that names one, a member inherited from [Object.prototype]. *)
Theorem script_durations_are_positive :
  forall (audioFiles : list (string * ProbeResult))
         (scriptChapters : list (list Track)),
    (forall key q,
        calculateDurations audioFiles !! key = Some q -> (0 < q)%Q) /\
    (forall ref,
        match getTrackDuration_js
                (Some (scriptOutput (calculateDurations audioFiles)
                         scriptChapters)) ref with
        | JsNumber q => (0 < q)%Q
        | JsInherited name =>
          inherited name = true /\
          (name = ref \/ name = withoutAssetsPrefix ref)
        | JsUndefined => False
        end).
Proof.
  intros audioFiles scriptChapters.
  assert (Hpos : forall key q,
             calculateDurations audioFiles !! key = Some q -> (0 < q)%Q).
  { apply calculateDurations_loop_positive. intros key q Hq.
    now rewrite lookup_empty in Hq. }
  split; [exact Hpos|].
  intros ref. unfold scriptOutput.
  pose proof (getTrackDuration_js_pos (calculateDurations audioFiles)
                (map (scriptChapterDuration (calculateDurations audioFiles))
                   scriptChapters)
                (Some (fold_left (fun sum duration => (sum + duration)%Q)
                         (map (scriptChapterDuration
                                 (calculateDurations audioFiles))
                            scriptChapters) 0%Q))
                ref) as H.
  cbv zeta.
  destruct (getTrackDuration_js _ ref) as [q|name|].
  - apply H. intros key v Hv. apply Qlt_le_weak. now apply (Hpos key).
  - destruct H as (Hi & _ & Hn); [|now split].
    intros key v Hv. apply Qlt_le_weak. now apply (Hpos key).
  - apply H. intros key v Hv. apply Qlt_le_weak. now apply (Hpos key).
Qed.

Section ScriptArtifact.

Variable chs : list Chapter.
Variable durations : gmap string Q.
Variable scriptChapters : list (list Track).

Abbreviation out := (scriptOutput durations scriptChapters).
Abbreviation cds := (map (scriptChapterDuration durations) scriptChapters).

Hypothesis same_length : List.length chs = List.length scriptChapters.

Lemma script_chapter_duration c d :
  js_index cds c = Some d -> getChapterDuration chs (Some out) c = d.
Proof.
  intros Hd. apply getChapterDuration_precalculated; [|exact Hd].
  pose proof (js_index_Some_range _ _ _ Hd) as Hr.
  rewrite length_map in Hr. lia.
Qed.

(** The player's sum over the chapter indices is the script's sum over its
    list of chapter durations. *)
Lemma script_sum r i acc :
  0 <= i -> (Z.to_nat i + r = List.length cds)%nat ->
  sumChapterDurations chs (Some out) r i acc
  = fold_left (fun sum duration => (sum + duration)%Q)
      (skipn (Z.to_nat i) cds) acc.
Proof.
  revert i acc. induction r as [|r IH]; intros i acc Hi Hlen.
  - simpl. rewrite skipn_all2 by lia. reflexivity.
  - destruct (nth_error cds (Z.to_nat i)) as [d|] eqn:E.
    + simpl sumChapterDurations.
      rewrite (script_chapter_duration i d)
        by (unfold js_index; destruct (Z.ltb_spec i 0); [lia|exact E]).
      rewrite (skipn_nth_error _ _ _ E). simpl fold_left.
      rewrite IH by lia.
      now replace (Z.to_nat (i + 1)) with (S (Z.to_nat i)) by lia.
    + apply nth_error_None in E. lia.
Qed.

Lemma script_total :
  (getTotalDuration chs (Some out)
   == sumChapterDurations chs (Some out) (List.length chs) 0 0)%Q.
Proof.
  unfold getTotalDuration.
  destruct (truthy (totalDuration out)) eqn:E; [|reflexivity].
  rewrite script_sum by (rewrite ?length_map; simpl; lia).
  reflexivity.
Qed.

End ScriptArtifact.

(** X29: the artifact the script writes is consistent with the player's
    boundary table: when the script's chapter list has as many chapters as
    the player's, the player takes each chapter duration from the artifact,
    and the precomputed total it returns equals the start of the last
    chapter plus the duration of the last chapter. *)
Theorem script_artifact_total_is_consistent :
  forall (chs : list Chapter) (durations : gmap string Q)
         (scriptChapters : list (list Track)),
    List.length chs = List.length scriptChapters ->
    let artifact := Some (scriptOutput durations scriptChapters) in
    let lastChapter := Z.of_nat (List.length chs) - 1 in
    (forall c ts,
        js_index scriptChapters c = Some ts ->
        getChapterDuration chs artifact c = scriptChapterDuration durations ts) /\
    (getTotalDuration chs artifact
     == getChapterStartTime chs artifact lastChapter
        + getChapterDuration chs artifact lastChapter)%Q.
Proof.
  intros chs durations scriptChapters Hlen artifact lastChapter.
  subst artifact lastChapter. split.
  - intros c ts Hts. apply (script_chapter_duration chs _ _ Hlen).
    unfold js_index in *. destruct (c <? 0); [discriminate|].
    rewrite nth_error_map, Hts. reflexivity.
  - rewrite (script_total chs durations scriptChapters Hlen).
    pose proof (last_boundary_sum chs
                  (Some (scriptOutput durations scriptChapters))) as Hsum.
    cbv zeta in Hsum. now rewrite Hsum.
Qed.

Lemma script_artifact_total_is_consistent_witness :
  (getTotalDuration CHAPTERS
     (Some (scriptOutput {["a_01_01.mp3" := 60%Q]} (map tracks CHAPTERS)))
   == getChapterStartTime CHAPTERS
        (Some (scriptOutput {["a_01_01.mp3" := 60%Q]} (map tracks CHAPTERS)))
        (Z.of_nat (List.length CHAPTERS) - 1)
      + getChapterDuration CHAPTERS
          (Some (scriptOutput {["a_01_01.mp3" := 60%Q]} (map tracks CHAPTERS)))
          (Z.of_nat (List.length CHAPTERS) - 1))%Q.
Proof.
  apply (script_artifact_total_is_consistent CHAPTERS
           {["a_01_01.mp3" := 60%Q]} (map tracks CHAPTERS)).
  reflexivity.
Defined.

(** ** The length of the whole composition *)

(** Rounding a sum and summing the roundings differ by at most one. *)
Lemma Math_round_sum_drift x a b :
  (x == a + b)%Q ->
  Z.abs (Math_round x - (Math_round a + Math_round b)) <= 1.
Proof.
  intros Hx. rewrite (Math_round_Qeq _ _ Hx).
  destruct (Math_round_bounds a) as [Ha1 Ha2].
  destruct (Math_round_bounds b) as [Hb1 Hb2].
  destruct (Math_round_bounds (a + b)) as [Hs1 Hs2].
  set (ra := Math_round a) in *. set (rb := Math_round b) in *.
  set (rs := Math_round (a + b)) in *.
  assert (Hup : (inject_Z (rs - (ra + rb)) < inject_Z 2)%Q).
  { unfold Z.sub. rewrite !inject_Z_plus, inject_Z_opp, inject_Z_plus.
    change (inject_Z 2) with 2%Q.
    generalize dependent (inject_Z rs). generalize dependent (inject_Z ra).
    generalize dependent (inject_Z rb). intros; lra. }
  assert (Hdn : (inject_Z (-2) < inject_Z (rs - (ra + rb)))%Q).
  { unfold Z.sub. rewrite !inject_Z_plus, inject_Z_opp, inject_Z_plus.
    change (inject_Z (-2)) with (-2)%Q.
    generalize dependent (inject_Z rs). generalize dependent (inject_Z ra).
    generalize dependent (inject_Z rb). intros; lra. }
  rewrite <- Zlt_Qlt in Hup, Hdn. lia.
Qed.

(** X30: without a precomputed total, the length of the whole composition,
    [getTotalFrames], is within one frame of the frame at which the range of
    the last chapter ends ([from + durationInFrames] of
    [getChapterFrameRange(N - 1)]). *)
Theorem total_frames_within_one_of_last_range :
  forall (chs : list Chapter) (ad : option AudioDurationsData) (fps : Q),
    (forall a, ad = Some a -> truthy (totalDuration a) = false) ->
    Z.abs (getTotalFrames chs ad fps
           - (from (getChapterFrameRange chs ad
                      (Z.of_nat (List.length chs) - 1) fps)
              + durationInFrames
                  (getChapterFrameRange chs ad
                     (Z.of_nat (List.length chs) - 1) fps))) <= 1.
Proof.
  intros chs ad fps Hpre.
  unfold getTotalFrames, getChapterFrameRange. simpl. unfold toFrames.
  apply Math_round_sum_drift.
  rewrite (getTotalDuration_derived chs ad Hpre).
  pose proof (last_boundary_sum chs ad) as Hsum. cbv zeta in Hsum.
  rewrite <- Hsum. ring.
Qed.

Lemma total_frames_within_one_of_last_range_witness :
  Z.abs (getTotalFrames CHAPTERS (Some fractionalDurations) FPS
         - (from (getChapterFrameRange CHAPTERS (Some fractionalDurations)
                    (Z.of_nat (List.length CHAPTERS) - 1) FPS)
            + durationInFrames
                (getChapterFrameRange CHAPTERS (Some fractionalDurations)
                   (Z.of_nat (List.length CHAPTERS) - 1) FPS))) <= 1.
Proof.
  apply (total_frames_within_one_of_last_range CHAPTERS
           (Some fractionalDurations) FPS).
  intros a [= <-]. reflexivity.
Defined.
